(** * Media service: the conversion routes of [src/index.ts]

    A shallow embedding of the routes of the Express application, the two
    video routes [POST /convert-video] and [GET /download-video/:filename]
    and the image route [POST /convert] with the upload filter, together
    with the pieces of the Node runtime they rely on: the [path] helpers, a
    file system, the external encoder process, and [Promise.all].

    Conventions.
    - A JavaScript string is a [string]: the bytes of its UTF-8 encoding.
    - An [async] function is a resumption ([Prog]): a tree whose nodes are the
      operations it awaits and whose leaves are its settlement.  A scheduler
      resumes the pending units of work of a batch in any order.
    - The file system is a finite map from absolute paths to nodes.
    - Logging ([console.log], morgan) is not modelled. *)

From Stdlib Require Import ZArith NArith Ascii.
From stdpp Require Import gmap strings list fin_maps.

Local Open Scope Z_scope.
Local Open Scope N_scope.
Local Open Scope nat_scope.

(* ===================================================================== *)
(** ** Strings *)
(* ===================================================================== *)

Module Str.

(** [s.endsWith(suffix)] *)
Definition ends_with (s suffix : string) : Prop := ∃ pre, s = pre +:+ suffix.

(** [String.prototype.toLowerCase] on one UTF-8 byte: the letters [A-Z] go
    to [a-z]; every other byte is kept.  This is the exact result on ASCII
    text.  Outside ASCII the only code points whose lower case contains an
    ASCII letter are U+212A (k) and U+0130 (i), and neither letter occurs in
    a key of the format tables below, so a string is accepted by those
    tables here exactly when it is accepted by the program. *)
Definition lower_ascii (c : ascii) : ascii :=
  let n := N_of_ascii c in
  if ((65 <=? n) && (n <=? 90))%N then ascii_of_N (n + 32) else c.

Fixpoint toLowerCase (s : string) : string :=
  match s with
  | "" => ""
  | String c s' => String (lower_ascii c) (toLowerCase s')
  end.

(** [strs.join(sep)] *)
Fixpoint join (sep : string) (strs : list string) : string :=
  match strs with
  | [] => ""
  | [s] => s
  | s :: rest => s +:+ sep +:+ join sep rest
  end.

(** [chunks.join("")], the result of repeated [+=]. *)
Definition concat (chunks : list string) : string := foldr String.app "" chunks.

(** The one-character string holding a double quote. *)
Definition dquote : string := String (ascii_of_nat 34) "".

(** No byte of the string is a slash. *)
Fixpoint slash_free (s : string) : Prop :=
  match s with
  | "" => True
  | String c s' => c ≠ "/"%char ∧ slash_free s'
  end.

(** [x || fallback] for a string [x]: the empty string is falsy. *)
Definition or_else (x fallback : string) : string :=
  if decide (x = "") then fallback else x.

End Str.

(* ===================================================================== *)
(** ** Node's [path] module (POSIX flavour) *)
(* ===================================================================== *)

Module Path.

(** [p.split("/")] *)
Fixpoint segments (p : string) : list string :=
  match p with
  | "" => [""]
  | String c p' =>
      if decide (c = "/"%char) then "" :: segments p'
      else match segments p' with
           | seg :: rest => String c seg :: rest
           | [] => [String c ""]
           end
  end.

(** One round of [normalizeString]: the stack holds the segments kept so
    far, most recent first. *)
Definition norm_step (allowAboveRoot : bool) (stack : list string) (seg : string)
  : list string :=
  if decide (seg = "" ∨ seg = ".") then stack
  else if decide (seg = "..") then
    match stack with
    | top :: rest =>
        if decide (top = "..") then (if allowAboveRoot then seg :: stack else stack)
        else rest
    | [] => if allowAboveRoot then [seg] else []
    end
  else seg :: stack.

Definition normalizeString (p : string) (allowAboveRoot : bool) : string :=
  Str.join "/" (rev (foldl (norm_step allowAboveRoot) [] (segments p))).

Definition starts_with_slash (p : string) : bool :=
  match p with String c _ => bool_decide (c = "/"%char) | "" => false end.

Fixpoint ends_with_slash (p : string) : bool :=
  match p with
  | "" => false
  | String c "" => bool_decide (c = "/"%char)
  | String _ p' => ends_with_slash p'
  end.

(** [path.normalize] *)
Definition normalize (p : string) : string :=
  if decide (p = "") then "."
  else
    let isAbsolute := starts_with_slash p in
    let trailingSeparator := ends_with_slash p in
    let q := normalizeString p (negb isAbsolute) in
    if decide (q = "") then
      (if isAbsolute then "/" else if trailingSeparator then "./" else ".")
    else
      let q' := if trailingSeparator then q +:+ "/" else q in
      if isAbsolute then "/" +:+ q' else q'.

(** [path.join(a, b)]: empty arguments are skipped, the rest is glued with
    a slash and normalised. *)
Definition join (a b : string) : string :=
  if decide (a = "") then normalize b
  else if decide (b = "") then normalize a
  else normalize (a +:+ "/" +:+ b).

(** [path.basename(p)]: the last non-empty segment. *)
Definition basename (p : string) : string :=
  default "" (last (filter (λ seg, seg ≠ "") (segments p))).

(** The split of a name at its last dot: what precedes the dot, and the dot
    with what follows it. *)
Fixpoint last_dot (s : string) : option (string * string) :=
  match s with
  | "" => None
  | String c s' =>
      match last_dot s' with
      | Some (pre, ext) => Some (String c pre, ext)
      | None => if decide (c = "."%char) then Some ("", s) else None
      end
  end.

(** [path.extname(p)]: from the last dot of the last segment; empty when
    there is no dot, when the only dot leads the segment, and for [..]. *)
Definition extname (p : string) : string :=
  let b := basename p in
  match last_dot b with
  | Some (pre, ext) =>
      if decide (pre = "") then ""
      else if decide (b = "..") then ""
      else ext
  | None => ""
  end.

End Path.

(* ===================================================================== *)
(** ** Identifiers: [uuidv4()] *)
(* ===================================================================== *)

(** The five fields of a UUID (RFC 4122), printed as 8-4-4-4-12 lower-case
    hexadecimal digits.  The random source is the environment's. *)
Record Uuid := {
  time_low : N;
  time_mid : N;
  time_hi_and_version : N;
  clock_seq : N;
  node : N;
}.

Definition hex_digit (n : N) : ascii :=
  match n with
  | 0 => "0" | 1 => "1" | 2 => "2" | 3 => "3" | 4 => "4" | 5 => "5"
  | 6 => "6" | 7 => "7" | 8 => "8" | 9 => "9" | 10 => "a" | 11 => "b"
  | 12 => "c" | 13 => "d" | 14 => "e" | _ => "f"
  end%N%char.

(** The [k] low hexadecimal digits of [n], most significant first, in front
    of [acc]. *)
Fixpoint hex_acc (k : nat) (n : N) (acc : string) : string :=
  match k with
  | O => acc
  | S k' => hex_acc k' (n / 16)%N (String (hex_digit (n mod 16)%N) acc)
  end.

Definition hex (k : nat) (n : N) : string := hex_acc k n "".

Definition uuid_string (u : Uuid) : string :=
  hex 8 (time_low u) +:+ "-" +:+ hex 4 (time_mid u) +:+ "-" +:+
  hex 4 (time_hi_and_version u) +:+ "-" +:+ hex 4 (clock_seq u) +:+ "-" +:+
  hex 12 (node u).

(* ===================================================================== *)
(** ** Data model *)
(* ===================================================================== *)

Definition bytes := list Byte.byte.

(** The message of a JavaScript [Error]. *)
Definition Exn := string.

(** [Express.Multer.File] under memory storage. *)
Record UploadedFile := {
  originalname : string;
  mimetype : string;
  buffer : bytes;
}.

#[local] Set Warnings "-register-all".

(** JSON values; an object keeps its keys in insertion order. *)
Inductive Json :=
| JNull
| JBool (b : bool)
| JNum (n : N)
| JStr (s : string)
| JArr (items : list Json)
| JObj (fields : list (string * Json)).

#[local] Set Warnings "register-all".

Fixpoint assoc (key : string) (fields : list (string * Json)) : option Json :=
  match fields with
  | [] => None
  | (k, v) :: rest => if decide (k = key) then Some v else assoc key rest
  end.

(** [obj[key]] *)
Definition field (key : string) (v : Json) : option Json :=
  match v with
  | JObj fields => assoc key fields
  | _ => None
  end.

(** [Object.keys(obj)] *)
Definition keys (v : Json) : list string :=
  match v with
  | JObj fields => fst <$> fields
  | _ => []
  end.

(** What a route handler has done with its response object. *)
Inductive Body :=
| JsonBody (v : Json)                                        (* [res.json(v)] *)
| TextBody (text : string)                                   (* [res.send(text)] *)
| FileBody (headers : list (string * string)) (data : bytes) (* [res.download] ran to the end *).

Inductive Reply :=
| Responded (status : nat) (body : Body)
| Truncated (headers : list (string * string))
    (* the headers went out, then the transfer broke; nothing more can be sent *)
| Uncaught (exn : Exn)
    (* the handler's promise rejected: [asyncHandler] hands the error to Express *)
| Pending
    (* the handler is still waiting *).

(** A text field of a multipart body as multer hands it over: the text of
    a field sent once; a field sent more than once, or named with brackets,
    arrives as an array or an object, which is truthy and has no string
    methods. *)
Inductive FieldValue :=
| Text (s : string)
| Compound.

(** The parts of an Express request the routes read. *)
Record Request := {
  req_files : option (list UploadedFile);   (* [req.files] *)
  req_format : option FieldValue;           (* [req.body.format] *)
  req_protocol : string;                    (* [req.protocol] *)
  req_host : option string;                 (* [req.get("host")] *)
}.

(** [new Map<string, string>([...])] *)
Definition allowedImageFormats : gmap string string :=
  list_to_map [("png", "image/png"); ("jpeg", "image/jpeg");
               ("jpg", "image/jpeg"); ("webp", "image/webp")].

Definition allowedVideoFormats : gmap string string :=
  list_to_map [("mp4", "video/mp4"); ("webm", "video/webm")].

(* ===================================================================== *)
(** ** The environment: file system, encoder process, transfers *)
(* ===================================================================== *)

Inductive Node :=
| File (data : bytes)
| Dir (size : N).

Abbreviation FS := (gmap string Node).

(** How an encoder process ends, as the events the handler listens to: the
    first of [close] (with the exit code, [null] after a signal) and
    [error]. *)
Inductive ProcEnd :=
| Closed (code : option Z)
| Errored (msg : string).

(** What [spawn] and the events of the child give the caller: an exception
    thrown by [spawn] itself, or the [data] chunks of standard error followed
    by the end of the process.  A process that never ends has no outcome: a
    unit of work waiting for it stays pending for ever. *)
Inductive ProcOutcome :=
| SpawnThrew (msg : string)
| Ran (stderr : list string) (fin : ProcEnd).

(** What [res.download]'s callback is called with. *)
Inductive SendResult :=
| Sent (data : bytes)
| SendFailed (msg : string) (headersSent : bool).

(** What the environment does to one unit of work. *)
Record Faults := {
  write_fault : option (string * option bytes);
    (* [fs.writeFile] rejects with this message, leaving this partial file *)
  proc : ProcOutcome;
    (* the fate of the encoder process *)
  encoded : option bytes;
    (* what an encoder that ran to [close] has left at its output path *)
  unlink_fault : option string;
    (* [fs.unlink] of a regular file rejects with this message, leaving the file *)
  interrupted : option string;
    (* a transfer breaks after its headers were sent, with this message *)
  hides_dot_directories : bool;
    (* the file server of the framework refuses a path through a dot
       directory, as its later versions do; a dot file it always refuses *)
}.

Definition fs_writeFile (fault : option (string * option bytes))
    (path : string) (data : bytes) (fs : FS) : (Exn + unit) * FS :=
  match fs !! path with
  | Some (Dir _) =>
      (inl ("EISDIR: illegal operation on a directory, open '" +:+ path +:+ "'"), fs)
  | _ =>
      match fault with
      | None => (inr (), <[path := File data]> fs)
      | Some (msg, None) => (inl msg, fs)
      | Some (msg, Some partial) => (inl msg, <[path := File partial]> fs)
      end
  end.

Definition fs_stat (path : string) (fs : FS) : Exn + N :=
  match fs !! path with
  | Some (File data) => inr (N.of_nat (length data))
  | Some (Dir size) => inr size
  | None => inl ("ENOENT: no such file or directory, stat '" +:+ path +:+ "'")
  end.

(** Removing a regular file succeeds unless the environment fails it (a
    directory that cannot be written, a busy file); a failed removal, like
    one of a directory or of nothing, is an error, which the [finally]
    block of a unit of work catches and logs. *)
Definition fs_unlink (fault : option string) (path : string) (fs : FS)
  : (Exn + unit) * FS :=
  match fs !! path with
  | Some (File _) =>
      match fault with
      | None => (inr (), delete path fs)
      | Some msg => (inl msg, fs)
      end
  | Some (Dir _) =>
      (inl ("EISDIR: illegal operation on a directory, unlink '" +:+ path +:+ "'"), fs)
  | None => (inl ("ENOENT: no such file or directory, unlink '" +:+ path +:+ "'"), fs)
  end.

Definition fs_access (path : string) (fs : FS) : Exn + unit :=
  match fs !! path with
  | Some _ => inr ()
  | None => inl ("ENOENT: no such file or directory, access '" +:+ path +:+ "'")
  end.

(** The encoder writes its result, if it leaves one, to its last argument. *)
Definition run_encoder (io : Faults) (args : list string) (fs : FS) : FS :=
  match proc io, encoded io, last args with
  | Ran _ (Closed _), Some data, Some out =>
      match fs !! out with
      | Some (Dir _) => fs
      | _ => <[out := File data]> fs
      end
  | _, _, _ => fs
  end.

(** A path segment that names a dot file or a dot directory. *)
Definition dot_segment (seg : string) : bool :=
  match seg with
  | String c (String _ _) => bool_decide (c = "."%char)
  | _ => false
  end.

(** The dot-file policy of the framework's file server, left at its
    default: a resolved path whose last segment starts with a dot is not
    served; whether a dot directory on the way hides a file as well depends
    on the version of the framework. *)
Definition hidden (io : Faults) (path : string) : bool :=
  let parts := filter (λ seg, seg ≠ "") (Path.segments path) in
  match last parts with
  | Some seg => dot_segment seg || (hides_dot_directories io && existsb dot_segment parts)
  | None => false
  end.

(** [res.download]: a hidden path fails before anything is sent; a regular
    file is streamed, unless the transfer breaks once the headers are out;
    anything else fails before the headers. *)
Definition send_file (io : Faults) (path : string) (fs : FS) : SendResult :=
  if hidden io path then SendFailed "Not Found" false
  else
    match fs !! path with
    | Some (File data) =>
        match interrupted io with
        | Some msg => SendFailed msg true
        | None => Sent data
        end
    | Some (Dir _) => SendFailed "EISDIR, read" false
    | None => SendFailed ("ENOENT: no such file or directory, stat '" +:+ path +:+ "'") false
    end.

(* ===================================================================== *)
(** ** Asynchronous programs *)
(* ===================================================================== *)

(** An [async] function body, cut at its [await]s: each node names the
    operation awaited and continues with its result. *)
Inductive Prog (A : Type) : Type :=
| Ret (a : A)
| WriteFile (path : string) (data : bytes) (k : Exn + unit → Prog A)
| Spawn (cmd : string) (args : list string) (k : ProcOutcome → Prog A)
| Stat (path : string) (k : Exn + N → Prog A)
| Unlink (path : string) (k : Exn + unit → Prog A)
| Access (path : string) (k : Exn + unit → Prog A)
| SendFile (path : string) (k : SendResult → Prog A).

Arguments Ret {A} a.
Arguments WriteFile {A} path data k.
Arguments Spawn {A} cmd args k.
Arguments Stat {A} path k.
Arguments Unlink {A} path k.
Arguments Access {A} path k.
Arguments SendFile {A} path k.

(** One operation as it happened: its arguments and its result. *)
Inductive Obs :=
| ObsWrite (path : string) (data : bytes) (r : Exn + unit)
| ObsSpawn (cmd : string) (args : list string) (r : ProcOutcome)
| ObsStat (path : string) (r : Exn + N)
| ObsUnlink (path : string) (r : Exn + unit)
| ObsAccess (path : string) (r : Exn + unit)
| ObsSend (path : string) (r : SendResult).

Fixpoint pbind {A B} (p : Prog A) (f : A → Prog B) : Prog B :=
  match p with
  | Ret a => f a
  | WriteFile path data k => WriteFile path data (λ r, pbind (k r) f)
  | Spawn cmd args k => Spawn cmd args (λ r, pbind (k r) f)
  | Stat path k => Stat path (λ r, pbind (k r) f)
  | Unlink path k => Unlink path (λ r, pbind (k r) f)
  | Access path k => Access path (λ r, pbind (k r) f)
  | SendFile path k => SendFile path (λ r, pbind (k r) f)
  end.

(** Resume a program once: perform the operation it waits for. *)
Definition resume {A} (io : Faults) (p : Prog A) (fs : FS)
  : option (Obs * Prog A * FS) :=
  match p with
  | Ret _ => None
  | WriteFile path data k =>
      let '(r, fs') := fs_writeFile (write_fault io) path data fs in
      Some (ObsWrite path data r, k r, fs')
  | Spawn cmd args k =>
      Some (ObsSpawn cmd args (proc io), k (proc io), run_encoder io args fs)
  | Stat path k =>
      let r := fs_stat path fs in Some (ObsStat path r, k r, fs)
  | Unlink path k =>
      let '(r, fs') := fs_unlink (unlink_fault io) path fs in
      Some (ObsUnlink path r, k r, fs')
  | Access path k =>
      let r := fs_access path fs in Some (ObsAccess path r, k r, fs)
  | SendFile path k =>
      let r := send_file io path fs in Some (ObsSend path r, k r, fs)
  end.

(** Run a program alone, to its end. *)
Fixpoint exec {A} (io : Faults) (p : Prog A) (fs : FS) : A * FS * list Obs :=
  match p with
  | Ret a => (a, fs, [])
  | WriteFile path data k =>
      let '(r, fs') := fs_writeFile (write_fault io) path data fs in
      let '(a, fs'', tr) := exec io (k r) fs' in (a, fs'', ObsWrite path data r :: tr)
  | Spawn cmd args k =>
      let '(a, fs'', tr) := exec io (k (proc io)) (run_encoder io args fs) in
      (a, fs'', ObsSpawn cmd args (proc io) :: tr)
  | Stat path k =>
      let r := fs_stat path fs in
      let '(a, fs'', tr) := exec io (k r) fs in (a, fs'', ObsStat path r :: tr)
  | Unlink path k =>
      let '(r, fs') := fs_unlink (unlink_fault io) path fs in
      let '(a, fs'', tr) := exec io (k r) fs' in (a, fs'', ObsUnlink path r :: tr)
  | Access path k =>
      let r := fs_access path fs in
      let '(a, fs'', tr) := exec io (k r) fs in (a, fs'', ObsAccess path r :: tr)
  | SendFile path k =>
      let r := send_file io path fs in
      let '(a, fs'', tr) := exec io (k r) fs in (a, fs'', ObsSend path r :: tr)
  end.

(** [runs p obs p']: fed the results recorded in [obs], in order, for the
    operations it asks for, [p] becomes [p']. *)
Inductive runs {A} : Prog A → list Obs → Prog A → Prop :=
| runs_here p : runs p [] p
| runs_write path data k r obs p' :
    runs (k r) obs p' → runs (WriteFile path data k) (ObsWrite path data r :: obs) p'
| runs_spawn cmd args k r obs p' :
    runs (k r) obs p' → runs (Spawn cmd args k) (ObsSpawn cmd args r :: obs) p'
| runs_stat path k r obs p' :
    runs (k r) obs p' → runs (Stat path k) (ObsStat path r :: obs) p'
| runs_unlink path k r obs p' :
    runs (k r) obs p' → runs (Unlink path k) (ObsUnlink path r :: obs) p'
| runs_access path k r obs p' :
    runs (k r) obs p' → runs (Access path k) (ObsAccess path r :: obs) p'
| runs_send path k r obs p' :
    runs (k r) obs p' → runs (SendFile path k) (ObsSend path r :: obs) p'.

(** [settles_within n p]: whatever the results, [p] has settled after at
    most [n] operations. *)
Inductive settles_within {A} : nat → Prog A → Prop :=
| sw_ret n a : settles_within n (Ret a)
| sw_write n path data k :
    (∀ r, settles_within n (k r)) → settles_within (S n) (WriteFile path data k)
| sw_spawn n cmd args k :
    (∀ r, settles_within n (k r)) → settles_within (S n) (Spawn cmd args k)
| sw_stat n path k :
    (∀ r, settles_within n (k r)) → settles_within (S n) (Stat path k)
| sw_unlink n path k :
    (∀ r, settles_within n (k r)) → settles_within (S n) (Unlink path k)
| sw_access n path k :
    (∀ r, settles_within n (k r)) → settles_within (S n) (Access path k)
| sw_send n path k :
    (∀ r, settles_within n (k r)) → settles_within (S n) (SendFile path k).

(* ===================================================================== *)
(** ** Exceptions and local variables over programs *)
(* ===================================================================== *)

(** The two variables declared before the [try] of a unit of work. *)
Record Locals := {
  inputFilePath : option string;
  outputFilePath : option string;
}.

(** A block of statements: it reads and assigns the locals, awaits, and ends
    normally with a value or abruptly with a thrown error. *)
Definition M (A : Type) : Type := Locals → Prog (Locals * (Exn + A)).

Definition ret {A} (a : A) : M A := λ l, Ret (l, inr a).

Definition throw {A} (e : Exn) : M A := λ l, Ret (l, inl e).

Definition bind {A B} (m : M A) (f : A → M B) : M B :=
  λ l, pbind (m l) (λ '(l', r),
    match r with
    | inl e => Ret (l', inl e)
    | inr a => f a l'
    end).

#[global] Instance M_ret : MRet M := @ret.
#[global] Instance M_bind : MBind M := λ A B f m, bind m f.

(** [try { body } catch (error) { handler error }] *)
Definition try_catch {A} (body : M A) (handler : Exn → M A) : M A :=
  λ l, pbind (body l) (λ '(l', r),
    match r with
    | inl e => handler e l'
    | inr a => Ret (l', inr a)
    end).

(** [try { body } finally { cleanup }]: the cleanup runs on every way out of
    the body, and the body's completion stands unless the cleanup throws. *)
Definition try_finally {A} (body : M A) (cleanup : M unit) : M A :=
  λ l, pbind (body l) (λ '(l', r),
    pbind (cleanup l') (λ '(l'', c),
      match c with
      | inl e => Ret (l'', inl e)
      | inr _ => Ret (l'', r)
      end)).

Definition get_locals : M Locals := λ l, Ret (l, inr l).

Definition set_inputFilePath (p : string) : M unit :=
  λ l, Ret ({| inputFilePath := Some p; outputFilePath := outputFilePath l |}, inr ()).

Definition set_outputFilePath (p : string) : M unit :=
  λ l, Ret ({| inputFilePath := inputFilePath l; outputFilePath := Some p |}, inr ()).

(** [await fs.writeFile(path, data)] *)
Definition writeFile (path : string) (data : bytes) : M unit :=
  λ l, WriteFile path data (λ r, Ret (l, r)).

(** [(await fs.stat(path)).size] *)
Definition stat_size (path : string) : M N :=
  λ l, Stat path (λ r, Ret (l, r)).

(** [await fs.unlink(path)] *)
Definition unlink (path : string) : M unit :=
  λ l, Unlink path (λ r, Ret (l, r)).

(** Lines 236-264: how the promise around the child settles.  It resolves
    on [close] with code 0, and rejects on any other [close], with the
    gathered standard error, and on [error].  An exception thrown by [spawn]
    itself (line 229) is the block's. *)
Definition ffmpeg_settlement (outcome : ProcOutcome) : Exn + unit :=
  match outcome with
  | SpawnThrew msg => inl msg
  | Ran chunks (Closed code) =>
      let ffmpegErrorOutput := Str.concat chunks in
      if decide (code = Some 0%Z) then inr ()
      else inl ("FFmpeg conversion failed: " +:+
                Str.or_else ffmpegErrorOutput "Unknown FFmpeg error")
  | Ran _ (Errored msg) => inl ("Failed to start FFmpeg: " +:+ msg)
  end.

(** Lines 229-264: spawn the encoder and wait for that promise. *)
Definition run_ffmpeg (ffmpegArgs : list string) : M unit :=
  λ l, Spawn "ffmpeg" ffmpegArgs (λ outcome, Ret (l, ffmpeg_settlement outcome)).

(* ===================================================================== *)
(** ** [POST /convert-video]: one file *)
(* ===================================================================== *)

Section ConvertOne.

Variable req : Request.
Variable targetFormat : string.      (* [req.body.format], as sent *)
Variable targetMimeType : string.    (* its entry in [allowedVideoFormats] *)
Variable uniqueId : Uuid.            (* what [uuidv4()] returns for this file *)
Variable file : UploadedFile.

Definition inputFileName : string :=
  uuid_string uniqueId +:+ "_input" +:+ Path.extname (originalname file).

Definition outputFileName : string :=
  uuid_string uniqueId +:+ "_output." +:+ Str.toLowerCase targetFormat.

Definition inputPath : string := Path.join "/tmp" inputFileName.

Definition outputPath : string := Path.join "/tmp" outputFileName.

Definition ffmpegArgs : list string :=
  [ "-i"; inputPath;
    "-c:v"; if decide (targetFormat = "webm") then "libvpx" else "libx264";
    "-preset"; "veryfast";
    "-crf"; "28";
    "-threads"; "0";
    "-y";
    outputPath ].

Definition downloadUrl : string :=
  req_protocol req +:+ "://" +:+ default "undefined" (req_host req) +:+
  "/download-video/" +:+ Path.basename outputPath.

(** The object returned at the end of the [try] block. *)
Definition success_result (convertedFileSize : N) : Json :=
  JObj [ ("originalName", JStr (originalname file));
         ("newName", JStr (Path.basename outputPath));
         ("mimeType", JStr targetMimeType);
         ("downloadUrl", JStr downloadUrl);
         ("size", JNum convertedFileSize) ].

(** The object returned by the [catch] block; [message] is [error.message]. *)
Definition failure_result (message : string) : Json :=
  JObj [ ("originalName", JStr (originalname file));
         ("newName", JStr (originalname file +:+ ".error"));
         ("mimeType", JStr "application/octet-stream");
         ("downloadUrl", JStr "#");
         ("error", JStr ("Failed to convert: " +:+ Str.or_else message "Unknown error")) ].

(** The callback given to [files.map], lines 184-318. *)
Definition convert_one : M Json :=
  try_finally
    (try_catch
       (set_inputFilePath inputPath ;;
        set_outputFilePath outputPath ;;
        writeFile inputPath (buffer file) ;;
        run_ffmpeg ffmpegArgs ;;
        convertedFileSize ← stat_size outputPath ;
        ret (success_result convertedFileSize))
       (λ error, ret (failure_result error)))
    (l ← get_locals ;
     match inputFilePath l with
     | Some p =>
         if decide (p = "") then ret ()
         else try_catch (unlink p) (λ _, ret ())
     | None => ret ()
     end).

(** The promise of one unit of work: how the callback settles. *)
Definition unit_of_work : Prog (Exn + Json) :=
  pbind (convert_one {| inputFilePath := None; outputFilePath := None |})
        (λ '(_, r), Ret r).

End ConvertOne.

(* ===================================================================== *)
(** ** [Promise.all] over concurrent units of work *)
(* ===================================================================== *)

(** A batch in flight: the disk, the unit of work of every file in its
    current state, the bookkeeping of [Promise.all] (the array of values,
    the count of promises not yet fulfilled, the first rejection), and the
    operations performed so far, each with the index of its unit of work. *)
Record Sys := {
  sys_fs : FS;
  sys_tasks : list (Prog (Exn + Json));
  sys_values : list (option Json);
  sys_remaining : nat;
  sys_rejected : option Exn;
  sys_trace : list (nat * Obs);
}.

(** The reaction of [Promise.all] when promise [i] has become [p]. *)
Definition settle (i : nat) (p : Prog (Exn + Json)) (s : Sys) : Sys :=
  match p with
  | Ret (inr v) =>
      {| sys_fs := sys_fs s; sys_tasks := sys_tasks s;
         sys_values := <[i := Some v]> (sys_values s);
         sys_remaining := pred (sys_remaining s);
         sys_rejected := sys_rejected s; sys_trace := sys_trace s |}
  | Ret (inl e) =>
      {| sys_fs := sys_fs s; sys_tasks := sys_tasks s;
         sys_values := sys_values s; sys_remaining := sys_remaining s;
         sys_rejected := Some (default e (sys_rejected s));
         sys_trace := sys_trace s |}
  | _ => s
  end.

(** The event loop resumes unit of work [i]: the operation it awaits
    completes.  A settled unit and an index outside the batch change
    nothing. *)
Definition step (io : nat → Faults) (i : nat) (s : Sys) : Sys :=
  match sys_tasks s !! i with
  | Some p =>
      match resume (io i) p (sys_fs s) with
      | Some (ob, p', fs') =>
          settle i p'
            {| sys_fs := fs'; sys_tasks := <[i := p']> (sys_tasks s);
               sys_values := sys_values s; sys_remaining := sys_remaining s;
               sys_rejected := sys_rejected s;
               sys_trace := sys_trace s ++ [(i, ob)] |}
      | None => s
      end
  | None => s
  end.

(** A schedule is the order in which pending operations complete. *)
Definition run (io : nat → Faults) (sched : list nat) (s : Sys) : Sys :=
  foldl (λ s i, step io i s) s sched.

Definition start (tasks : list (Prog (Exn + Json))) (fs : FS) : Sys :=
  {| sys_fs := fs; sys_tasks := tasks;
     sys_values := replicate (length tasks) None;
     sys_remaining := length tasks;
     sys_rejected := None; sys_trace := [] |}.

(** The operations of unit of work [i] in a trace, in order. *)
Definition obs_of (i : nat) (trace : list (nat * Obs)) : list Obs :=
  omap (λ e, if decide (e.1 = i) then Some e.2 else None) trace.

(* ===================================================================== *)
(** ** [POST /convert-video]: the handler *)
(* ===================================================================== *)

(** What the environment holds for the [i]th file of a batch. *)
Record JobEnv := {
  job_id : Uuid;
  job_io : Faults;
}.

(** A handler's reply with the disk it leaves and the operations it ran. *)
Record Outcome := {
  reply : Reply;
  disk : FS;
  trace : list (nat * Obs);
}.

Definition bad_request (message : string) : Reply :=
  Responded 400 (JsonBody (JObj [("error", JStr message)])).

Definition conversion_reply (s : Sys) : Reply :=
  match sys_rejected s with
  | Some e => Uncaught e
  | None =>
      if decide (sys_remaining s = 0) then
        Responded 200 (JsonBody (JObj
          [ ("success", JBool true);
            ("message", JStr "Video conversion completed. Download links point to temporary server files.");
            ("convertedFiles", JArr (default JNull <$> sys_values s)) ]))
      else Pending
  end.

Definition batch_tasks (req : Request) (targetFormat targetMimeType : string)
    (env : nat → JobEnv) (files : list UploadedFile) : list (Prog (Exn + Json)) :=
  imap (λ i file, unit_of_work req targetFormat targetMimeType (job_id (env i)) file) files.

(** Lines 152-330.  [sched] is the order in which the environment completes
    the pending operations until the handler is observed. *)
Definition convert_video (req : Request) (env : nat → JobEnv) (sched : list nat)
    (fs : FS) : Outcome :=
  match req_files req with
  | None | Some [] =>
      {| reply := bad_request "No video files uploaded."; disk := fs; trace := [] |}
  | Some files =>
      match req_format req with
      | None =>
          (* [targetFormat.toLowerCase()] on [undefined] *)
          {| reply := Uncaught "TypeError: Cannot read properties of undefined (reading 'toLowerCase')";
             disk := fs; trace := [] |}
      | Some Compound =>
          (* an array or an object has no [toLowerCase] *)
          {| reply := Uncaught "TypeError: targetFormat.toLowerCase is not a function";
             disk := fs; trace := [] |}
      | Some (Text targetFormat) =>
          match allowedVideoFormats !! Str.toLowerCase targetFormat with
          | Some targetMimeType =>
              if decide (targetFormat = "" ∨ targetMimeType = "") then
                {| reply := bad_request "Invalid or missing target video format. Supported formats: mp4, webm.";
                   disk := fs; trace := [] |}
              else
                let s := run (λ i, job_io (env i)) sched
                           (start (batch_tasks req targetFormat targetMimeType env files) fs) in
                {| reply := conversion_reply s; disk := sys_fs s; trace := sys_trace s |}
          | None =>
              {| reply := bad_request "Invalid or missing target video format. Supported formats: mp4, webm.";
                 disk := fs; trace := [] |}
          end
      end
  end.

(** The guard of the sibling route [POST /convert], lines 76-100: [None]
    when the request goes on to the conversion.  A format that is no string
    is truthy, so [toLowerCase] is called on it and throws. *)
Definition convert_image_guard (req : Request) : option Reply :=
  match req_files req with
  | None | Some [] => Some (bad_request "No files uploaded.")
  | Some _ =>
      match req_format req with
      | None =>
          Some (bad_request "Invalid or missing target image format. Supported formats: png, jpeg, webp.")
      | Some Compound =>
          Some (Uncaught "TypeError: targetFormat.toLowerCase is not a function")
      | Some (Text targetFormat) =>
          if decide (targetFormat = "" ∨ allowedImageFormats !! Str.toLowerCase targetFormat = None)
          then Some (bad_request "Invalid or missing target image format. Supported formats: png, jpeg, webp.")
          else None
      end
  end.

(* ===================================================================== *)
(** ** [GET /download-video/:filename] *)
(* ===================================================================== *)

Definition download_headers (filename : string) : list (string * string) :=
  let ext := Str.toLowerCase (Path.extname filename) in
  let mimeType :=
    if decide (ext = ".mp4") then "video/mp4"
    else if decide (ext = ".webm") then "video/webm"
    else "application/octet-stream" in
  [ ("Content-Type", mimeType);
    ("Content-Disposition",
     "attachment; filename=" +:+ Str.dquote +:+ filename +:+ Str.dquote) ].

(** What [res.setHeader] accepts as a header value: tabs, the printable
    ASCII characters and the characters U+0080 to U+00FF, which UTF-8
    writes as the byte C2 or C3 and one continuation byte. *)
Fixpoint legal_header_value (s : string) : bool :=
  match s with
  | "" => true
  | String c rest =>
      let n := N_of_ascii c in
      if ((n =? 9) || ((32 <=? n) && (n <=? 126)))%N then legal_header_value rest
      else if ((n =? 194) || (n =? 195))%N then
        match rest with
        | String c' rest' =>
            let m := N_of_ascii c' in
            ((128 <=? m) && (m <=? 191))%N && legal_header_value rest'
        | "" => false
        end
      else false
  end.

(** No [res.setHeader] of the handler throws. *)
Definition headers_legal (headers : list (string * string)) : bool :=
  forallb (λ header, legal_header_value header.2) headers.

(** Lines 337-390.  A header value that [res.setHeader] refuses makes it
    throw inside the [try]: the [catch] answers as for a file that is not
    accessible. *)
Definition download_video (filename : string) : Prog Reply :=
  let filePath := Path.join "/tmp" filename in
  Access filePath (λ accessed,
    match accessed with
    | inl _ => Ret (Responded 404 (TextBody "File not found or not accessible."))
    | inr _ =>
        let headers := download_headers filename in
        if headers_legal headers then
          SendFile filePath (λ sent,
            match sent with
            | Sent data => Ret (Responded 200 (FileBody headers data))
            | SendFailed _ true => Ret (Truncated headers)
            | SendFailed _ false =>
                Ret (Responded 404 (TextBody
                  "File not found or no longer available. It might have been automatically cleaned up by the OS."))
            end)
        else Ret (Responded 404 (TextBody "File not found or not accessible."))
    end).

(** One request served alone. *)
Definition serve_download (filename : string) (io : Faults) (fs : FS) : Outcome :=
  let '(r, fs', obs) := exec io (download_video filename) fs in
  {| reply := r; disk := fs'; trace := (λ o, (0, o)) <$> obs |}.

(* ===================================================================== *)
(** ** [POST /convert] and the upload filter *)
(* ===================================================================== *)

(** [s.split(sep)] for a separator of one character. *)
Fixpoint split_char (sep : ascii) (s : string) : list string :=
  match s with
  | "" => [""]
  | String c s' =>
      if decide (c = sep) then "" :: split_char sep s'
      else match split_char sep s' with
           | piece :: rest => String c piece :: rest
           | [] => [String c ""]
           end
  end.

(** [s.startsWith(prefix)] *)
Fixpoint startsWith (s prefix : string) : bool :=
  match prefix, s with
  | "", _ => true
  | String p prefix', String c s' => bool_decide (c = p) && startsWith s' prefix'
  | String _ _, "" => false
  end.

(** The [fileFilter] of the multer instance, lines 41-51: the value handed to
    the callback, [true] to keep the file. *)
Definition fileFilter (file : UploadedFile) : bool :=
  if startsWith (mimetype file) "image/" || startsWith (mimetype file) "video/"
  then true
  else true.

(** [file.originalname.split(".").slice(0, -1).join(".")], lines 110-113. *)
Definition originalBaseName (file : UploadedFile) : string :=
  Str.join "." (removelast (split_char "." (originalname file))).

(** The digit of a six-bit value in the base64 alphabet. *)
Definition base64_digit (n : N) : ascii :=
  if (n <? 26)%N then ascii_of_N (65 + n)
  else if (n <? 52)%N then ascii_of_N (71 + n)
  else if (n <? 62)%N then ascii_of_N (n - 4)
  else if (n =? 62)%N then "+"%char
  else "/"%char.

(** [buffer.toString("base64")]: three bytes give four digits; one or two
    bytes left over give two or three digits and padding. *)
Fixpoint base64 (data : bytes) : string :=
  match data with
  | [] => ""
  | [a] =>
      let x := Byte.to_N a in
      String (base64_digit (x / 4))
        (String (base64_digit (x mod 4 * 16)) "==")
  | [a; b] =>
      let x := Byte.to_N a in
      let y := Byte.to_N b in
      String (base64_digit (x / 4))
        (String (base64_digit (x mod 4 * 16 + y / 16))
           (String (base64_digit (y mod 16 * 4)) "="))
  | a :: b :: c :: rest =>
      let x := Byte.to_N a in
      let y := Byte.to_N b in
      let z := Byte.to_N c in
      String (base64_digit (x / 4))
        (String (base64_digit (x mod 4 * 16 + y / 16))
           (String (base64_digit (y mod 16 * 4 + z / 64))
              (String (base64_digit (z mod 64)) (base64 rest))))
  end%N.

Section ConvertImage.

(** The image codec: [sharp(buffer).toFormat(format).toBuffer()] settles,
    with the converted bytes or with an error. *)
Variable sharp : bytes → string → Exn + bytes.

Variable targetFormat : string.

(** [${originalBaseName}.${targetFormat.toLowerCase()}], line 114. *)
Definition newFileName (file : UploadedFile) : string :=
  originalBaseName file +:+ "." +:+ Str.toLowerCase targetFormat.

(** The object returned at the end of the [try] block, lines 119-124.  A key
    whose value is [undefined] is left out of the reply. *)
Definition image_success (file : UploadedFile) (outputBuffer : bytes) : Json :=
  JObj ([ ("originalName", JStr (originalname file));
          ("newName", JStr (newFileName file)) ] ++
        match allowedImageFormats !! Str.toLowerCase targetFormat with
        | Some mimeType => [("mimeType", JStr mimeType)]
        | None => []
        end ++
        [ ("data", JStr (base64 outputBuffer)) ]).

(** The object returned by the [catch] block, lines 130-136. *)
Definition image_failure (file : UploadedFile) (message : string) : Json :=
  JObj [ ("originalName", JStr (originalname file));
         ("newName", JStr (originalname file +:+ ".error"));
         ("mimeType", JStr "application/octet-stream");
         ("data", JStr "");
         ("error", JStr ("Failed to convert: " +:+ Str.or_else message "Unknown error")) ].

(** The callback given to [files.map], lines 103-138.  It awaits the codec
    and nothing else, and shares no state with the other files. *)
Definition convert_image_one (file : UploadedFile) : Json :=
  match sharp (buffer file) (Str.toLowerCase targetFormat) with
  | inr outputBuffer => image_success file outputBuffer
  | inl message => image_failure file message
  end.

End ConvertImage.

(** Lines 72-145.  No callback rejects, so [Promise.all] fulfils with the
    objects in the order of the files.  A format that is no string is
    truthy, so the test of line 93 calls [toLowerCase] on it, which throws:
    the handler's promise rejects. *)
Definition convert_images (sharp : bytes → string → Exn + bytes) (req : Request)
  : Reply :=
  match req_files req with
  | None | Some [] => bad_request "No files uploaded."
  | Some files =>
      match req_format req with
      | None =>
          bad_request "Invalid or missing target image format. Supported formats: png, jpeg, webp."
      | Some Compound => Uncaught "TypeError: targetFormat.toLowerCase is not a function"
      | Some (Text targetFormat) =>
          if decide (targetFormat = "" ∨
                     allowedImageFormats !! Str.toLowerCase targetFormat = None)
          then bad_request "Invalid or missing target image format. Supported formats: png, jpeg, webp."
          else
            Responded 200 (JsonBody (JObj
              [ ("success", JBool true);
                ("convertedFiles",
                 JArr (convert_image_one sharp targetFormat <$> files)) ]))
      end
  end.

(* ===================================================================== *)
(** ** Vocabulary of the statements *)
(* ===================================================================== *)

(** The complete runs of one unit of work: the operations it performs, with
    their results, and the object it returns. *)
Inductive job_run (req : Request) (tf mime : string) (id : Uuid) (file : UploadedFile)
  : list Obs → Json → Prop :=
| job_write_failed e u :
    job_run req tf mime id file
      [ ObsWrite (inputPath id file) (buffer file) (inl e);
        ObsUnlink (inputPath id file) u ]
      (failure_result file e)
| job_encoder_failed outcome e u :
    ffmpeg_settlement outcome = inl e →
    job_run req tf mime id file
      [ ObsWrite (inputPath id file) (buffer file) (inr ());
        ObsSpawn "ffmpeg" (ffmpegArgs tf id file) outcome;
        ObsUnlink (inputPath id file) u ]
      (failure_result file e)
| job_stat_failed outcome e u :
    ffmpeg_settlement outcome = inr () →
    job_run req tf mime id file
      [ ObsWrite (inputPath id file) (buffer file) (inr ());
        ObsSpawn "ffmpeg" (ffmpegArgs tf id file) outcome;
        ObsStat (outputPath tf id) (inl e);
        ObsUnlink (inputPath id file) u ]
      (failure_result file e)
| job_converted outcome size u :
    ffmpeg_settlement outcome = inr () →
    job_run req tf mime id file
      [ ObsWrite (inputPath id file) (buffer file) (inr ());
        ObsSpawn "ffmpeg" (ffmpegArgs tf id file) outcome;
        ObsStat (outputPath tf id) (inr size);
        ObsUnlink (inputPath id file) u ]
      (success_result req tf mime id file size).

(** The operations a unit of work may perform at all. *)
Definition job_op (tf : string) (id : Uuid) (file : UploadedFile) (ob : Obs) : Prop :=
  match ob with
  | ObsWrite path data _ => path = inputPath id file ∧ data = buffer file
  | ObsSpawn cmd args _ => cmd = "ffmpeg" ∧ args = ffmpegArgs tf id file
  | ObsStat path _ => path = outputPath tf id
  | ObsUnlink path _ => path = inputPath id file
  | ObsAccess _ _ | ObsSend _ _ => False
  end.

(** The value a promise has been fulfilled with. *)
Definition value_of (p : Prog (Exn + Json)) : option Json :=
  match p with
  | Ret (inr v) => Some v
  | _ => None
  end.

Definition settled {A} (p : Prog A) : Prop := ∃ a, p = Ret a.

(** The number of promises not fulfilled. *)
Fixpoint unfulfilled (tasks : list (Prog (Exn + Json))) : nat :=
  match tasks with
  | [] => 0
  | p :: rest => (match value_of p with Some _ => 0 | None => 1 end) + unfulfilled rest
  end.

(** How often a schedule resumes unit of work [i]. *)
Definition occurrences (i : nat) (sched : list nat) : nat :=
  length (filter (λ j, j = i) sched).

(** A schedule that lets each of [n] units of work finish: none awaits more
    than four operations. *)
Definition fair (n : nat) (sched : list nat) : Prop :=
  ∀ i, i < n → 4 ≤ occurrences i sched.

(** The request passes the checks of lines 156-181. *)
Definition accepted (req : Request) (files : list UploadedFile) (tf mime : string) : Prop :=
  req_files req = Some files ∧ files ≠ [] ∧ req_format req = Some (Text tf) ∧
  allowedVideoFormats !! Str.toLowerCase tf = Some mime.

(** The paths a list of operations has unlinked, in order. *)
Definition unlinks (obs : list Obs) : list string :=
  omap (λ ob, match ob with ObsUnlink path _ => Some path | _ => None end) obs.

(** An operation that can change the disk. *)
Definition is_mutation (ob : Obs) : bool :=
  match ob with ObsWrite _ _ _ | ObsUnlink _ _ | ObsSpawn _ _ _ => true | _ => false end.

(** A regular file sits at [path]. *)
Definition file_at (fs : FS) (path : string) : Prop :=
  ∃ data, fs !! path = Some (File data).

(** What holds of a batch in flight whatever the schedule: every unit of
    work is where its own operations have taken it, and the bookkeeping of
    [Promise.all] mirrors the units of work. *)
Record batch_inv (tasks0 : list (Prog (Exn + Json))) (s : Sys) : Prop := {
  inv_tasks : ∀ i p0, tasks0 !! i = Some p0 →
    ∃ p, sys_tasks s !! i = Some p ∧ runs p0 (obs_of i (sys_trace s)) p;
  inv_length : length (sys_tasks s) = length tasks0;
  inv_values : sys_values s = value_of <$> sys_tasks s;
  inv_remaining : sys_remaining s = unfulfilled (sys_tasks s);
  inv_rejected : ∀ e, sys_rejected s = Some e →
    ∃ i e', sys_tasks s !! i = Some (Ret (inl e'));
  inv_trace : ∀ i ob, (i, ob) ∈ sys_trace s → i < length tasks0;
}.

(** Whoever finds a file at the input path of a unit of work finds a unit
    of work with that input path which has yet to settle. *)
Definition inputs_owned (env : nat → JobEnv) (files : list UploadedFile) (s : Sys) : Prop :=
  ∀ i file, files !! i = Some file →
    file_at (sys_fs s) (inputPath (job_id (env i)) file) →
    ∃ j file' p, files !! j = Some file' ∧
      inputPath (job_id (env j)) file' = inputPath (job_id (env i)) file ∧
      sys_tasks s !! j = Some p ∧ ¬ settled p.

(** The two shapes of a conversion result. *)
Definition success_shape (mime : string) (size : N) (r : Json) : Prop :=
  ∃ originalName newName url,
    r = JObj [ ("originalName", JStr originalName); ("newName", JStr newName);
               ("mimeType", JStr mime); ("downloadUrl", JStr url);
               ("size", JNum size) ].

Definition failure_shape (r : Json) : Prop :=
  ∃ originalName newName message,
    r = JObj [ ("originalName", JStr originalName); ("newName", JStr newName);
               ("mimeType", JStr "application/octet-stream");
               ("downloadUrl", JStr "#"); ("error", JStr message) ].

(** The body of a [200] reply of the conversion route. *)
Definition conversion_body (results : list Json) : Body :=
  JsonBody (JObj
    [ ("success", JBool true);
      ("message", JStr "Video conversion completed. Download links point to temporary server files.");
      ("convertedFiles", JArr results) ]).

(** No byte of the string is a dot. *)
Fixpoint dot_free (s : string) : Prop :=
  match s with
  | "" => True
  | String c s' => c ≠ "."%char ∧ dot_free s'
  end.

(** The place of an operation in a unit of work. *)
Definition op_rank (ob : Obs) : nat :=
  match ob with
  | ObsWrite _ _ _ => 0
  | ObsSpawn _ _ _ => 1
  | ObsStat _ _ => 2
  | ObsUnlink _ _ => 3
  | ObsAccess _ _ | ObsSend _ _ => 4
  end.

(** Each operation comes before those of higher rank only. *)
Fixpoint ranked (obs : list Obs) : Prop :=
  match obs with
  | [] => True
  | ob :: rest => Forall (λ later, op_rank ob < op_rank later) rest ∧ ranked rest
  end.

(** What a unit of work must have done before an operation: nothing before
    the write; before the encoder starts, the write and its success; before
    the [stat], also the encoder and the fulfilment of its promise. *)
Definition preceded (before : list Obs) (ob : Obs) : Prop :=
  match ob with
  | ObsWrite _ _ _ => before = []
  | ObsSpawn _ _ _ => ∃ path data, before = [ObsWrite path data (inr ())]
  | ObsStat _ _ =>
      ∃ path data cmd args outcome,
        before = [ObsWrite path data (inr ()); ObsSpawn cmd args outcome] ∧
        ffmpeg_settlement outcome = inr ()
  | _ => True
  end.

Definition caused (obs : list Obs) : Prop :=
  ∀ before ob, obs = before ++ [ob] → preceded before ob.

(** The disk node an operation can change. *)
Definition touches (ob : Obs) (path : string) : Prop :=
  match ob with
  | ObsWrite written _ _ => written = path
  | ObsUnlink removed _ => removed = path
  | ObsSpawn _ args _ => last args = Some path
  | ObsStat _ _ | ObsAccess _ _ | ObsSend _ _ => False
  end.

(** The encoders a list of operations has started, in order. *)
Definition spawns (obs : list Obs) : list (string * list string) :=
  omap (λ ob, match ob with ObsSpawn cmd args _ => Some (cmd, args) | _ => None end) obs.

(** The path whose node decides what the operation a program awaits does. *)
Definition awaited_path {A} (p : Prog A) : option string :=
  match p with
  | Ret _ => None
  | WriteFile path _ _ | Stat path _ | Unlink path _ | Access path _
  | SendFile path _ => Some path
  | Spawn _ args _ => last args
  end.

(** [solo io p fs obs p' fs']: resumed again and again on a disk of its own,
    starting from [fs], the program [p] performs [obs] and becomes [p'],
    leaving the disk [fs']. *)
Inductive solo {A} (io : Faults) : Prog A → FS → list Obs → Prog A → FS → Prop :=
| solo_here p fs : solo io p fs [] p fs
| solo_step p fs ob p1 fs1 obs p' fs' :
    resume io p fs = Some (ob, p1, fs1) → solo io p1 fs1 obs p' fs' →
    solo io p fs (ob :: obs) p' fs'.

(** Every byte of the string is a printable ASCII character. *)
Fixpoint printable (s : string) : Prop :=
  match s with
  | "" => True
  | String c s' => (32 ≤ N_of_ascii c ≤ 126)%N ∧ printable s'
  end.

(** The identifiers of a batch of [n] files print differently. *)
Definition distinct_ids (env : nat → JobEnv) (n : nat) : Prop :=
  ∀ i j, i < n → j < n →
    uuid_string (job_id (env i)) = uuid_string (job_id (env j)) → i = j.

(** Two uploads that differ in their declared MIME type at most. *)
Definition same_content (file file' : UploadedFile) : Prop :=
  originalname file' = originalname file ∧ buffer file' = buffer file.

(* ===================================================================== *)
(** ** Concrete scenarios *)
(* ===================================================================== *)

Definition sample_id (n : N) : Uuid :=
  {| time_low := 0x1b9d6bcd + n; time_mid := 0xbbfd;
     time_hi_and_version := 0x4b2d; clock_seq := 0x9b5d;
     node := 0xab8dfbbd4bed |}.

Definition clip_a : UploadedFile :=
  {| originalname := "holiday.mov"; mimetype := "video/quicktime";
     buffer := [Byte.x00; Byte.x01; Byte.x02] |}.

Definition clip_b : UploadedFile :=
  {| originalname := "talk.avi"; mimetype := "video/x-msvideo";
     buffer := [Byte.x52; Byte.x49] |}.

Definition sample_request (format : option string) : Request :=
  {| req_files := Some [clip_a; clip_b]; req_format := Text <$> format;
     req_protocol := "http"; req_host := Some "localhost:3001" |}.

(** The encoder succeeds and leaves two bytes. *)
Definition io_converts : Faults :=
  {| write_fault := None; proc := Ran ["frame=1 "; "done"] (Closed (Some 0%Z));
     encoded := Some [Byte.x1a; Byte.x45]; unlink_fault := None;
     interrupted := None; hides_dot_directories := false |}.

(** The encoder exits with code 1. *)
Definition io_encoder_fails : Faults :=
  {| write_fault := None; proc := Ran ["Invalid data found"] (Closed (Some 1%Z));
     encoded := None; unlink_fault := None; interrupted := None;
     hides_dot_directories := true |}.

(** The encoder exits with code 0 and leaves nothing. *)
Definition io_no_output : Faults :=
  {| write_fault := None; proc := Ran [] (Closed (Some 0%Z));
     encoded := None; unlink_fault := None; interrupted := None;
     hides_dot_directories := true |}.

(** The scenario of two files: the first converts, the encoder fails on
    the second. *)
Definition sample_env (i : nat) : JobEnv :=
  {| job_id := sample_id (N.of_nat i);
     job_io := match i with 0 => io_converts | _ => io_encoder_fails end |}.

(** The second unit of work finishes first. *)
Definition sample_schedule : list nat := [1; 0; 1; 1; 0; 0; 1; 0].

Definition sample_disk : FS := {[ "/tmp/abc_output.mp4" := File [Byte.x1a; Byte.x45] ]}.

(** A dot file sits in the scratch root. *)
Definition hidden_disk : FS := {[ "/tmp/.hidden.mp4" := File [Byte.x1a; Byte.x45] ]}.

(** A disk with nothing under the scratch root. *)
Definition outside_disk : FS :=
  {[ "/etc/passwd" := File [Byte.x72; Byte.x6f; Byte.x6f; Byte.x74] ]}.

(** The encoder converts, and the removal of the input is failed. *)
Definition io_unlink_fails : Faults :=
  {| write_fault := None; proc := Ran ["frame=1 "; "done"] (Closed (Some 0%Z));
     encoded := Some [Byte.x1a; Byte.x45];
     unlink_fault := Some "EPERM: operation not permitted, unlink";
     interrupted := None; hides_dot_directories := false |}.

(** No input can be removed. *)
Definition locked_env (i : nat) : JobEnv :=
  {| job_id := sample_id (N.of_nat i); job_io := io_unlink_fails |}.

(** Every encoder exits with code 0 and leaves nothing. *)
Definition silent_env (i : nat) : JobEnv :=
  {| job_id := sample_id (N.of_nat i); job_io := io_no_output |}.

(** An image codec for the scenarios: it rejects an empty buffer and keeps
    any other as it is. *)
Definition sample_sharp (input : bytes) (format : string) : Exn + bytes :=
  match input with
  | [] => inl "Input buffer is empty"
  | _ => inr input
  end.

Definition empty_image : UploadedFile :=
  {| originalname := "blank.png"; mimetype := "image/png"; buffer := [] |}.

Definition image_request (format : option string) : Request :=
  {| req_files := Some [clip_a; empty_image]; req_format := Text <$> format;
     req_protocol := "http"; req_host := Some "localhost:3001" |}.

(** The field [format] was sent twice. *)
Definition repeated_format_request : Request :=
  {| req_files := Some [clip_a; empty_image]; req_format := Some Compound;
     req_protocol := "http"; req_host := Some "localhost:3001" |}.

(** Every encoder converts. *)
Definition converting_env (i : nat) : JobEnv :=
  {| job_id := sample_id (N.of_nat i); job_io := io_converts |}.

(* ===================================================================== *)
(** ** The model at work *)
(* ===================================================================== *)

Example join_keeps_a_plain_name :
  Path.join "/tmp" "abc_output.mp4" = "/tmp/abc_output.mp4".
Proof. reflexivity. Qed.

Example join_follows_dot_dot : Path.join "/tmp" "../etc/passwd" = "/etc/passwd".
Proof. reflexivity. Qed.

Example join_of_dot : Path.join "/tmp" "." = "/tmp".
Proof. reflexivity. Qed.

Example extname_of_upload : Path.extname "holiday.clip.MOV" = ".MOV".
Proof. reflexivity. Qed.

Example extname_of_hidden_file : Path.extname ".bashrc" = "".
Proof. reflexivity. Qed.

Example extname_ignores_directories : Path.extname "a.b/c" = "".
Proof. reflexivity. Qed.

Example basename_of_output : Path.basename "/tmp/u_output.webm" = "u_output.webm".
Proof. reflexivity. Qed.

Example toLowerCase_of_mixed_case : Str.toLowerCase "WebM" = "webm".
Proof. reflexivity. Qed.

Example uuid_string_of_sample :
  uuid_string (sample_id 0) = "1b9d6bcd-bbfd-4b2d-9b5d-ab8dfbbd4bed".
Proof. reflexivity. Qed.

(** The scenario of the specification: two files, target [webm]; the first
    converts, the encoder fails on the second, and the second finishes
    first. *)
Example two_files_one_failure :
  let o := convert_video (sample_request (Some "webm")) sample_env sample_schedule ∅ in
  reply o = Responded 200 (conversion_body
    [ JObj [ ("originalName", JStr "holiday.mov");
             ("newName", JStr "1b9d6bcd-bbfd-4b2d-9b5d-ab8dfbbd4bed_output.webm");
             ("mimeType", JStr "video/webm");
             ("downloadUrl",
              JStr "http://localhost:3001/download-video/1b9d6bcd-bbfd-4b2d-9b5d-ab8dfbbd4bed_output.webm");
             ("size", JNum 2) ];
      JObj [ ("originalName", JStr "talk.avi");
             ("newName", JStr "talk.avi.error");
             ("mimeType", JStr "application/octet-stream");
             ("downloadUrl", JStr "#");
             ("error",
              JStr "Failed to convert: FFmpeg conversion failed: Invalid data found") ] ]) ∧
  map_to_list (disk o)
    = [ ("/tmp/1b9d6bcd-bbfd-4b2d-9b5d-ab8dfbbd4bed_output.webm",
         File [Byte.x1a; Byte.x45]) ] ∧
  fst <$> trace o = [1; 0; 1; 1; 0; 0; 0].
Proof. vm_compute. repeat split. Qed.

(** An encoder that exits with code 0 and leaves nothing: the [stat] fails
    and the file is reported as failed. *)
Example exit_zero_without_output :
  obs_of 0 (trace (convert_video (sample_request (Some "mp4")) silent_env [0; 0; 0; 0] ∅))
    = [ ObsWrite "/tmp/1b9d6bcd-bbfd-4b2d-9b5d-ab8dfbbd4bed_input.mov"
          [Byte.x00; Byte.x01; Byte.x02] (inr ());
        ObsSpawn "ffmpeg"
          [ "-i"; "/tmp/1b9d6bcd-bbfd-4b2d-9b5d-ab8dfbbd4bed_input.mov";
            "-c:v"; "libx264"; "-preset"; "veryfast"; "-crf"; "28";
            "-threads"; "0"; "-y";
            "/tmp/1b9d6bcd-bbfd-4b2d-9b5d-ab8dfbbd4bed_output.mp4" ]
          (Ran [] (Closed (Some 0%Z)));
        ObsStat "/tmp/1b9d6bcd-bbfd-4b2d-9b5d-ab8dfbbd4bed_output.mp4"
          (inl "ENOENT: no such file or directory, stat '/tmp/1b9d6bcd-bbfd-4b2d-9b5d-ab8dfbbd4bed_output.mp4'");
        ObsUnlink "/tmp/1b9d6bcd-bbfd-4b2d-9b5d-ab8dfbbd4bed_input.mov" (inr ()) ].
Proof. vm_compute. reflexivity. Qed.

Example download_of_a_directory :
  reply (serve_download "." io_converts {[ "/tmp" := Dir 4096 ]})
    = Responded 404 (TextBody
        "File not found or no longer available. It might have been automatically cleaned up by the OS.").
Proof. vm_compute. reflexivity. Qed.

Example download_of_a_dot_file :
  reply (serve_download ".hidden.mp4" io_converts hidden_disk)
    = Responded 404 (TextBody
        "File not found or no longer available. It might have been automatically cleaned up by the OS.").
Proof. vm_compute. reflexivity. Qed.

Example dot_directory_is_served_by_some_versions :
  send_file io_converts "/tmp/.cache/a.mp4" {[ "/tmp/.cache/a.mp4" := File [Byte.x1a] ]}
    = Sent [Byte.x1a] ∧
  send_file io_no_output "/tmp/.cache/a.mp4" {[ "/tmp/.cache/a.mp4" := File [Byte.x1a] ]}
    = SendFailed "Not Found" false.
Proof. split; vm_compute; reflexivity. Qed.

Example header_with_latin_letter_is_legal :
  legal_header_value ("caf" +:+ String (ascii_of_N 195) (String (ascii_of_N 169) ""))
    = true.
Proof. reflexivity. Qed.

Example header_above_latin_is_refused :
  legal_header_value (String (ascii_of_N 196) (String (ascii_of_N 128) "")) = false.
Proof. reflexivity. Qed.

Example header_with_line_feed_is_refused :
  legal_header_value ("a" +:+ String (ascii_of_N 10) "b") = false.
Proof. reflexivity. Qed.

Example download_under_an_illegal_name :
  reply (serve_download (String (ascii_of_N 196) (String (ascii_of_N 128) ".mp4"))
           io_converts
           {[ "/tmp/" +:+ String (ascii_of_N 196) (String (ascii_of_N 128) ".mp4")
                := File [Byte.x1a] ]})
    = Responded 404 (TextBody "File not found or not accessible.").
Proof. vm_compute. reflexivity. Qed.

Example repeated_format_is_not_rejected :
  reply (convert_video repeated_format_request sample_env sample_schedule ∅)
    = Uncaught "TypeError: targetFormat.toLowerCase is not a function".
Proof. reflexivity. Qed.

Example base_name_of_archive :
  originalBaseName {| originalname := "archive.tar.gz"; mimetype := ""; buffer := [] |}
  = "archive.tar".
Proof. reflexivity. Qed.

Example base_name_without_dot :
  originalBaseName {| originalname := "photo"; mimetype := ""; buffer := [] |} = "".
Proof. reflexivity. Qed.

Example base64_of_three_bytes : base64 [Byte.x4d; Byte.x61; Byte.x6e] = "TWFu".
Proof. reflexivity. Qed.

Example base64_of_two_bytes : base64 [Byte.x4d; Byte.x61] = "TWE=".
Proof. reflexivity. Qed.

Example base64_of_one_byte : base64 [Byte.xfb] = "+w==".
Proof. reflexivity. Qed.

Example base64_of_high_bytes : base64 [Byte.xff; Byte.xff; Byte.xff; Byte.x00] = "////AA==".
Proof. reflexivity. Qed.

Example filter_keeps_a_text_file :
  fileFilter {| originalname := "notes.txt"; mimetype := "text/plain"; buffer := [] |}
  = true.
Proof. reflexivity. Qed.

(* ===================================================================== *)
(** ** Facts about strings, paths and identifiers *)
(* ===================================================================== *)

Module StrFacts.

Lemma app_nil_l (s : string) : "" +:+ s = s.
Proof. reflexivity. Qed.

Lemma app_cons (c : ascii) (s t : string) :
  String c s +:+ t = String c (s +:+ t).
Proof. reflexivity. Qed.

Lemma app_assoc (s t u : string) : (s +:+ t) +:+ u = s +:+ (t +:+ u).
Proof. induction s as [|c s IH]; [done|]. by rewrite !app_cons, IH. Qed.

Lemma length_app (s t : string) :
  String.length (s +:+ t) = String.length s + String.length t.
Proof.
  induction s as [|c s IH]; [done|].
  rewrite app_cons. simpl. by rewrite IH.
Qed.

(** Two concatenations with left parts of equal length agree part by part. *)
Lemma app_inj_length (s s' t t' : string) :
  String.length s = String.length s' →
  s +:+ t = s' +:+ t' → s = s' ∧ t = t'.
Proof.
  revert s'. induction s as [|c s IH]; intros [|c' s'] Hlen Heq;
    try discriminate Hlen.
  - by rewrite !app_nil_l in Heq.
  - rewrite !app_cons in Heq. injection Heq as -> Heq.
    injection Hlen as Hlen.
    destruct (IH s' Hlen Heq) as [-> ->]; auto.
Qed.

Lemma slash_free_app (s t : string) :
  Str.slash_free (s +:+ t) ↔ Str.slash_free s ∧ Str.slash_free t.
Proof.
  induction s as [|c s IH]; [simpl; tauto|].
  rewrite app_cons. simpl. tauto.
Qed.


Lemma ends_with_refl (s : string) : Str.ends_with s s.
Proof. by exists "". Qed.

Lemma long_name (s : string) :
  2 < String.length s → s ≠ "" ∧ s ≠ "." ∧ s ≠ "..".
Proof. intros Hlen. repeat split; intros ->; simpl in Hlen; lia. Qed.

End StrFacts.

Module PathFacts.
Import StrFacts.

Lemma segments_slash_free (s : string) :
  Str.slash_free s → Path.segments s = [s].
Proof.
  induction s as [|c s IH]; [done|]. intros [Hc Hs]. simpl.
  rewrite decide_False by done. by rewrite IH.
Qed.

Lemma segments_all_slash_free (p : string) :
  Forall Str.slash_free (Path.segments p).
Proof.
  induction p as [|c p IH]; simpl.
  - by repeat constructor.
  - destruct (decide (c = "/"%char)) as [->|Hc].
    + by constructor.
    + destruct (Path.segments p) as [|seg rest].
      * by repeat constructor.
      * inversion IH; subst. constructor; [simpl; by split|done].
Qed.

Lemma ends_with_slash_free (s : string) :
  Str.slash_free s → Path.ends_with_slash s = false.
Proof.
  induction s as [|c s IH]; [done|]. intros [Hc Hs].
  destruct s as [|c' s']; simpl.
  - by rewrite bool_decide_eq_false.
  - by apply IH.
Qed.

Lemma ends_with_slash_cons (c : ascii) (s : string) :
  s ≠ "" → Path.ends_with_slash (String c s) = Path.ends_with_slash s.
Proof. by destruct s. Qed.

(** Under the scratch root a plain file name is kept as it is. *)
Lemma join_tmp (name : string) :
  Str.slash_free name → name ≠ "" → name ≠ "." → name ≠ ".." →
  Path.join "/tmp" name = "/tmp/" +:+ name.
Proof.
  intros Hfree Hne Hdot Hdots.
  unfold Path.join. rewrite decide_False by done. rewrite decide_False by done.
  change ("/tmp" +:+ "/" +:+ name) with ("/tmp/" +:+ name).
  unfold Path.normalize. rewrite decide_False by done.
  change (Path.starts_with_slash ("/tmp/" +:+ name)) with true.
  assert (Path.ends_with_slash ("/tmp/" +:+ name) = false) as ->.
  { change ("/tmp/" +:+ name)
      with (String "/" (String "t" (String "m" (String "p" (String "/" name))))).
    rewrite !ends_with_slash_cons by (by destruct name).
    by apply ends_with_slash_free. }
  assert (Path.segments ("/tmp/" +:+ name) = [""; "tmp"; name]) as Hseg.
  { change ("/tmp/" +:+ name)
      with (String "/" (String "t" (String "m" (String "p" (String "/" name))))).
    simpl. by rewrite (segments_slash_free name Hfree). }
  assert (Path.normalizeString ("/tmp/" +:+ name) false = "tmp/" +:+ name) as Hnorm.
  { unfold Path.normalizeString. rewrite Hseg.
    change (foldl (Path.norm_step false) [] [""; "tmp"; name])
      with (Path.norm_step false ["tmp"] name).
    unfold Path.norm_step.
    rewrite decide_False by (intros [?|?]; done).
    by rewrite decide_False by done. }
  change (negb true) with false. rewrite Hnorm.
  rewrite decide_False by done. reflexivity.
Qed.

Lemma basename_tmp (name : string) :
  Str.slash_free name → name ≠ "" →
  Path.basename ("/tmp/" +:+ name) = name.
Proof.
  intros Hfree Hne. unfold Path.basename.
  assert (Path.segments ("/tmp/" +:+ name) = [""; "tmp"; name]) as ->.
  { change ("/tmp/" +:+ name)
      with (String "/" (String "t" (String "m" (String "p" (String "/" name))))).
    simpl. by rewrite (segments_slash_free name Hfree). }
  rewrite filter_cons_False by (intros H; by apply H).
  rewrite filter_cons_True by done.
  rewrite filter_cons_True by done.
  reflexivity.
Qed.

Lemma basename_slash_free (p : string) : Str.slash_free (Path.basename p).
Proof.
  unfold Path.basename.
  destruct (last _) as [seg|] eqn:Hlast; [|done]. simpl.
  apply last_Some_elem_of, list_elem_of_filter in Hlast as [_ Hin].
  pose proof (segments_all_slash_free p) as Hall.
  rewrite Forall_forall in Hall. by apply Hall.
Qed.

Lemma last_dot_split (s pre ext : string) :
  Path.last_dot s = Some (pre, ext) → s = pre +:+ ext.
Proof.
  revert pre ext. induction s as [|c s IH]; intros pre ext; [done|]. simpl.
  destruct (Path.last_dot s) as [[pre' ext']|].
  - intros [= <- <-]. rewrite app_cons. f_equal. by apply IH.
  - destruct (decide (c = "."%char)); [|done]. by intros [= <- <-].
Qed.

Lemma extname_slash_free (p : string) : Str.slash_free (Path.extname p).
Proof.
  unfold Path.extname.
  destruct (Path.last_dot (Path.basename p)) as [[pre ext]|] eqn:Hdot; [|done].
  repeat case_decide; try done.
  pose proof (basename_slash_free p) as Hb.
  rewrite (last_dot_split _ _ _ Hdot) in Hb.
  by apply slash_free_app in Hb as [_ ?].
Qed.

End PathFacts.

Module UuidFacts.
Import StrFacts.

Lemma hex_digit_not_slash (n : N) : hex_digit n ≠ "/"%char.
Proof. unfold hex_digit. repeat case_match; done. Qed.

Lemma hex_acc_length (k : nat) (n : N) (acc : string) :
  String.length (hex_acc k n acc) = k + String.length acc.
Proof.
  revert n acc. induction k as [|k IH]; intros n acc; [done|].
  simpl. rewrite IH. simpl. lia.
Qed.

Lemma hex_acc_slash_free (k : nat) (n : N) (acc : string) :
  Str.slash_free acc → Str.slash_free (hex_acc k n acc).
Proof.
  revert n acc. induction k as [|k IH]; intros n acc Hacc; [done|].
  simpl. apply IH. split; [apply hex_digit_not_slash|done].
Qed.

Lemma hex_length (k : nat) (n : N) : String.length (hex k n) = k.
Proof. unfold hex. rewrite hex_acc_length. simpl. lia. Qed.

Lemma hex_slash_free (k : nat) (n : N) : Str.slash_free (hex k n).
Proof. by apply hex_acc_slash_free. Qed.

(** Every identifier prints as 36 characters. *)
Lemma uuid_string_length (u : Uuid) : String.length (uuid_string u) = 36.
Proof. unfold uuid_string. rewrite !length_app, !hex_length. reflexivity. Qed.

Lemma uuid_string_slash_free (u : Uuid) : Str.slash_free (uuid_string u).
Proof.
  unfold uuid_string. rewrite !slash_free_app.
  repeat split; first [apply hex_digit_not_slash | done].
Qed.

End UuidFacts.

(* ===================================================================== *)
(** ** Facts about one unit of work *)
(* ===================================================================== *)

Lemma allowed_video (k v : string) :
  allowedVideoFormats !! k = Some v →
  (k = "mp4" ∧ v = "video/mp4") ∨ (k = "webm" ∧ v = "video/webm").
Proof.
  unfold allowedVideoFormats. simpl.
  rewrite lookup_insert. case_decide as H1; [intros [= <-]; auto|].
  rewrite lookup_insert. case_decide as H2; [intros [= <-]; auto|].
  by rewrite lookup_empty.
Qed.

Module JobFacts.
Import StrFacts PathFacts UuidFacts.

Section Job.

Variables (req : Request) (tf mime : string) (id : Uuid) (file : UploadedFile).

Lemma inputFileName_slash_free : Str.slash_free (inputFileName id file).
Proof.
  unfold inputFileName. rewrite !slash_free_app.
  split; [apply uuid_string_slash_free|].
  split; [by simpl|apply extname_slash_free].
Qed.

Lemma inputFileName_long : 2 < String.length (inputFileName id file).
Proof. unfold inputFileName. rewrite !length_app, uuid_string_length. lia. Qed.

Lemma inputPath_eq : inputPath id file = "/tmp/" +:+ inputFileName id file.
Proof.
  destruct (long_name _ inputFileName_long) as (? & ? & ?).
  by apply join_tmp; [apply inputFileName_slash_free|..].
Qed.

(** The guard [if (inputFilePath)] of the [finally] block always passes. *)
Lemma inputPath_truthy : inputPath id file ≠ "".
Proof. by rewrite inputPath_eq. Qed.

Lemma outputFileName_long : 2 < String.length (outputFileName tf id).
Proof. unfold outputFileName. rewrite !length_app, uuid_string_length. lia. Qed.

Lemma outputPath_eq :
  Str.slash_free (Str.toLowerCase tf) →
  outputPath tf id = "/tmp/" +:+ outputFileName tf id.
Proof.
  intros Hfree. destruct (long_name _ outputFileName_long) as (? & ? & ?).
  apply join_tmp; try done.
  unfold outputFileName. rewrite !slash_free_app.
  split; [apply uuid_string_slash_free|]. by split.
Qed.

Lemma outputPath_basename :
  Str.slash_free (Str.toLowerCase tf) →
  Path.basename (outputPath tf id) = outputFileName tf id.
Proof.
  intros Hfree. rewrite outputPath_eq by done.
  destruct (long_name _ outputFileName_long) as (? & ? & ?).
  apply basename_tmp; [|done].
  unfold outputFileName. rewrite !slash_free_app.
  split; [apply uuid_string_slash_free|]. by split.
Qed.

Lemma outputPath_extension :
  Str.slash_free (Str.toLowerCase tf) →
  Str.ends_with (outputPath tf id) ("." +:+ Str.toLowerCase tf).
Proof.
  intros Hfree. rewrite outputPath_eq by done. unfold outputFileName.
  exists ("/tmp/" +:+ uuid_string id +:+ "_output").
  by rewrite !app_assoc.
Qed.

Local Opaque inputPath outputPath ffmpegArgs success_result failure_result
  ffmpeg_settlement.

Ltac unfold_m :=
  unfold unit_of_work, convert_one, try_finally, try_catch, mbind, M_bind, bind,
    set_inputFilePath, set_outputFilePath, writeFile, run_ffmpeg, stat_size,
    unlink, ret, get_locals in *.

Ltac reduce_prog :=
  cbn; rewrite ?(decide_False _ _ inputPath_truthy); cbn.

Ltac reduce_in H :=
  cbn in H; rewrite ?(decide_False _ _ inputPath_truthy) in H; cbn in H.

Ltac run_step :=
  match goal with
  | H : runs _ _ _ |- _ => reduce_in H; inversion H; subst; clear H
  end.

Ltac split_result :=
  match goal with
  | H : runs ?p _ _ |- _ =>
      match p with
      | context [match ffmpeg_settlement ?o with _ => _ end] =>
          let E := fresh "Hsettle" in
          destruct (ffmpeg_settlement o) as [?|[]] eqn:E
      | context [match ?r with inl _ => _ | inr _ => _ end] =>
          is_var r; destruct r as [?|?]
      end
  end.

Ltac close_run :=
  eexists; (split; [done|]);
  repeat match goal with u : () |- _ => destruct u end;
  by econstructor.

(** A unit of work awaits at most four operations. *)
Lemma unit_settles : settles_within 4 (unit_of_work req tf mime id file).
Proof.
  unfold_m. reduce_prog.
  apply sw_write. intros [e|[]]; reduce_prog.
  { apply sw_unlink. intros [?|[]]; reduce_prog; apply sw_ret. }
  apply sw_spawn. intros outcome.
  destruct (ffmpeg_settlement outcome) as [e|[]]; reduce_prog.
  { apply sw_unlink. intros [?|[]]; reduce_prog; apply sw_ret. }
  apply sw_stat. intros [e|size]; reduce_prog.
  all: apply sw_unlink; intros [?|[]]; reduce_prog; apply sw_ret.
Qed.

Lemma unit_pending : value_of (unit_of_work req tf mime id file) = None.
Proof. unfold_m. by reduce_prog. Qed.

(** A unit of work never rejects: it fulfils its promise, and what it has
    done by then is one of the four complete runs. *)
Lemma unit_runs_complete obs out :
  runs (unit_of_work req tf mime id file) obs (Ret out) →
  ∃ v, out = inr v ∧ job_run req tf mime id file obs v.
Proof.
  unfold_m. intros H.
  run_step. split_result.
  - run_step. split_result; run_step; close_run.
  - run_step. split_result.
    + run_step. split_result; run_step; close_run.
    + run_step. split_result; run_step; split_result; run_step; close_run.
Qed.

(** What a unit of work has done at any moment: operations of its own only,
    and no [unlink] before the last one. *)
Lemma unit_runs_ops obs p :
  runs (unit_of_work req tf mime id file) obs p →
  Forall (job_op tf id file) obs ∧ (unlinks obs = [] ∨ settled p).
Proof.
  unfold_m. intros H.
  run_step; [by split; [constructor|left]|]. split_result.
  - run_step; [by split; [repeat constructor|left]|].
    split_result; run_step; (split; [by repeat constructor|right; by eexists]).
  - run_step; [by split; [repeat constructor|left]|]. split_result.
    + run_step; [by split; [repeat constructor|left]|].
      split_result; run_step; (split; [by repeat constructor|right; by eexists]).
    + run_step; [by split; [repeat constructor|left]|].
      split_result; (run_step; [by split; [repeat constructor|left]|]);
      split_result; run_step; (split; [by repeat constructor|right; by eexists]).
Qed.

Lemma job_run_unlinks obs v :
  job_run req tf mime id file obs v → unlinks obs = [inputPath id file].
Proof. by intros []. Qed.

Lemma job_run_original_name obs v :
  job_run req tf mime id file obs v →
  field "originalName" v = Some (JStr (originalname file)).
Proof. by intros []. Qed.

End Job.

(** No input path is an output path, whatever the files and identifiers. *)
Lemma input_is_no_output (tf : string) (id id' : Uuid) (file : UploadedFile) :
  Str.slash_free (Str.toLowerCase tf) →
  inputPath id file ≠ outputPath tf id'.
Proof.
  intros Hfree. rewrite inputPath_eq, outputPath_eq by done.
  unfold inputFileName, outputFileName. intros Heq.
  apply (app_inj_length "/tmp/" "/tmp/") in Heq as [_ Heq]; [|done].
  apply app_inj_length in Heq as [_ Heq];
    [|by rewrite !uuid_string_length].
  discriminate Heq.
Qed.

End JobFacts.

(* ===================================================================== *)
(** ** Facts about the scheduler and [Promise.all] *)
(* ===================================================================== *)

Module SchedFacts.

Lemma resume_runs {A} (f : Faults) (p p' : Prog A) fs fs' ob :
  resume f p fs = Some (ob, p', fs') → runs p [ob] p'.
Proof.
  destruct p; simpl; try done.
  - destruct (fs_writeFile _ _ _ _). intros [= <- <- <-]. constructor. constructor.
  - intros [= <- <- <-]. constructor. constructor.
  - intros [= <- <- <-]. constructor. constructor.
  - destruct (fs_unlink _ _ _). intros [= <- <- <-]. constructor. constructor.
  - intros [= <- <- <-]. constructor. constructor.
  - intros [= <- <- <-]. constructor. constructor.
Qed.

Lemma runs_trans {A} (p q r : Prog A) a b :
  runs p a q → runs q b r → runs p (a ++ b) r.
Proof. induction 1; simpl; [done|..]; intros; constructor; auto. Qed.

Lemma resume_settled {A} (f : Faults) (p : Prog A) fs :
  resume f p fs = None ↔ settled p.
Proof.
  split.
  - destruct p; simpl; try done; [by eexists|..]; by repeat case_match.
  - by intros [a ->].
Qed.

Lemma obs_of_snoc i j ob tr :
  obs_of i (tr ++ [(j, ob)]) = obs_of i tr ++ (if decide (j = i) then [ob] else []).
Proof. unfold obs_of. rewrite omap_app. simpl. by case_decide. Qed.

Lemma elem_of_obs_of i ob tr : ob ∈ obs_of i tr ↔ (i, ob) ∈ tr.
Proof.
  unfold obs_of. rewrite list_elem_of_omap. split.
  - intros ([j ob'] & Hin & Heq). simpl in Heq. case_decide; naive_solver.
  - intros Hin. exists (i, ob). split; [done|]. simpl. by rewrite decide_True.
Qed.

Lemma unfulfilled_insert tasks i p p' :
  tasks !! i = Some p →
  unfulfilled (<[i:=p']> tasks) + match value_of p with Some _ => 0 | None => 1 end
  = unfulfilled tasks + match value_of p' with Some _ => 0 | None => 1 end.
Proof.
  revert i. induction tasks as [|q tasks IH]; intros [|i] Hi; simplify_eq/=.
  - lia.
  - specialize (IH i Hi). lia.
Qed.

Lemma unfulfilled_zero tasks :
  unfulfilled tasks = 0 → Forall (λ p, is_Some (value_of p)) tasks.
Proof.
  induction tasks as [|q tasks IH]; simpl; [constructor|].
  destruct (value_of q) eqn:Hq; [|lia]. intros. constructor; [by rewrite Hq|auto].
Qed.

Lemma unfulfilled_all tasks :
  Forall (λ p, value_of p = None) tasks → unfulfilled tasks = length tasks.
Proof. induction 1 as [|q tasks Hq _ IH]; simpl; [done|]. by rewrite Hq, IH. Qed.

Lemma settle_tasks i p s : sys_tasks (settle i p s) = sys_tasks s.
Proof. by destruct p as [[]| | | | | |]. Qed.

Lemma settle_trace i p s : sys_trace (settle i p s) = sys_trace s.
Proof. by destruct p as [[]| | | | | |]. Qed.

Lemma settle_fs i p s : sys_fs (settle i p s) = sys_fs s.
Proof. by destruct p as [[]| | | | | |]. Qed.

Lemma inv_start tasks0 fs :
  Forall (λ p, value_of p = None) tasks0 → batch_inv tasks0 (start tasks0 fs).
Proof.
  intros Hnone. split; simpl; try done.
  - intros i p0 Hi. exists p0. split; [done|]. constructor.
  - induction Hnone as [|q tasks Hq _ IH]; simpl; [done|]. by rewrite Hq, IH.
  - symmetry. by apply unfulfilled_all.
  - intros i ob Hin. by apply elem_of_nil in Hin.
Qed.

Lemma occurrences_cons i j sched :
  occurrences i (j :: sched) = (if decide (j = i) then 1 else 0) + occurrences i sched.
Proof. unfold occurrences. rewrite filter_cons. by case_decide. Qed.

Lemma settles_within_0 {A} (p : Prog A) : settles_within 0 p → settled p.
Proof. inversion 1. by eexists. Qed.

Section Sched.

Variable io : nat → Faults.

Lemma run_snoc sched i s : run io (sched ++ [i]) s = step io i (run io sched s).
Proof. unfold run. by rewrite foldl_app. Qed.

Lemma run_cons sched i s : run io (i :: sched) s = run io sched (step io i s).
Proof. done. Qed.

Lemma inv_step tasks0 i s : batch_inv tasks0 s → batch_inv tasks0 (step io i s).
Proof.
  intros [Htasks Hlen Hvals Hrem Hrej Htr]. unfold step.
  destruct (sys_tasks s !! i) as [p|] eqn:Hp; [|done].
  destruct (resume (io i) p (sys_fs s)) as [[[ob p'] fs']|] eqn:Hres; [|done].
  assert (value_of p = None) as Hpend.
  { destruct p as [a| | | | | |]; try done. }
  assert (i < length tasks0) as Hi.
  { rewrite <- Hlen. by eapply lookup_lt_Some. }
  pose proof (unfulfilled_insert _ _ _ p' Hp) as Hcount. rewrite Hpend in Hcount.
  split.
  - rewrite settle_tasks, settle_trace. simpl. intros j p0 Hj.
    destruct (Htasks j p0 Hj) as (q & Hq & Hruns).
    rewrite obs_of_snoc. destruct (decide (i = j)) as [->|Hne].
    + exists p'. rewrite list_lookup_insert_eq by (by eapply lookup_lt_Some).
      split; [done|]. simplify_eq.
      eapply runs_trans; [done|]. by eapply resume_runs.
    + exists q. rewrite list_lookup_insert_ne by done.
      by rewrite app_nil_r.
  - rewrite settle_tasks. simpl. by rewrite length_insert.
  - rewrite settle_tasks. simpl. rewrite list_fmap_insert.
    destruct p' as [[e|v]| | | | | |]; simpl; rewrite Hvals;
      first [done | symmetry; apply list_insert_id;
                    by rewrite list_lookup_fmap, Hp; simpl; rewrite Hpend].
  - rewrite settle_tasks. simpl.
    destruct p' as [[e|v]| | | | | |]; simpl in *; lia.
  - rewrite settle_tasks. simpl. intros e He.
    destruct p' as [[e'|v]| | | | | |]; simpl in He;
      try (destruct (Hrej e He) as (j & e'' & Hj);
           destruct (decide (i = j)) as [->|Hne]; [simplify_eq|];
           exists j, e''; by rewrite list_lookup_insert_ne).
    exists i, e'. by rewrite list_lookup_insert_eq by (by eapply lookup_lt_Some).
  - rewrite settle_trace. simpl. intros j ob' Hin.
    apply elem_of_app in Hin as [Hin|Hin]; [by eapply Htr|].
    apply list_elem_of_singleton in Hin. by simplify_eq.
Qed.

Lemma inv_run tasks0 sched s :
  batch_inv tasks0 s → batch_inv tasks0 (run io sched s).
Proof.
  revert s. induction sched as [|i sched IH]; intros s Hs; [done|].
  rewrite run_cons. by apply IH, inv_step.
Qed.

Lemma step_other i j s : i ≠ j → sys_tasks (step io j s) !! i = sys_tasks s !! i.
Proof.
  intros Hne. unfold step.
  destruct (sys_tasks s !! j) as [p|]; [|done].
  destruct (resume _ _ _) as [[[ob p'] fs']|]; [|done].
  rewrite settle_tasks. simpl. by rewrite list_lookup_insert_ne.
Qed.

Lemma step_progress i s p n :
  sys_tasks s !! i = Some p → settles_within n p →
  ∃ p', sys_tasks (step io i s) !! i = Some p' ∧ settles_within (pred n) p'.
Proof.
  intros Hp Hn. unfold step. rewrite Hp.
  assert (i < length (sys_tasks s)) by (by eapply lookup_lt_Some).
  destruct Hn as [n a| | | | | |]; simpl;
    try (destruct (fs_writeFile _ _ _ _)); try (destruct (fs_unlink _ _ _));
    rewrite ?Hp, ?settle_tasks; simpl; rewrite ?list_lookup_insert_eq by done;
    eexists; (split; [done|]); auto.
  constructor.
Qed.

Lemma run_settles sched s i p n :
  sys_tasks s !! i = Some p → settles_within n p → n ≤ occurrences i sched →
  ∃ out, sys_tasks (run io sched s) !! i = Some (Ret out).
Proof.
  revert s p n. induction sched as [|j sched IH]; intros s p n Hp Hn Hocc.
  - assert (n = 0) as -> by (unfold occurrences in Hocc; simpl in Hocc; lia).
    apply settles_within_0 in Hn as [a ->]. by exists a.
  - rewrite run_cons. rewrite occurrences_cons in Hocc.
    destruct (decide (j = i)) as [->|Hne].
    + destruct (step_progress i s p n Hp Hn) as (p' & Hp' & Hn').
      eapply IH; [done..|lia].
    + eapply IH; [|done|lia]. by rewrite step_other.
Qed.

(** The settlement of [Promise.all]. *)
Lemma inv_fulfilled tasks0 s i p0 :
  batch_inv tasks0 s → sys_remaining s = 0 → tasks0 !! i = Some p0 →
  ∃ v, (default JNull <$> sys_values s) !! i = Some v ∧
       runs p0 (obs_of i (sys_trace s)) (Ret (inr v)).
Proof.
  intros [Htasks Hlen Hvals Hrem Hrej Htr] H0 Hi.
  destruct (Htasks i p0 Hi) as (p & Hp & Hruns).
  rewrite Hrem in H0. apply unfulfilled_zero in H0.
  rewrite Forall_lookup in H0. destruct (H0 i p Hp) as [v Hv].
  exists v. rewrite Hvals, !list_lookup_fmap, Hp. simpl. rewrite Hv.
  split; [done|]. destruct p as [[e|v']| | | | | |]; by simplify_eq/=.
Qed.

End Sched.

End SchedFacts.

(* ===================================================================== *)
(** ** Facts about a batch in flight *)
(* ===================================================================== *)

Module BatchFacts.
Import StrFacts PathFacts UuidFacts JobFacts SchedFacts.

Lemma fs_writeFile_file_at fault path data fs r fs' P :
  fs_writeFile fault path data fs = (r, fs') →
  file_at fs' P → P = path ∨ file_at fs P.
Proof.
  unfold fs_writeFile. intros Heq Hat.
  destruct (decide (P = path)) as [|Hne]; [by left|right].
  destruct Hat as [d Hd]. exists d.
  repeat case_match; simplify_eq; try done;
    by rewrite lookup_insert_ne in Hd.
Qed.

Lemma run_encoder_file_at f args fs P :
  file_at (run_encoder f args fs) P → last args = Some P ∨ file_at fs P.
Proof.
  unfold run_encoder. intros [d Hd].
  repeat case_match; simplify_eq; try (right; by exists d).
  all: match goal with H : last _ = Some ?o |- _ =>
         destruct (decide (o = P)) as [->|Hne]; [by left|right] end.
  all: exists d; by rewrite lookup_insert_ne in Hd.
Qed.

Lemma fs_unlink_file_at path fs r fs' P :
  fs_unlink None path fs = (r, fs') →
  file_at fs' P → P ≠ path ∧ file_at fs P.
Proof.
  unfold fs_unlink. intros Heq [d Hd].
  repeat case_match; simplify_eq.
  - destruct (decide (P = path)) as [->|Hne].
    + by rewrite lookup_delete_eq in Hd.
    + rewrite lookup_delete_ne in Hd by done. split; [done|by exists d].
  - split; [congruence|by exists d].
  - split; [congruence|by exists d].
Qed.

(** An [unlink] that succeeded has removed the file. *)
Lemma fs_unlink_done fault path fs fs' :
  fs_unlink fault path fs = (inr (), fs') → ¬ file_at fs' path.
Proof.
  unfold fs_unlink. intros Heq [d Hd].
  repeat case_match; simplify_eq. by rewrite lookup_delete_eq in Hd.
Qed.

Section AfterUnlink.

Variable io : nat → Faults.

Lemma step_cases j s :
  step io j s = s ∨
  ∃ (p : Prog (Exn + Json)) ob p' fs',
    resume (io j) p (sys_fs s) = Some (ob, p', fs') ∧
    sys_trace (step io j s) = sys_trace s ++ [(j, ob)] ∧
    sys_fs (step io j s) = fs'.
Proof.
  unfold step. destruct (sys_tasks s !! j) as [p|]; [|by left].
  destruct (resume (io j) p (sys_fs s)) as [[[ob p'] fs']|] eqn:Hres; [|by left].
  right. exists p, ob, p', fs'. by rewrite settle_trace, settle_fs.
Qed.

Lemma resume_unlink {A} (f : Faults) (p p' : Prog A) fs fs' path :
  resume f p fs = Some (ObsUnlink path (inr ()), p', fs') → ¬ file_at fs' path.
Proof.
  destruct p; simpl; try done.
  - by destruct (fs_writeFile _ _ _ _).
  - destruct (fs_unlink _ _ _) as [r' fs''] eqn:Hu. intros [= -> -> _ ->].
    by eapply fs_unlink_done.
Qed.

(** Right after an [unlink] that succeeded, no file sits at its path. *)
Lemma run_last_unlink sched tasks fs tr i path :
  sys_trace (run io sched (start tasks fs)) = tr ++ [(i, ObsUnlink path (inr ()))] →
  ¬ file_at (sys_fs (run io sched (start tasks fs))) path.
Proof.
  revert tr i path. induction sched as [|j sched IH] using rev_ind;
    intros tr i path Htr.
  - by destruct tr.
  - rewrite run_snoc in Htr |- *.
    destruct (step_cases j (run io sched (start tasks fs)))
      as [Hsame|(p & ob & p' & fs' & Hres & Htrace & Hfs)].
    + rewrite Hsame in Htr |- *. by eapply IH.
    + rewrite Htrace in Htr. apply app_inj_tail in Htr as [_ [= -> ->]].
      rewrite Hfs. by eapply resume_unlink.
Qed.

End AfterUnlink.

Section Batch.

Variables (req : Request) (files : list UploadedFile) (tf mime : string).
Variables (env : nat → JobEnv).
Hypothesis Hallowed : allowedVideoFormats !! Str.toLowerCase tf = Some mime.

Abbreviation tasks0 := (batch_tasks req tf mime env files).
Abbreviation io := (λ i, job_io (env i)).

Lemma lower_slash_free : Str.slash_free (Str.toLowerCase tf).
Proof. destruct (allowed_video _ _ Hallowed) as [[-> _]|[-> _]]; by simpl. Qed.

Lemma batch_tasks_lookup i file :
  files !! i = Some file →
  tasks0 !! i = Some (unit_of_work req tf mime (job_id (env i)) file).
Proof. intros Hi. unfold batch_tasks. by rewrite list_lookup_imap, Hi. Qed.

Lemma batch_tasks_lookup_inv i p :
  tasks0 !! i = Some p →
  ∃ file, files !! i = Some file ∧ p = unit_of_work req tf mime (job_id (env i)) file.
Proof.
  unfold batch_tasks. rewrite list_lookup_imap.
  destruct (files !! i) as [file|]; [|done]. intros [= <-]. by exists file.
Qed.

Lemma batch_tasks_length : length tasks0 = length files.
Proof. unfold batch_tasks. by rewrite length_imap. Qed.

Lemma batch_start_inv fs : batch_inv tasks0 (start tasks0 fs).
Proof.
  apply inv_start. apply Forall_forall. intros p Hp.
  apply list_elem_of_lookup in Hp as [i Hi].
  apply batch_tasks_lookup_inv in Hi as (file & _ & ->). apply unit_pending.
Qed.

Lemma batch_run_inv sched fs : batch_inv tasks0 (run io sched (start tasks0 fs)).
Proof. apply inv_run, batch_start_inv. Qed.


Abbreviation batch sched fs := (run io sched (start tasks0 fs)).

Lemma batch_unit_run sched fs i file :
  files !! i = Some file →
  ∃ p, sys_tasks (batch sched fs) !! i = Some p ∧
       runs (unit_of_work req tf mime (job_id (env i)) file)
            (obs_of i (sys_trace (batch sched fs))) p.
Proof.
  intros Hi. apply (inv_tasks _ _ (batch_run_inv sched fs)).
  by apply batch_tasks_lookup.
Qed.

(** No unit of work rejects its promise. *)
Lemma batch_never_rejects sched fs : sys_rejected (batch sched fs) = None.
Proof.
  destruct (sys_rejected _) as [e|] eqn:He; [|done]. exfalso.
  destruct (inv_rejected _ _ (batch_run_inv sched fs) e He) as (i & e' & Hi).
  assert (is_Some (files !! i)) as [file Hfile].
  { apply lookup_lt_is_Some. rewrite <- batch_tasks_length.
    rewrite <- (inv_length _ _ (batch_run_inv sched fs)). by eapply lookup_lt_Some. }
  destruct (batch_unit_run sched fs i file Hfile) as (p & Hp & Hruns).
  simplify_eq. by apply unit_runs_complete in Hruns as (v & ? & _).
Qed.

Lemma batch_reply_cases sched fs :
  conversion_reply (batch sched fs) = Pending ∨
  ∃ results,
    conversion_reply (batch sched fs) = Responded 200 (conversion_body results) ∧
    length results = length files ∧
    ∀ i file, files !! i = Some file →
      ∃ v, results !! i = Some v ∧
           job_run req tf mime (job_id (env i)) file
             (obs_of i (sys_trace (batch sched fs))) v.
Proof.
  unfold conversion_reply. rewrite batch_never_rejects.
  case_decide as Hrem; [right|by left].
  eexists. split; [done|]. split.
  - rewrite length_fmap, (inv_values _ _ (batch_run_inv sched fs)), length_fmap.
    by rewrite (inv_length _ _ (batch_run_inv sched fs)), batch_tasks_length.
  - intros i file Hi.
    destruct (inv_fulfilled _ _ _ _ (batch_run_inv sched fs) Hrem
                (batch_tasks_lookup i file Hi)) as (v & Hv & Hruns).
    exists v. split; [done|].
    apply unit_runs_complete in Hruns as (v' & [= <-] & Hrun). done.
Qed.

Lemma unfulfilled_none (tasks : list (Prog (Exn + Json))) :
  Forall (λ p, is_Some (value_of p)) tasks → unfulfilled tasks = 0.
Proof. induction 1 as [|q tasks [v Hq] _ IH]; simpl; [done|]. by rewrite Hq. Qed.

Lemma batch_fair_settles sched fs :
  fair (length files) sched → sys_remaining (batch sched fs) = 0.
Proof.
  intros Hfair. rewrite (inv_remaining _ _ (batch_run_inv sched fs)).
  apply unfulfilled_none, Forall_lookup. intros i p Hp.
  assert (is_Some (files !! i)) as [file Hfile].
  { apply lookup_lt_is_Some. rewrite <- batch_tasks_length.
    rewrite <- (inv_length _ _ (batch_run_inv sched fs)). by eapply lookup_lt_Some. }
  destruct (batch_unit_run sched fs i file Hfile) as (p' & Hp' & Hruns).
  simplify_eq.
  destruct (run_settles io sched (start tasks0 fs) i _ 4
              (batch_tasks_lookup i file Hfile) (unit_settles _ _ _ _ _)) as [out Hout].
  { apply Hfair. by eapply lookup_lt_Some. }
  simplify_eq.
  apply unit_runs_complete in Hruns as (v & -> & _). by eexists.
Qed.

Lemma batch_trace_ops sched fs i ob :
  (i, ob) ∈ sys_trace (batch sched fs) →
  ∃ file, files !! i = Some file ∧ job_op tf (job_id (env i)) file ob.
Proof.
  intros Hin.
  assert (is_Some (files !! i)) as [file Hfile].
  { apply lookup_lt_is_Some. rewrite <- batch_tasks_length.
    exact (inv_trace _ _ (batch_run_inv sched fs) i ob Hin). }
  exists file. split; [done|].
  destruct (batch_unit_run sched fs i file Hfile) as (p & _ & Hruns).
  apply unit_runs_ops in Hruns as [Hops _].
  rewrite Forall_forall in Hops. by apply Hops, elem_of_obs_of.
Qed.


Lemma unit_not_settled id file : ¬ settled (unit_of_work req tf mime id file).
Proof.
  intros [a Ha].
  assert (runs (unit_of_work req tf mime id file) [] (Ret a)) as Hruns.
  { rewrite Ha. constructor. }
  apply unit_runs_complete in Hruns as (v & _ & Hrun). inversion Hrun.
Qed.

Lemma inputs_owned_start fs : inputs_owned env files (start tasks0 fs).
Proof.
  intros i file Hi _. exists i, file, (unit_of_work req tf mime (job_id (env i)) file).
  split; [done|]. split; [done|]. split; [by apply batch_tasks_lookup|].
  apply unit_not_settled.
Qed.

Lemma unlinks_app a b : unlinks (a ++ b) = unlinks a ++ unlinks b.
Proof. unfold unlinks. by rewrite omap_app. Qed.

(** From here on, no [unlink] of the batch is failed by the environment. *)
Hypothesis Hunlinks : ∀ i, i < length files → unlink_fault (job_io (env i)) = None.

Lemma inputs_owned_step j0 s :
  batch_inv tasks0 s → inputs_owned env files s →
  inputs_owned env files (step io j0 s).
Proof.
  intros Hinv Hown. unfold step.
  destruct (sys_tasks s !! j0) as [p|] eqn:Hp; [|done].
  destruct (resume (io j0) p (sys_fs s)) as [[[ob p'] fs']|] eqn:Hres; [|done].
  assert (is_Some (files !! j0)) as [file0 Hfile0].
  { apply lookup_lt_is_Some. rewrite <- batch_tasks_length.
    rewrite <- (inv_length _ _ Hinv). by eapply lookup_lt_Some. }
  destruct (inv_tasks _ _ Hinv j0 _ (batch_tasks_lookup j0 file0 Hfile0))
    as (p0 & Hp0 & Hruns).
  simplify_eq.
  assert (¬ settled p) as Hpend.
  { intros Hs. apply (resume_settled (io j0) p (sys_fs s)) in Hs. congruence. }
  pose proof (runs_trans _ _ _ _ _ Hruns (resume_runs _ _ _ _ _ _ Hres)) as Hruns'.
  destruct (unit_runs_ops _ _ _ _ _ _ _ Hruns) as [_ [Hnone|?]]; [|done].
  destruct (unit_runs_ops _ _ _ _ _ _ _ Hruns') as [Hops _].
  apply Forall_app in Hops as [_ Hop]. rewrite Forall_singleton in Hop.
  assert (unlinks [ob] = [] → ¬ settled p') as Hstill.
  { intros Hob [out ->].
    apply unit_runs_complete in Hruns' as (v & _ & Hrun).
    apply job_run_unlinks in Hrun. rewrite unlinks_app, Hnone, Hob in Hrun. done. }
  assert (¬ settled p' → ∀ i file, files !! i = Some file →
            file_at (sys_fs s) (inputPath (job_id (env i)) file) →
            ∃ j file' q, files !! j = Some file' ∧
              inputPath (job_id (env j)) file' = inputPath (job_id (env i)) file ∧
              <[j0:=p']> (sys_tasks s) !! j = Some q ∧ ¬ settled q) as Hkeep.
  { intros Hp' i file Hi Hat.
    destruct (Hown i file Hi Hat) as (j & file' & q & Hj & Hsame & Hq & Hnq).
    destruct (decide (j = j0)) as [->|Hne].
    - exists j0, file', p'. repeat split; try done.
      apply list_lookup_insert_eq. by eapply lookup_lt_Some.
    - exists j, file', q. repeat split; try done.
      by rewrite list_lookup_insert_ne. }
  intros i file Hi Hat. rewrite settle_fs in Hat. rewrite settle_tasks.
  simpl in Hat |- *.
  destruct p as [a|path data k|cmd args k|path k|path k|path k|path k];
    simpl in Hres; simplify_eq.
  - destruct (fs_writeFile _ _ _ _) as [r fs''] eqn:Hw. simplify_eq.
    destruct Hop as [-> _].
    destruct (fs_writeFile_file_at _ _ _ _ _ _ _ Hw Hat) as [Heq|Hold].
    + exists j0, file0, (k r). repeat split; try done.
      * apply list_lookup_insert_eq. by eapply lookup_lt_Some.
      * by apply Hstill.
    + apply Hkeep; try done. by apply Hstill.
  - destruct Hop as [_ ->].
    destruct (run_encoder_file_at _ _ _ _ Hat) as [Hlast|Hold].
    + exfalso. injection Hlast as Hlast.
      by eapply (input_is_no_output tf), eq_sym; [apply lower_slash_free|].
    + apply Hkeep; try done. by apply Hstill.
  - apply Hkeep; try done. by apply Hstill.
  - destruct (fs_unlink _ _ _) as [r fs''] eqn:Hu. simplify_eq.
    simpl in Hop. subst path.
    rewrite (Hunlinks j0) in Hu by (by eapply lookup_lt_Some).
    destruct (fs_unlink_file_at _ _ _ _ _ Hu Hat) as [Hne Hold].
    destruct (Hown i file Hi Hold) as (j & file' & q & Hj & Hsame & Hq & Hnq).
    exists j, file', q. repeat split; try done.
    rewrite list_lookup_insert_ne; [done|]. intros <-.
    rewrite Hfile0 in Hj. injection Hj as <-. by apply Hne.
  - done.
  - done.
Qed.

Lemma inputs_owned_run sched s :
  batch_inv tasks0 s → inputs_owned env files s →
  inputs_owned env files (run io sched s).
Proof.
  revert s. induction sched as [|j sched IH]; intros s Hinv Hown; [done|].
  rewrite run_cons. apply IH; [by apply inv_step|by apply inputs_owned_step].
Qed.

(** When the batch has settled, no file is left at any input path. *)
Lemma batch_inputs_gone sched fs i file :
  sys_remaining (batch sched fs) = 0 → files !! i = Some file →
  ¬ file_at (sys_fs (batch sched fs)) (inputPath (job_id (env i)) file).
Proof.
  intros Hrem Hi Hat.
  destruct (inputs_owned_run sched _ (batch_start_inv fs) (inputs_owned_start fs)
              i file Hi Hat) as (j & file' & q & Hj & _ & Hq & Hnq).
  destruct (inv_fulfilled _ _ _ _ (batch_run_inv sched fs) Hrem
              (batch_tasks_lookup j file' Hj)) as (v & _ & Hruns).
  destruct (batch_unit_run sched fs j file' Hj) as (q' & Hq' & Hruns').
  simplify_eq.
  pose proof (batch_run_inv sched fs) as Hinv.
  rewrite (inv_remaining _ _ Hinv) in Hrem. apply unfulfilled_zero in Hrem.
  rewrite Forall_lookup in Hrem. destruct (Hrem j q Hq) as [v' Hv'].
  apply Hnq. destruct q as [[|]| | | | | |]; try done. by eexists.
Qed.

End Batch.

End BatchFacts.

(* ===================================================================== *)
(** ** Facts about complete runs of a unit of work *)
(* ===================================================================== *)

Module RunFacts.

Section Verdicts.
Variables (req : Request) (tf mime : string) (id : Uuid) (file : UploadedFile).

Ltac third_op :=
  apply elem_of_cons; right; apply elem_of_cons; right; apply elem_of_cons; by left.

Ltac member_cases H :=
  repeat (apply elem_of_cons in H as [H|H]);
  try (by apply elem_of_nil in H);
  try discriminate H.



Lemma job_run_stat_failed obs v path e :
  job_run req tf mime id file obs v →
  ObsStat path (inl e) ∈ obs → v = failure_result file e.
Proof. intros [] Hin; member_cases Hin. by injection Hin as _ ->. Qed.

Lemma job_run_stat_done obs v path size :
  job_run req tf mime id file obs v →
  ObsStat path (inr size) ∈ obs →
  v = success_result req tf mime id file size.
Proof. intros [] Hin; member_cases Hin. by injection Hin as _ ->. Qed.

Lemma job_run_encoder_done obs v cmd args outcome :
  job_run req tf mime id file obs v →
  ObsSpawn cmd args outcome ∈ obs → ffmpeg_settlement outcome = inr () →
  ∃ st, ObsStat (outputPath tf id) st ∈ obs.
Proof.
  intros [] Hin Hset; member_cases Hin; injection Hin as _ _ ->;
    try congruence; eexists; third_op.
Qed.

(** Every complete run ends with the unlink of the input path. *)
Lemma job_run_ends_with_unlink obs v :
  job_run req tf mime id file obs v →
  ∃ before r, obs = before ++ [ObsUnlink (inputPath id file) r].
Proof.
  intros [].
  - by eexists [_], _.
  - by eexists [_; _], _.
  - by eexists [_; _; _], _.
  - by eexists [_; _; _], _.
Qed.

(** Every complete run returns an object of exactly one of the two shapes;
    a success carries the size its [stat] has read. *)
Lemma job_run_shape obs v :
  job_run req tf mime id file obs v →
  (∃ size, v = success_result req tf mime id file size ∧
           ObsStat (outputPath tf id) (inr size) ∈ obs) ∨
  (∃ e, v = failure_result file e).
Proof.
  intros []; [right|right|right|left]; eexists; try done.
  split; [done|]. third_op.
Qed.

End Verdicts.

End RunFacts.

(* ===================================================================== *)
(** ** Facts about the conversion handler *)
(* ===================================================================== *)

Module HandlerFacts.
Import JobFacts SchedFacts BatchFacts.

Lemma accepted_nonempty req files tf mime :
  accepted req files tf mime → tf ≠ "" ∧ mime ≠ "".
Proof.
  intros (_ & _ & _ & Hmime).
  destruct (allowed_video _ _ Hmime) as [[Hk ->]|[Hk ->]];
    (split; [intros ->; discriminate Hk|done]).
Qed.

Lemma convert_video_accepted req files tf mime env sched fs :
  accepted req files tf mime →
  convert_video req env sched fs =
    let s := run (λ i, job_io (env i)) sched
               (start (batch_tasks req tf mime env files) fs) in
    {| reply := conversion_reply s; disk := sys_fs s; trace := sys_trace s |}.
Proof.
  intros Hacc. destruct (accepted_nonempty _ _ _ _ Hacc) as [Htf Hmime].
  destruct Hacc as (Hfiles & Hne & Hformat & Hlookup).
  unfold convert_video. rewrite Hfiles, Hformat, Hlookup.
  destruct files as [|f files]; [done|].
  rewrite decide_False; [done|]. by intros [?|?].
Qed.

Lemma accepted_reply_cases req files tf mime env sched fs :
  accepted req files tf mime →
  let o := convert_video req env sched fs in
  reply o = Pending ∨
  ∃ results,
    reply o = Responded 200 (conversion_body results) ∧
    length results = length files ∧
    ∀ i file, files !! i = Some file →
      ∃ v, results !! i = Some v ∧
           job_run req tf mime (job_id (env i)) file (obs_of i (trace o)) v.
Proof.
  intros Hacc. rewrite (convert_video_accepted _ _ _ _ _ _ _ Hacc). simpl.
  destruct Hacc as (_ & _ & _ & Hlookup).
  apply batch_reply_cases; done.
Qed.

Lemma accepted_reply_fair req files tf mime env sched fs :
  accepted req files tf mime → fair (length files) sched →
  reply (convert_video req env sched fs) ≠ Pending.
Proof.
  intros Hacc Hfair. rewrite (convert_video_accepted _ _ _ _ _ _ _ Hacc). simpl.
  destruct Hacc as (_ & _ & _ & Hlookup).
  unfold conversion_reply. rewrite batch_never_rejects.
  by rewrite batch_fair_settles.
Qed.

Lemma conversion_body_inj a b : conversion_body a = conversion_body b → a = b.
Proof. by intros [= ->]. Qed.


(** What a reply of the conversion route to an accepted request is. *)
Lemma accepted_responded req files tf mime env sched fs status body :
  accepted req files tf mime →
  reply (convert_video req env sched fs) = Responded status body →
  ∃ results,
    status = 200 ∧ body = conversion_body results ∧
    length results = length files ∧
    ∀ i file, files !! i = Some file →
      ∃ v, results !! i = Some v ∧
           job_run req tf mime (job_id (env i)) file
             (obs_of i (trace (convert_video req env sched fs))) v.
Proof.
  intros Hacc Heq.
  destruct (accepted_reply_cases _ _ _ _ env sched fs Hacc)
    as [Hpend|(results & Hreply & Hlen & Hres)]; [congruence|].
  rewrite Hreply in Heq. injection Heq as <- <-. by exists results.
Qed.

Lemma conversion_reply_responded s status body :
  conversion_reply s = Responded status body → sys_remaining s = 0.
Proof.
  unfold conversion_reply. destruct (sys_rejected s); [done|]. by case_decide.
Qed.

Lemma shapes_disjoint mime size v : success_shape mime size v → failure_shape v → False.
Proof. intros (? & ? & ? & ->) (? & ? & ? & [=]). Qed.

(** What the download route answers, by what it finds. *)
Lemma serve_download_cases filename io fs :
  let o := serve_download filename io fs in
  disk o = fs ∧
  match fs !! Path.join "/tmp" filename with
  | None => reply o = Responded 404 (TextBody "File not found or not accessible.")
  | Some node =>
      if headers_legal (download_headers filename) then
        if hidden io (Path.join "/tmp" filename) then
          reply o = Responded 404 (TextBody
            "File not found or no longer available. It might have been automatically cleaned up by the OS.")
        else
          match node with
          | Dir _ =>
              reply o = Responded 404 (TextBody
                "File not found or no longer available. It might have been automatically cleaned up by the OS.")
          | File data =>
              match interrupted io with
              | Some _ => reply o = Truncated (download_headers filename)
              | None => reply o = Responded 200 (FileBody (download_headers filename) data)
              end
          end
      else reply o = Responded 404 (TextBody "File not found or not accessible.")
  end.
Proof.
  cbv zeta. unfold serve_download, download_video.
  generalize (download_headers filename) as headers.
  generalize (Path.join "/tmp" filename) as path. intros path headers.
  simpl. unfold fs_access.
  destruct (fs !! path) as [node|] eqn:Hnode; simpl; [|done].
  destruct (headers_legal headers); simpl; [|done].
  unfold send_file. destruct (hidden io path); simpl; [done|].
  rewrite Hnode. destruct node as [data|size]; simpl; [|done].
  by destruct (interrupted io).
Qed.

End HandlerFacts.

(* ===================================================================== *)
(** ** Facts about file names *)
(* ===================================================================== *)

Module NameFacts.
Import StrFacts PathFacts UuidFacts JobFacts.

Lemma split_char_nonempty sep s : split_char sep s ≠ [].
Proof.
  destruct s as [|c s]; simpl; [done|].
  case_decide; [done|]. by destruct (split_char sep s).
Qed.

(** Splitting and joining again gives the string back. *)
Lemma join_split_char (sep : ascii) (s : string) :
  Str.join (String sep "") (split_char sep s) = s.
Proof.
  induction s as [|c s IH]; [done|]. simpl.
  destruct (decide (c = sep)) as [->|Hne].
  - pose proof (split_char_nonempty sep s).
    destruct (split_char sep s) as [|piece rest] eqn:Hs; [done|].
    change (Str.join (String sep "") ("" :: piece :: rest))
      with ("" +:+ String sep "" +:+ Str.join (String sep "") (piece :: rest)).
    by rewrite IH.
  - destruct (split_char sep s) as [|piece rest] eqn:Hs.
    + by destruct (split_char_nonempty sep s).
    + destruct rest as [|piece' rest'].
      * simpl in *. by rewrite IH.
      * change (Str.join (String sep "") (String c piece :: piece' :: rest'))
          with (String c (piece +:+ String sep "" +:+
                          Str.join (String sep "") (piece' :: rest'))).
        by rewrite <- IH.
Qed.

Lemma split_char_dot_free s : dot_free s → split_char "." s = [s].
Proof.
  induction s as [|c s IH]; [done|]. intros [Hc Hs]. simpl.
  rewrite decide_False by done. by rewrite IH.
Qed.

Lemma split_char_app base ext :
  dot_free ext →
  split_char "." (base +:+ "." +:+ ext) = split_char "." base ++ [ext].
Proof.
  intros Hext. induction base as [|c base IH].
  - change ("" +:+ "." +:+ ext) with (String "." ext). simpl.
    by rewrite split_char_dot_free.
  - rewrite app_cons. simpl. rewrite IH.
    destruct (decide (c = "."%char)); [done|].
    pose proof (split_char_nonempty "." base).
    by destruct (split_char "." base).
Qed.

Lemma dot_free_last_dot s : dot_free s → Path.last_dot s = None.
Proof.
  induction s as [|c s IH]; [done|]. intros [Hc Hs]. simpl.
  rewrite IH by done. by rewrite decide_False.
Qed.

(** The last dot of a name is the one in front of a dot-free ending. *)
Lemma last_dot_app pre ext :
  dot_free ext → Path.last_dot (pre +:+ "." +:+ ext) = Some (pre, "." +:+ ext).
Proof.
  intros Hext. induction pre as [|c pre IH].
  - change ("" +:+ "." +:+ ext) with (String "." ext). simpl.
    by rewrite dot_free_last_dot.
  - rewrite app_cons. simpl. by rewrite IH.
Qed.

Lemma basename_plain name :
  Str.slash_free name → name ≠ "" → Path.basename name = name.
Proof.
  intros Hfree Hne. unfold Path.basename.
  rewrite segments_slash_free by done.
  by rewrite filter_cons_True by done.
Qed.

Lemma extname_plain pre ext :
  Str.slash_free (pre +:+ "." +:+ ext) → pre ≠ "" → dot_free ext →
  2 < String.length (pre +:+ "." +:+ ext) →
  Path.extname (pre +:+ "." +:+ ext) = "." +:+ ext.
Proof.
  intros Hfree Hpre Hext Hlen. destruct (long_name _ Hlen) as (Hne & _ & Hdots).
  unfold Path.extname. rewrite basename_plain by done.
  rewrite last_dot_app by done.
  rewrite decide_False by done. by rewrite decide_False by done.
Qed.

Lemma outputFileName_slash_free tf id :
  Str.slash_free (Str.toLowerCase tf) → Str.slash_free (outputFileName tf id).
Proof.
  intros Hfree. unfold outputFileName. rewrite !slash_free_app.
  split; [apply uuid_string_slash_free|]. by split.
Qed.

(** Output paths of different identifiers differ. *)
Lemma outputPath_inj tf id id' :
  Str.slash_free (Str.toLowerCase tf) →
  outputPath tf id = outputPath tf id' → uuid_string id = uuid_string id'.
Proof.
  intros Hfree. rewrite !outputPath_eq by done. unfold outputFileName. intros Heq.
  apply (app_inj_length "/tmp/" "/tmp/") in Heq as [_ Heq]; [|done].
  apply app_inj_length in Heq as [Heq _]; [done|].
  by rewrite !uuid_string_length.
Qed.

(** The extension of a generated output name is the lower-case format. *)
Lemma outputFileName_extname tf mime id :
  allowedVideoFormats !! Str.toLowerCase tf = Some mime →
  Path.extname (outputFileName tf id) = "." +:+ Str.toLowerCase tf.
Proof.
  intros Hallowed.
  assert (Str.slash_free (Str.toLowerCase tf) ∧ dot_free (Str.toLowerCase tf))
    as [Hfree Hdots].
  { destruct (allowed_video _ _ Hallowed) as [[-> _]|[-> _]]; by simpl. }
  pose proof (outputFileName_slash_free tf id Hfree) as Hname.
  pose proof (outputFileName_long tf id) as Hlen.
  unfold outputFileName in *.
  change (uuid_string id +:+ "_output." +:+ Str.toLowerCase tf)
    with (uuid_string id +:+ "_output" +:+ "." +:+ Str.toLowerCase tf) in *.
  rewrite <- app_assoc in *.
  by apply extname_plain.
Qed.

End NameFacts.

(* ===================================================================== *)
(** ** Facts about the names the download route delivers *)
(* ===================================================================== *)

Module DeliveryFacts.
Import StrFacts PathFacts UuidFacts JobFacts NameFacts.

Lemma printable_app (s t : string) :
  printable (s +:+ t) ↔ printable s ∧ printable t.
Proof.
  induction s as [|c s IH]; [simpl; tauto|].
  rewrite app_cons. simpl. tauto.
Qed.

Lemma printable_legal (s : string) : printable s → legal_header_value s = true.
Proof.
  induction s as [|c s IH]; [done|]. intros [[Hlow Hhigh] Hs].
  cbn [legal_header_value]. cbv zeta.
  assert (((N_of_ascii c =? 9) || ((32 <=? N_of_ascii c) && (N_of_ascii c <=? 126)))%N
          = true) as ->; [|by apply IH].
  apply orb_true_iff. right. apply andb_true_iff. split; by apply N.leb_le.
Qed.

Lemma hex_digit_printable (n : N) : (32 ≤ N_of_ascii (hex_digit n) ≤ 126)%N.
Proof. unfold hex_digit. repeat case_match; simpl; lia. Qed.

Lemma hex_digit_not_dot (n : N) : hex_digit n ≠ "."%char.
Proof. unfold hex_digit. repeat case_match; done. Qed.

Lemma hex_acc_printable (k : nat) (n : N) (acc : string) :
  printable acc → printable (hex_acc k n acc).
Proof.
  revert n acc. induction k as [|k IH]; intros n acc Hacc; [done|].
  simpl. apply IH. split; [apply hex_digit_printable|done].
Qed.

Lemma hex_acc_dot_free (k : nat) (n : N) (acc : string) :
  dot_free acc → dot_free (hex_acc k n acc).
Proof.
  revert n acc. induction k as [|k IH]; intros n acc Hacc; [done|].
  simpl. apply IH. split; [apply hex_digit_not_dot|done].
Qed.

Lemma dot_free_app (s t : string) : dot_free (s +:+ t) ↔ dot_free s ∧ dot_free t.
Proof.
  induction s as [|c s IH]; [simpl; tauto|].
  rewrite app_cons. simpl. tauto.
Qed.

Lemma hex_printable (k : nat) (n : N) : printable (hex k n).
Proof. by apply hex_acc_printable. Qed.

Lemma uuid_string_printable (u : Uuid) : printable (uuid_string u).
Proof.
  unfold uuid_string. rewrite !printable_app.
  repeat (split; [apply hex_printable|]; split; [by (simpl; split; [lia|])|]).
  apply hex_printable.
Qed.

Lemma uuid_string_dot_free (u : Uuid) : dot_free (uuid_string u).
Proof.
  unfold uuid_string. rewrite !dot_free_app.
  repeat split; first [apply hex_digit_not_dot | done].
Qed.

Lemma uuid_string_nonempty (u : Uuid) : uuid_string u ≠ "".
Proof.
  intros Hempty. pose proof (uuid_string_length u) as Hlen.
  rewrite Hempty in Hlen. discriminate Hlen.
Qed.

(** A name that starts with a piece free of dots is no dot file. *)
Lemma dot_segment_head (s t : string) :
  dot_free s → s ≠ "" → dot_segment (s +:+ t) = false.
Proof.
  destruct s as [|c s]; [done|]. intros [Hc _] _. rewrite app_cons.
  cbn [dot_segment]. destruct (s +:+ t); [done|]. by apply bool_decide_eq_false.
Qed.

(** Directly under the scratch root the name alone decides what is
    hidden. *)
Lemma hidden_tmp (io : Faults) (name : string) :
  Str.slash_free name → name ≠ "" →
  hidden io ("/tmp/" +:+ name) = dot_segment name.
Proof.
  intros Hfree Hne. unfold hidden.
  assert (Path.segments ("/tmp/" +:+ name) = [""; "tmp"; name]) as ->.
  { change ("/tmp/" +:+ name)
      with (String "/" (String "t" (String "m" (String "p" (String "/" name))))).
    simpl. by rewrite (segments_slash_free name Hfree). }
  rewrite filter_cons_False by (intros H; by apply H).
  rewrite filter_cons_True by done.
  rewrite filter_cons_True by done.
  cbv zeta. cbn [filter list_filter last existsb].
  change (dot_segment "tmp") with false.
  by destruct (dot_segment name), (hides_dot_directories io).
Qed.

(** The headers of a printable name are legal. *)
Lemma download_headers_legal (filename : string) :
  printable filename → headers_legal (download_headers filename) = true.
Proof.
  intros Hname. unfold headers_legal, download_headers. cbv zeta.
  cbn [forallb snd]. apply andb_true_iff. split.
  - by repeat case_decide.
  - rewrite andb_true_r. apply printable_legal. rewrite !printable_app.
    split; [simpl; repeat split; lia|]. split; [simpl; lia|].
    split; [done|simpl; lia].
Qed.

(** The names the conversion route generates are delivered: their headers
    are legal and the dot-file policy does not hide them. *)
Lemma outputFileName_delivered (io : Faults) (tf mime : string) (id : Uuid) :
  allowedVideoFormats !! Str.toLowerCase tf = Some mime →
  headers_legal (download_headers (outputFileName tf id)) = true ∧
  hidden io (Path.join "/tmp" (outputFileName tf id)) = false.
Proof.
  intros Hallowed.
  assert (Str.slash_free (Str.toLowerCase tf) ∧ printable (Str.toLowerCase tf))
    as [Hfree Hprint].
  { destruct (allowed_video _ _ Hallowed) as [[-> _]|[-> _]];
      (split; [by simpl|simpl; repeat split; lia]). }
  split.
  - apply download_headers_legal. unfold outputFileName. rewrite !printable_app.
    split; [apply uuid_string_printable|]. split; [simpl; repeat split; lia|done].
  - change (Path.join "/tmp" (outputFileName tf id)) with (outputPath tf id).
    rewrite outputPath_eq by done.
    destruct (long_name _ (outputFileName_long tf id)) as (Hne & _ & _).
    rewrite hidden_tmp by (by try apply outputFileName_slash_free).
    unfold outputFileName.
    apply dot_segment_head; [apply uuid_string_dot_free|apply uuid_string_nonempty].
Qed.

End DeliveryFacts.

(* ===================================================================== *)
(** ** Facts about the order of operations and about the disk *)
(* ===================================================================== *)

Module OrderFacts.
Import JobFacts.

Section Order.

Variables (req : Request) (tf mime : string) (id : Uuid) (file : UploadedFile).

Local Opaque inputPath outputPath ffmpegArgs success_result failure_result
  ffmpeg_settlement.

Ltac unfold_m :=
  unfold unit_of_work, convert_one, try_finally, try_catch, mbind, M_bind, bind,
    set_inputFilePath, set_outputFilePath, writeFile, run_ffmpeg, stat_size,
    unlink, ret, get_locals in *.

Ltac reduce_in H :=
  cbn in H; rewrite ?(decide_False _ _ (inputPath_truthy id file)) in H; cbn in H.

Ltac run_step :=
  match goal with
  | H : runs _ _ _ |- _ => reduce_in H; inversion H; subst; clear H
  end.

Ltac split_result :=
  match goal with
  | H : runs ?p _ _ |- _ =>
      match p with
      | context [match ffmpeg_settlement ?o with _ => _ end] =>
          let E := fresh "Hsettle" in
          destruct (ffmpeg_settlement o) as [?|[]] eqn:E
      | context [match ?r with inl _ => _ | inr _ => _ end] =>
          is_var r; destruct r as [?|?]
      end
  end.

Ltac close_order :=
  split; [simpl; repeat split; repeat constructor; simpl; lia|];
  intros before ob Heq;
  repeat match goal with u : () |- _ => destruct u end;
  repeat (destruct before as [|? before];
          [ try discriminate Heq; injection Heq as <-;
            repeat match goal with H : _ = _ |- _ => try (injection H as <-) end;
            cbn [preceded]; eauto 10
          | try (by destruct before); injection Heq as <- Heq ]);
  try (by destruct before).

(** The operations of a unit of work come in the order write, spawn, stat,
    unlink, each at most once; the encoder is started only after the write
    has succeeded, and the output is examined only after the encoder has
    closed with code 0. *)
Lemma unit_runs_ordered obs p :
  runs (unit_of_work req tf mime id file) obs p → ranked obs ∧ caused obs.
Proof.
  unfold_m. intros H.
  run_step; [close_order|]. split_result.
  - run_step; [close_order|]. split_result; run_step; close_order.
  - run_step; [close_order|]. split_result.
    + run_step; [close_order|]. split_result; run_step; close_order.
    + run_step; [close_order|].
      split_result; (run_step; [close_order|]); split_result; run_step; close_order.
Qed.

End Order.

End OrderFacts.

Module DiskFacts.
Import StrFacts PathFacts UuidFacts JobFacts SchedFacts BatchFacts NameFacts OrderFacts.

Lemma resume_frame {A} (f : Faults) (p p' : Prog A) fs fs' ob path :
  resume f p fs = Some (ob, p', fs') → ¬ touches ob path →
  fs' !! path = fs !! path.
Proof.
  destruct p; simpl; try done.
  - unfold fs_writeFile. intros Heq Hno.
    repeat case_match; simplify_eq; try done;
      unfold touches in Hno; by rewrite lookup_insert_ne.
  - intros [= <- <- <-] Hno. unfold touches in Hno. unfold run_encoder.
    repeat case_match; simplify_eq; try done;
      (rewrite lookup_insert_ne; [done|congruence]).
  - by intros [= <- <- <-].
  - unfold fs_unlink. intros Heq Hno. repeat case_match; simplify_eq; try done.
    unfold touches in Hno. by rewrite lookup_delete_ne.
  - by intros [= <- <- <-].
  - by intros [= <- <- <-].
Qed.

Lemma resume_no_new_dir {A} (f : Faults) (p p' : Prog A) fs fs' ob path size :
  resume f p fs = Some (ob, p', fs') →
  fs' !! path = Some (Dir size) → fs !! path = Some (Dir size).
Proof.
  destruct p; simpl; try done.
  - unfold fs_writeFile. intros Heq Hdir. repeat case_match; simplify_eq; try done.
    all: match goal with H : <[?k:=_]> _ !! _ = _ |- _ =>
           destruct (decide (k = path)) as [->|];
           [by rewrite lookup_insert_eq in H|by rewrite lookup_insert_ne in H] end.
  - intros [= <- <- <-]. unfold run_encoder.
    repeat case_match; simplify_eq; try done.
    all: intros Hdir;
         match goal with H : <[?k:=_]> _ !! _ = _ |- _ =>
           destruct (decide (k = path)) as [->|];
           [by rewrite lookup_insert_eq in H|by rewrite lookup_insert_ne in H] end.
  - by intros [= <- <- <-].
  - unfold fs_unlink. intros Heq Hdir. repeat case_match; simplify_eq; try done.
    match goal with H : delete ?k _ !! _ = _ |- _ =>
      destruct (decide (k = path)) as [->|];
      [by rewrite lookup_delete_eq in H|by rewrite lookup_delete_ne in H] end.
  - by intros [= <- <- <-].
  - by intros [= <- <- <-].
Qed.

Lemma resume_stat {A} (f : Faults) (p p' : Prog A) fs fs' path r :
  resume f p fs = Some (ObsStat path r, p', fs') → fs' = fs ∧ r = fs_stat path fs.
Proof.
  destruct p; simpl; try done.
  - by destruct (fs_writeFile _ _ _ _).
  - by intros [= -> -> _ ->].
  - by destruct (fs_unlink _ _ _).
Qed.

Lemma fs_stat_size path fs size :
  fs_stat path fs = inr size →
  (∃ data, fs !! path = Some (File data) ∧ N.of_nat (length data) = size) ∨
  fs !! path = Some (Dir size).
Proof.
  unfold fs_stat. destruct (fs !! path) as [[data|size']|]; intros [= <-];
    [left; by exists data|by right].
Qed.

Lemma runs_split {A} (p r : Prog A) a b :
  runs p (a ++ b) r → ∃ q, runs p a q ∧ runs q b r.
Proof.
  revert p. induction a as [|ob a IH]; intros p Hruns.
  - exists p. split; [constructor|done].
  - simpl in Hruns. inversion Hruns; subst;
      match goal with H : runs _ (a ++ b) r |- _ =>
        destruct (IH _ H) as (q & Ha & Hb) end;
      exists q; (split; [by constructor|done]).
Qed.

Lemma ranked_snoc obs ob :
  ranked (obs ++ [ob]) → Forall (λ earlier, op_rank earlier < op_rank ob) obs.
Proof.
  induction obs as [|x obs IH]; simpl; [constructor|].
  intros [Hx Hrest]. apply Forall_app in Hx as [_ Hx].
  rewrite Forall_singleton in Hx. constructor; [done|by apply IH].
Qed.

Lemma spawns_cons ob obs :
  spawns (ob :: obs)
  = match ob with
    | ObsSpawn cmd args _ => (cmd, args) :: spawns obs
    | _ => spawns obs
    end.
Proof. by destruct ob. Qed.

Lemma spawns_none obs :
  Forall (λ ob, 1 < op_rank ob) obs → spawns obs = [].
Proof.
  induction 1 as [|ob obs Hob _ IH]; [done|].
  rewrite spawns_cons. destruct ob; simpl in Hob; try done. lia.
Qed.

Lemma ranked_spawns obs : ranked obs → length (spawns obs) ≤ 1.
Proof.
  induction obs as [|ob obs IH]; [simpl; lia|]. intros [Hob Hrest].
  rewrite spawns_cons. destruct ob; try (by apply IH).
  rewrite (spawns_none obs); [simpl; lia|].
  eapply Forall_impl; [done|]. simpl. intros; lia.
Qed.

(** Operations in order, all of rank [k] to 3, are at most [4 - k]. *)
Lemma ranked_length obs k :
  ranked obs → Forall (λ ob, k ≤ op_rank ob < 4) obs → length obs ≤ 4 - k.
Proof.
  revert k. induction obs as [|ob obs IH]; intros k; [simpl; lia|].
  intros [Hlater Hrest] Hall. apply Forall_cons in Hall as [Hob Hall].
  specialize (IH (S (op_rank ob)) Hrest). simpl.
  assert (length obs ≤ 4 - S (op_rank ob)); [|lia].
  apply IH. apply Forall_forall. intros later Hin.
  rewrite Forall_forall in Hlater, Hall.
  specialize (Hlater later Hin). specialize (Hall later Hin). simpl in Hlater. lia.
Qed.

Lemma job_op_rank tf id file ob : job_op tf id file ob → op_rank ob < 4.
Proof. destruct ob; simpl; intros Hop; first [lia|done]. Qed.

Section Disk.

Variables (req : Request) (files : list UploadedFile) (tf mime : string).
Variables (env : nat → JobEnv).
Hypothesis Hallowed : allowedVideoFormats !! Str.toLowerCase tf = Some mime.

Abbreviation tasks0 := (batch_tasks req tf mime env files).
Abbreviation io := (λ i, job_io (env i)).
Abbreviation batch sched fs := (run io sched (start tasks0 fs)).

(** One more resumption: nothing happens, or the resumed unit of work
    performs its next operation. *)
Lemma batch_step_cases sched j fs :
  batch (sched ++ [j]) fs = batch sched fs ∨
  ∃ (p : Prog (Exn + Json)) ob p' fs' file,
    files !! j = Some file ∧
    sys_tasks (batch sched fs) !! j = Some p ∧
    resume (io j) p (sys_fs (batch sched fs)) = Some (ob, p', fs') ∧
    sys_tasks (batch (sched ++ [j]) fs) = <[j:=p']> (sys_tasks (batch sched fs)) ∧
    sys_trace (batch (sched ++ [j]) fs) = sys_trace (batch sched fs) ++ [(j, ob)] ∧
    sys_fs (batch (sched ++ [j]) fs) = fs' ∧
    job_op tf (job_id (env j)) file ob ∧
    ranked (obs_of j (sys_trace (batch sched fs)) ++ [ob]) ∧
    caused (obs_of j (sys_trace (batch sched fs)) ++ [ob]).
Proof.
  rewrite run_snoc. unfold step.
  destruct (sys_tasks (batch sched fs) !! j) as [p|] eqn:Hp; [|by left].
  destruct (resume (io j) p (sys_fs (batch sched fs))) as [[[ob p'] fs']|] eqn:Hres;
    [right|by left].
  pose proof (run_snoc io sched j (start tasks0 fs)) as Hrun.
  unfold step in Hrun. rewrite Hp, Hres in Hrun. rewrite <- Hrun. clear Hrun.
  assert (sys_trace (batch (sched ++ [j]) fs) = sys_trace (batch sched fs) ++ [(j, ob)])
    as Htr.
  { rewrite run_snoc. unfold step. rewrite Hp, Hres. by rewrite settle_trace. }
  assert ((j, ob) ∈ sys_trace (batch (sched ++ [j]) fs)) as Hin.
  { rewrite Htr. apply elem_of_app. right. by apply list_elem_of_singleton. }
  destruct (batch_trace_ops req files tf mime env (sched ++ [j]) fs j ob Hin)
    as (file & Hfile & Hop).
  destruct (batch_unit_run req files tf mime env (sched ++ [j]) fs j file Hfile)
    as (q & _ & Hruns).
  rewrite Htr, obs_of_snoc, decide_True in Hruns by done.
  apply unit_runs_ordered in Hruns as [Hranked Hcaused].
  exists p, ob, p', fs', file.
  split; [done|]. split; [done|]. split; [done|].
  split. { rewrite run_snoc. unfold step. rewrite Hp, Hres. by rewrite settle_tasks. }
  split; [done|].
  split. { rewrite run_snoc. unfold step. rewrite Hp, Hres. by rewrite settle_fs. }
  done.
Qed.

(** A unit of work changes its own input and output paths only. *)
Lemma touches_job_op id file ob path :
  job_op tf id file ob → touches ob path →
  path = inputPath id file ∨ path = outputPath tf id.
Proof.
  destruct ob as [written data r|cmd args r|statted r|removed r|? ?|? ?];
    cbn [job_op touches]; intros Hop Ht; try done.
  - destruct Hop as [Hpath _]. left. by rewrite <- Ht, Hpath.
  - destruct Hop as [_ Hargs]. right. rewrite Hargs in Ht. by injection Ht as <-.
  - left. by rewrite <- Ht, Hop.
Qed.

(** The node at a path that is no input and no output path of the batch is
    never changed. *)
Lemma batch_frame sched fs path :
  (∀ i file, files !! i = Some file →
     path ≠ inputPath (job_id (env i)) file ∧ path ≠ outputPath tf (job_id (env i))) →
  sys_fs (batch sched fs) !! path = fs !! path.
Proof.
  intros Hpath. induction sched as [|j sched IH] using rev_ind; [done|].
  destruct (batch_step_cases sched j fs)
    as [->|(p & ob & p' & fs' & file & Hfile & _ & Hres & _ & Htr & Hfs & Hop & _)];
    [done|].
  rewrite Hfs, <- IH. eapply resume_frame; [done|]. intros Ht.
  destruct (Hpath j file Hfile) as [Hin Hout].
  destruct (touches_job_op _ _ _ _ Hop Ht) as [Heq|Heq];
    [exact (Hin Heq)|exact (Hout Heq)].
Qed.

(** No directory appears at an output path, and the file a successful
    [stat] has seen at an output path stays as it was seen. *)
Lemma batch_outputs sched fs :
  distinct_ids env (length files) →
  (∀ i size, i < length files →
     fs !! outputPath tf (job_id (env i)) ≠ Some (Dir size)) →
  (∀ i size, i < length files →
     sys_fs (batch sched fs) !! outputPath tf (job_id (env i)) ≠ Some (Dir size)) ∧
  (∀ i size, i < length files →
     ObsStat (outputPath tf (job_id (env i))) (inr size)
       ∈ obs_of i (sys_trace (batch sched fs)) →
     ∃ data, sys_fs (batch sched fs) !! outputPath tf (job_id (env i)) = Some (File data) ∧
             N.of_nat (length data) = size).
Proof.
  intros Hids Hfs0.
  pose proof (lower_slash_free tf mime Hallowed) as Hfree.
  induction sched as [|j sched [IHdir IHfile]] using rev_ind.
  { split; [done|]. intros i size _ Hin. by apply elem_of_nil in Hin. }
  destruct (batch_step_cases sched j fs)
    as [->|(p & ob & p' & fs' & file & Hfile & _ & Hres & _ & Htr & Hfs & Hop & Hrank & _)];
    [done|].
  assert (j < length files) as Hj by (by eapply lookup_lt_Some).
  split.
  - intros i size Hi Hdir. rewrite Hfs in Hdir.
    apply (resume_no_new_dir _ _ _ _ _ _ _ _ Hres) in Hdir. by eapply IHdir.
  - intros i size Hi Hin. rewrite Htr, obs_of_snoc in Hin.
    apply elem_of_app in Hin as [Hold|Hnew].
    + destruct (IHfile i size Hi Hold) as (data & Hdata & Hlen).
      exists data. split; [|done]. rewrite Hfs, <- Hdata.
      eapply resume_frame; [done|]. intros Ht.
      destruct (decide (j = i)) as [Hji|Hne].
      * rewrite Hji in Hrank, Hop.
        apply ranked_snoc in Hrank. rewrite Forall_forall in Hrank.
        specialize (Hrank _ Hold).
        destruct ob as [? ? ?|? ? ?|? ?|removed r|? ?|? ?];
          cbn [op_rank] in Hrank; try lia;
          cbn [job_op touches] in Hop, Ht; try (by destruct Hop).
        apply (input_is_no_output tf (job_id (env i)) (job_id (env i)) file Hfree).
        exact (eq_trans (eq_sym Hop) Ht).
      * destruct (touches_job_op _ _ _ _ Hop Ht) as [Heq|Heq].
        -- apply (input_is_no_output tf (job_id (env j)) (job_id (env i)) file Hfree).
           exact (eq_sym Heq).
        -- apply Hne. apply Hids; [exact Hj|exact Hi|].
           symmetry. exact (outputPath_inj tf _ _ Hfree Heq).
    + destruct (decide (j = i)) as [Hji|Hne]; [|by apply elem_of_nil in Hnew].
      apply list_elem_of_singleton in Hnew. rewrite <- Hnew in Hres.
      apply resume_stat in Hres as [Hsame Hstat]. symmetry in Hstat.
      rewrite Hfs, Hsame.
      destruct (fs_stat_size _ _ _ Hstat) as [(data & Hdata & Hlen)|Hdir].
      * by exists data.
      * by destruct (IHdir i size Hi).
Qed.

End Disk.

End DiskFacts.

(* ===================================================================== *)
(** ** Facts about units of work run side by side *)
(* ===================================================================== *)

Module IsolationFacts.
Import StrFacts PathFacts UuidFacts JobFacts SchedFacts BatchFacts NameFacts OrderFacts
  DiskFacts.

(** Input paths of different identifiers differ. *)
Lemma inputPath_inj id id' file file' :
  inputPath id file = inputPath id' file' → uuid_string id = uuid_string id'.
Proof.
  rewrite !inputPath_eq. unfold inputFileName. intros Heq.
  apply (app_inj_length "/tmp/" "/tmp/") in Heq as [_ Heq]; [|done].
  apply app_inj_length in Heq as [Heq _]; [done|].
  by rewrite !uuid_string_length.
Qed.

Lemma insert_agree (fs1 fs2 : FS) path node q :
  fs1 !! q = fs2 !! q → <[path:=node]> fs1 !! q = <[path:=node]> fs2 !! q.
Proof.
  intros Hq. destruct (decide (path = q)) as [->|Hne].
  - by rewrite !lookup_insert_eq.
  - by rewrite !lookup_insert_ne.
Qed.

Lemma delete_agree (fs1 fs2 : FS) path q :
  fs1 !! q = fs2 !! q → delete path fs1 !! q = delete path fs2 !! q.
Proof.
  intros Hq. destruct (decide (path = q)) as [->|Hne].
  - by rewrite !lookup_delete_eq.
  - by rewrite !lookup_delete_ne.
Qed.

(** What a resumption does is decided by the node at the awaited path, and
    it treats two disks alike wherever they are alike. *)
Lemma resume_local {A} (f : Faults) (p p' : Prog A) fs1 fs2 ob fs1' :
  (∀ path, awaited_path p = Some path → fs1 !! path = fs2 !! path) →
  resume f p fs1 = Some (ob, p', fs1') →
  ∃ fs2', resume f p fs2 = Some (ob, p', fs2') ∧
          ∀ q, fs1 !! q = fs2 !! q → fs1' !! q = fs2' !! q.
Proof.
  destruct p as [a|path data k|cmd args k|path k|path k|path k|path k];
    simpl; intros Hagree Hres; try done.
  - specialize (Hagree path eq_refl). unfold fs_writeFile in *.
    rewrite <- Hagree.
    destruct (fs1 !! path) as [[d|size]|]; destruct (write_fault f) as [[msg [partial|]]|];
      injection Hres as <- <- <-; eexists; (split; [done|]); intros q Hq;
      first [done|by apply insert_agree].
  - injection Hres as <- <- <-. eexists. split; [done|]. intros q Hq.
    unfold run_encoder.
    destruct (proc f) as [|chunks [code|msg]]; try done.
    destruct (encoded f) as [encoded|]; try done.
    destruct (last args) as [out|]; try done.
    rewrite <- (Hagree out eq_refl).
    destruct (fs1 !! out) as [[d|size]|]; first [done|by apply insert_agree].
  - injection Hres as <- <- <-. exists fs2. split; [|done].
    unfold fs_stat. by rewrite (Hagree path eq_refl).
  - specialize (Hagree path eq_refl). unfold fs_unlink in *.
    rewrite <- Hagree.
    destruct (fs1 !! path) as [[d|size]|]; destruct (unlink_fault f) as [msg|];
      injection Hres as <- <- <-; eexists; (split; [done|]); intros q Hq;
      first [done|by apply delete_agree].
  - injection Hres as <- <- <-. exists fs2. split; [|done].
    unfold fs_access. by rewrite (Hagree path eq_refl).
  - injection Hres as <- <- <-. exists fs2. split; [|done].
    unfold send_file. by rewrite (Hagree path eq_refl).
Qed.

(** The awaited path of a unit of work is its input or its output path. *)
Lemma resume_awaited {A} (f : Faults) (p p' : Prog A) fs fs' ob tf id file path :
  resume f p fs = Some (ob, p', fs') → job_op tf id file ob →
  awaited_path p = Some path →
  path = inputPath id file ∨ path = outputPath tf id.
Proof.
  destruct p as [a|written data k|cmd args k|statted k|removed k|? k|? k];
    cbn [resume awaited_path]; try done.
  - destruct (fs_writeFile _ _ _ _). intros [= <- _ _] [Hpath _] [= <-]. by left.
  - intros [= <- _ _] [_ Hargs] Hlast. right. rewrite Hargs in Hlast.
    by injection Hlast as <-.
  - intros [= <- _ _] Hpath [= <-]. by right.
  - destruct (fs_unlink _ _ _). intros [= <- _ _] Hpath [= <-]. by left.
  - by intros [= <- _ _].
  - by intros [= <- _ _].
Qed.

Lemma solo_snoc {A} (f : Faults) (p p1 p2 : Prog A) fs fs1 fs2 obs ob :
  solo f p fs obs p1 fs1 → resume f p1 fs1 = Some (ob, p2, fs2) →
  solo f p fs (obs ++ [ob]) p2 fs2.
Proof.
  induction 1 as [|? ? ? ? ? ? ? ? Hres _ IH]; intros Hlast; simpl.
  - econstructor; [done|constructor].
  - econstructor; [done|by apply IH].
Qed.

Lemma exec_resume {A} (f : Faults) (p p' : Prog A) fs fs' ob :
  resume f p fs = Some (ob, p', fs') →
  exec f p fs = let '(a, fs'', tr) := exec f p' fs' in (a, fs'', ob :: tr).
Proof.
  destruct p; simpl; try done.
  - destruct (fs_writeFile _ _ _ _). by intros [= <- <- <-].
  - by intros [= <- <- <-].
  - by intros [= <- <- <-].
  - destruct (fs_unlink _ _ _). by intros [= <- <- <-].
  - by intros [= <- <- <-].
  - by intros [= <- <- <-].
Qed.

(** A program resumed on its own until it settles has run as [exec] says. *)
Lemma solo_exec {A} (f : Faults) (p : Prog A) fs obs a fs' :
  solo f p fs obs (Ret a) fs' → exec f p fs = (a, fs', obs).
Proof.
  intros Hsolo. remember (Ret a) as q eqn:Hq.
  induction Hsolo as [|? ? ? ? ? ? ? ? Hres _ IH]; subst; [done|].
  rewrite (exec_resume _ _ _ _ _ _ Hres). by rewrite IH.
Qed.

Section Isolation.

Variables (req : Request) (files : list UploadedFile) (tf mime : string).
Variables (env : nat → JobEnv).
Hypothesis Hallowed : allowedVideoFormats !! Str.toLowerCase tf = Some mime.
Hypothesis Hids : distinct_ids env (length files).

Abbreviation tasks0 := (batch_tasks req tf mime env files).
Abbreviation io := (λ i, job_io (env i)).
Abbreviation batch sched fs := (run io sched (start tasks0 fs)).

(** Units of work of different files share no path. *)
Lemma paths_apart i j file file' path :
  files !! i = Some file → files !! j = Some file' → i ≠ j →
  path = inputPath (job_id (env i)) file ∨ path = outputPath tf (job_id (env i)) →
  path = inputPath (job_id (env j)) file' ∨ path = outputPath tf (job_id (env j)) →
  False.
Proof.
  intros Hi Hj Hne Hmine Htheirs.
  pose proof (lower_slash_free tf mime Hallowed) as Hfree.
  assert (uuid_string (job_id (env i)) ≠ uuid_string (job_id (env j))) as Hdiff.
  { intros Heq. apply Hne. apply Hids; [by eapply lookup_lt_Some..|done]. }
  destruct Hmine as [Hmine|Hmine], Htheirs as [Htheirs|Htheirs].
  - apply Hdiff. apply (inputPath_inj _ _ file file').
    exact (eq_trans (eq_sym Hmine) Htheirs).
  - apply (input_is_no_output tf (job_id (env i)) (job_id (env j)) file Hfree).
    exact (eq_trans (eq_sym Hmine) Htheirs).
  - apply (input_is_no_output tf (job_id (env j)) (job_id (env i)) file' Hfree).
    exact (eq_trans (eq_sym Htheirs) Hmine).
  - apply Hdiff. apply (outputPath_inj tf _ _ Hfree).
    exact (eq_trans (eq_sym Hmine) Htheirs).
Qed.

(** At every moment each unit of work is where it would be had it run on
    its own from the initial disk, and the shared disk is, at the paths of
    the unit, the disk of that run. *)
Lemma batch_isolated sched fs i file :
  files !! i = Some file →
  ∃ p fs_i,
    sys_tasks (batch sched fs) !! i = Some p ∧
    solo (io i) (unit_of_work req tf mime (job_id (env i)) file) fs
      (obs_of i (sys_trace (batch sched fs))) p fs_i ∧
    sys_fs (batch sched fs) !! inputPath (job_id (env i)) file
      = fs_i !! inputPath (job_id (env i)) file ∧
    sys_fs (batch sched fs) !! outputPath tf (job_id (env i))
      = fs_i !! outputPath tf (job_id (env i)).
Proof.
  intros Hi. induction sched as [|j sched IH] using rev_ind.
  { eexists _, fs. split; [by apply batch_tasks_lookup|]. split; [constructor|done]. }
  destruct IH as (q & fs_i & Hq & Hsolo & Hin & Hout).
  destruct (batch_step_cases req files tf mime env sched j fs)
    as [->|(p & ob & p' & fs' & file' & Hfile' & Hp & Hres & Htasks & Htr & Hfs & Hop & _)].
  { exists q, fs_i. split; [exact Hq|]. split; [exact Hsolo|]. split; [exact Hin|exact Hout]. }
  rewrite Htasks, Htr, Hfs, obs_of_snoc.
  destruct (decide (j = i)) as [Hji|Hne].
  - rewrite Hji in Hfile', Hp, Hres, Hop |- *.
    rewrite Hi in Hfile'. injection Hfile' as <-.
    rewrite Hq in Hp. injection Hp as <-.
    destruct (resume_local _ _ _ _ fs_i _ _
                ltac:(intros path Hpath;
                      destruct (resume_awaited _ _ _ _ _ _ _ _ _ _ Hres Hop Hpath)
                        as [Heq|Heq]; rewrite Heq; [exact Hin|exact Hout]) Hres)
      as (fs_i' & Hres' & Hagree).
    exists p', fs_i'.
    split; [apply list_lookup_insert_eq; by eapply lookup_lt_Some|].
    split; [exact (solo_snoc _ _ _ _ _ _ _ _ _ Hsolo Hres')|].
    split; [exact (Hagree _ Hin)|exact (Hagree _ Hout)].
  - exists q, fs_i. rewrite list_lookup_insert_ne, app_nil_r by done.
    split; [exact Hq|]. split; [exact Hsolo|].
    assert (∀ path,
              path = inputPath (job_id (env i)) file ∨
              path = outputPath tf (job_id (env i)) →
              fs' !! path = sys_fs (batch sched fs) !! path) as Hframe.
    { intros path Hmine. eapply resume_frame; [exact Hres|]. intros Ht.
      apply (paths_apart i j file file' path Hi Hfile' (not_eq_sym Hne) Hmine).
      exact (touches_job_op tf _ _ _ _ Hop Ht). }
    split.
    + rewrite <- Hin. apply Hframe. by left.
    + rewrite <- Hout. apply Hframe. by right.
Qed.

(** The settled batch, unit by unit. *)
Lemma batch_settled_alone sched fs i file :
  sys_remaining (batch sched fs) = 0 → files !! i = Some file →
  ∃ v fs_i,
    (default JNull <$> sys_values (batch sched fs)) !! i = Some v ∧
    exec (io i) (unit_of_work req tf mime (job_id (env i)) file) fs
      = (inr v, fs_i, obs_of i (sys_trace (batch sched fs))) ∧
    sys_fs (batch sched fs) !! inputPath (job_id (env i)) file
      = fs_i !! inputPath (job_id (env i)) file ∧
    sys_fs (batch sched fs) !! outputPath tf (job_id (env i))
      = fs_i !! outputPath tf (job_id (env i)).
Proof.
  intros Hrem Hi.
  destruct (batch_isolated sched fs i file Hi) as (p & fs_i & Hp & Hsolo & Hin & Hout).
  pose proof (batch_run_inv req files tf mime env sched fs) as Hinv.
  destruct (inv_fulfilled _ _ _ _ Hinv Hrem (batch_tasks_lookup req files tf mime env i file Hi))
    as (v & Hv & _).
  rewrite (inv_remaining _ _ Hinv) in Hrem. apply unfulfilled_zero in Hrem.
  rewrite Forall_lookup in Hrem. destruct (Hrem i p Hp) as [v' Hv'].
  destruct p as [[e|w]| | | | | |]; try done. injection Hv' as ->.
  assert (v = v') as ->.
  { rewrite (inv_values _ _ Hinv), !list_lookup_fmap, Hp in Hv. by injection Hv as <-. }
  exists v', fs_i. split; [done|]. split; [by apply solo_exec|].
  split; [exact Hin|exact Hout].
Qed.

(** Two settled runs of the same batch have gathered the same values and
    left the same disk. *)
Lemma batch_settled_agree sched sched' fs :
  sys_remaining (batch sched fs) = 0 → sys_remaining (batch sched' fs) = 0 →
  sys_values (batch sched' fs) = sys_values (batch sched fs) ∧
  sys_fs (batch sched' fs) = sys_fs (batch sched fs).
Proof.
  intros Hrem Hrem'.
  assert (∀ i file, files !! i = Some file →
            sys_values (batch sched' fs) !! i = sys_values (batch sched fs) !! i ∧
            sys_fs (batch sched' fs) !! inputPath (job_id (env i)) file
              = sys_fs (batch sched fs) !! inputPath (job_id (env i)) file ∧
            sys_fs (batch sched' fs) !! outputPath tf (job_id (env i))
              = sys_fs (batch sched fs) !! outputPath tf (job_id (env i))) as Hunit.
  { intros i file Hi.
    destruct (batch_isolated sched fs i file Hi) as (p & alone & Hp & Hsolo & Hin & Hout).
    destruct (batch_isolated sched' fs i file Hi)
      as (p' & alone' & Hp' & Hsolo' & Hin' & Hout').
    pose proof (batch_run_inv req files tf mime env sched fs) as Hinv.
    pose proof (batch_run_inv req files tf mime env sched' fs) as Hinv'.
    assert (∃ out, p = Ret out) as [out ->].
    { rewrite (inv_remaining _ _ Hinv) in Hrem. apply unfulfilled_zero in Hrem.
      rewrite Forall_lookup in Hrem. destruct (Hrem i p Hp) as [v Hv].
      destruct p as [a| | | | | |]; try done. by exists a. }
    assert (∃ out', p' = Ret out') as [out' ->].
    { rewrite (inv_remaining _ _ Hinv') in Hrem'. apply unfulfilled_zero in Hrem'.
      rewrite Forall_lookup in Hrem'. destruct (Hrem' i p' Hp') as [v Hv].
      destruct p' as [a| | | | | |]; try done. by exists a. }
    apply solo_exec in Hsolo, Hsolo'. rewrite Hsolo in Hsolo'.
    injection Hsolo' as <- <- _.
    split.
    - by rewrite (inv_values _ _ Hinv), (inv_values _ _ Hinv'), !list_lookup_fmap, Hp, Hp'.
    - split; [exact (eq_trans Hin' (eq_sym Hin))|exact (eq_trans Hout' (eq_sym Hout))]. }
  split.
  - apply list_eq. intros i.
    destruct (files !! i) as [file|] eqn:Hi; [by apply (Hunit i file)|].
    apply lookup_ge_None in Hi.
    pose proof (batch_run_inv req files tf mime env sched fs) as Hinv.
    pose proof (batch_run_inv req files tf mime env sched' fs) as Hinv'.
    rewrite !(proj2 (lookup_ge_None _ _)); [done|..].
    + rewrite (inv_values _ _ Hinv), length_fmap, (inv_length _ _ Hinv).
      by rewrite batch_tasks_length.
    + rewrite (inv_values _ _ Hinv'), length_fmap, (inv_length _ _ Hinv').
      by rewrite batch_tasks_length.
  - apply map_eq. intros path.
    set (mine := λ x : nat * UploadedFile,
           path = inputPath (job_id (env x.1)) x.2 ∨
           path = outputPath tf (job_id (env x.1))).
    destruct (decide (Exists mine (imap pair files))) as [Hsome|Hnone].
    + apply Exists_exists in Hsome as ([i file] & Hin & Hmine).
      apply list_elem_of_lookup in Hin as [k Hk].
      rewrite list_lookup_imap in Hk.
      destruct (files !! k) as [file'|] eqn:Hfile; [|done].
      injection Hk as <- <-.
      destruct (Hunit k file' Hfile) as (_ & Hin & Hout).
      destruct Hmine as [Hmine|Hmine]; cbn [fst snd] in Hmine; rewrite Hmine;
        [exact Hin|exact Hout].
    + assert (∀ i file, files !! i = Some file →
                path ≠ inputPath (job_id (env i)) file ∧
                path ≠ outputPath tf (job_id (env i))) as Hother.
      { intros i file Hi.
        assert (¬ mine (i, file)) as Hnot.
        { intros Hmine. apply Hnone. apply Exists_exists. exists (i, file).
          split; [|exact Hmine]. apply list_elem_of_lookup. exists i.
          by rewrite list_lookup_imap, Hi. }
        split; intros Heq; apply Hnot; [by left|by right]. }
      rewrite (batch_frame req files tf mime env sched' fs path Hother).
      by rewrite (batch_frame req files tf mime env sched fs path Hother).
Qed.

End Isolation.

(** Once [Promise.all] has fulfilled, resuming changes nothing. *)
Lemma settled_step io tasks0 j s :
  batch_inv tasks0 s → sys_remaining s = 0 → step io j s = s.
Proof.
  intros Hinv Hrem. unfold step.
  destruct (sys_tasks s !! j) as [p|] eqn:Hp; [|done].
  rewrite (inv_remaining _ _ Hinv) in Hrem. apply unfulfilled_zero in Hrem.
  rewrite Forall_lookup in Hrem. destruct (Hrem j p Hp) as [v Hv].
  by destruct p as [[e|w]| | | | | |].
Qed.

Lemma run_app io (a b : list nat) s : run io (a ++ b) s = run io b (run io a s).
Proof. unfold run. apply foldl_app. Qed.

Lemma settled_run io tasks0 more s :
  batch_inv tasks0 s → sys_remaining s = 0 → run io more s = s.
Proof.
  intros Hinv Hrem. induction more as [|j more IH]; [done|].
  rewrite run_cons. by rewrite (settled_step io tasks0 j s).
Qed.

(** The four disk operations when nothing is in their way. *)
Lemma fs_writeFile_ok path data (fs : FS) :
  (∀ size, fs !! path ≠ Some (Dir size)) →
  fs_writeFile None path data fs = (inr (), <[path:=File data]> fs).
Proof.
  intros Hdir. unfold fs_writeFile.
  destruct (fs !! path) as [[d|size]|] eqn:Hnode; try done. by destruct (Hdir size).
Qed.

Lemma run_encoder_ok f args out chunks code data (fs : FS) :
  proc f = Ran chunks (Closed code) → encoded f = Some data → last args = Some out →
  (∀ size, fs !! out ≠ Some (Dir size)) →
  run_encoder f args fs = <[out:=File data]> fs.
Proof.
  intros Hproc Henc Hlast Hdir. unfold run_encoder. rewrite Hproc, Henc, Hlast.
  destruct (fs !! out) as [[d|size]|] eqn:Hnode; try done. by destruct (Hdir size).
Qed.

Section Alone.

Variables (req : Request) (tf mime : string) (id : Uuid) (file : UploadedFile).
Variables (f : Faults) (fs : FS) (chunks : list string) (data : bytes).
Hypothesis Hfree : Str.slash_free (Str.toLowerCase tf).
Hypothesis Hwrite : write_fault f = None.
Hypothesis Hproc : proc f = Ran chunks (Closed (Some 0%Z)).
Hypothesis Henc : encoded f = Some data.
Hypothesis Hin : ∀ size, fs !! inputPath id file ≠ Some (Dir size).
Hypothesis Hout : ∀ size, fs !! outputPath tf id ≠ Some (Dir size).

(** With a disk that takes the write and an encoder that closes with code 0
    and leaves its output, a unit of work run on its own converts, whether
    or not the removal of its input fails. *)
Lemma unit_exec_converts :
  exec f (unit_of_work req tf mime id file) fs
  = (inr (success_result req tf mime id file (N.of_nat (length data))),
     match unlink_fault f with
     | None =>
         delete (inputPath id file)
           (<[outputPath tf id:=File data]> (<[inputPath id file:=File (buffer file)]> fs))
     | Some _ =>
         <[outputPath tf id:=File data]> (<[inputPath id file:=File (buffer file)]> fs)
     end,
     [ ObsWrite (inputPath id file) (buffer file) (inr ());
       ObsSpawn "ffmpeg" (ffmpegArgs tf id file) (Ran chunks (Closed (Some 0%Z)));
       ObsStat (outputPath tf id) (inr (N.of_nat (length data)));
       ObsUnlink (inputPath id file)
         match unlink_fault f with None => inr () | Some msg => inl msg end ]).
Proof.
  pose proof (input_is_no_output tf id id file Hfree) as Hapart.
  assert (last (ffmpegArgs tf id file) = Some (outputPath tf id)) as Hlast by done.
  assert (run_encoder f (ffmpegArgs tf id file) (<[inputPath id file:=File (buffer file)]> fs)
          = <[outputPath tf id:=File data]> (<[inputPath id file:=File (buffer file)]> fs))
    as Hrun.
  { eapply run_encoder_ok; [done..|]. intros size.
    rewrite lookup_insert_ne by done. apply Hout. }
  assert (fs_stat (outputPath tf id)
            (<[outputPath tf id:=File data]> (<[inputPath id file:=File (buffer file)]> fs))
          = inr (N.of_nat (length data))) as Hstat.
  { unfold fs_stat. by rewrite lookup_insert_eq. }
  assert (fs_unlink (unlink_fault f) (inputPath id file)
            (<[outputPath tf id:=File data]> (<[inputPath id file:=File (buffer file)]> fs))
          = match unlink_fault f with
            | None =>
                (inr (), delete (inputPath id file)
                   (<[outputPath tf id:=File data]>
                      (<[inputPath id file:=File (buffer file)]> fs)))
            | Some msg =>
                (inl msg, <[outputPath tf id:=File data]>
                            (<[inputPath id file:=File (buffer file)]> fs))
            end) as Hunlink.
  { unfold fs_unlink. rewrite lookup_insert_ne by (by apply not_eq_sym).
    by rewrite lookup_insert_eq. }
  pose proof (fs_writeFile_ok (inputPath id file) (buffer file) fs Hin) as Hw.
  pose proof (inputPath_truthy id file) as Htruthy.
  assert (ffmpeg_settlement (Ran chunks (Closed (Some 0%Z))) = inr ()) as Hsettle by done.
  unfold unit_of_work, convert_one, try_finally, try_catch, mbind, M_bind, bind,
    set_inputFilePath, set_outputFilePath, writeFile, run_ffmpeg, stat_size,
    unlink, ret, get_locals.
  cbn [pbind exec inputFilePath outputFilePath].
  rewrite Hwrite, Hw. cbn [pbind exec inputFilePath outputFilePath].
  rewrite Hproc, Hrun, Hsettle. cbn [pbind exec inputFilePath outputFilePath].
  rewrite Hstat. cbn [pbind exec inputFilePath outputFilePath].
  rewrite (decide_False _ _ Htruthy). cbn [pbind exec inputFilePath outputFilePath].
  rewrite Hunlink. by destruct (unlink_fault f).
Qed.

End Alone.

End IsolationFacts.

(* ===================================================================== *)
(** ** The claims *)
(* ===================================================================== *)

Import StrFacts PathFacts UuidFacts JobFacts SchedFacts BatchFacts RunFacts HandlerFacts.
Import DeliveryFacts.

(** Claim C1.  For an accepted batch of N files the reply, whatever the
    order in which the units of work complete their operations, is the 200
    reply whose array [convertedFiles] has N entries, the [i]th being the
    object returned by the unit of work of the [i]th file (it carries that
    file's original name); and a schedule that lets every unit of work
    finish does produce that reply. *)
Theorem batch_results_follow_input_order req files tf mime env sched fs :
  accepted req files tf mime →
  let o := convert_video req env sched fs in
  (fair (length files) sched →
     ∃ results, reply o = Responded 200 (conversion_body results)) ∧
  (∀ status body, reply o = Responded status body →
     ∃ results,
       status = 200 ∧ body = conversion_body results ∧
       length results = length files ∧
       field "originalName" <$> results
         = (λ file, Some (JStr (originalname file))) <$> files ∧
       ∀ i file, files !! i = Some file →
         ∃ v, results !! i = Some v ∧
              job_run req tf mime (job_id (env i)) file (obs_of i (trace o)) v).
Proof.
  intros Hacc. cbv zeta.
  destruct (accepted_reply_cases _ _ _ _ env sched fs Hacc)
    as [Hpend|(results & Hreply & Hlen & Hres)].
  - split.
    + intros Hfair. by destruct (accepted_reply_fair _ _ _ _ env sched fs Hacc Hfair).
    + intros status body Hreply. congruence.
  - split; [by exists results|].
    intros status body Heq. rewrite Hreply in Heq. injection Heq as <- <-.
    exists results. repeat split; try done.
    apply list_eq. intros i. rewrite !list_lookup_fmap.
    destruct (files !! i) as [file|] eqn:Hi; simpl.
    + destruct (Hres i file Hi) as (v & -> & Hrun). simpl.
      by rewrite (job_run_original_name _ _ _ _ _ _ _ Hrun).
    + apply lookup_ge_None in Hi. rewrite <- Hlen in Hi.
      apply lookup_ge_None in Hi. by rewrite Hi.
Qed.

Lemma batch_results_follow_input_order_witness :
  accepted (sample_request (Some "WebM")) [clip_a; clip_b] "WebM" "video/webm" ∧
  ∃ results,
    reply (convert_video (sample_request (Some "WebM")) sample_env sample_schedule ∅)
      = Responded 200 (conversion_body results) ∧
    field "originalName" <$> results
      = [Some (JStr "holiday.mov"); Some (JStr "talk.avi")].
Proof.
  assert (accepted (sample_request (Some "WebM")) [clip_a; clip_b] "WebM" "video/webm")
    as Hacc by (by repeat split).
  split; [exact Hacc|].
  destruct (batch_results_follow_input_order _ _ _ _ sample_env sample_schedule ∅ Hacc)
    as [Hfair Hresp].
  destruct Hfair as [results Hreply].
  { intros [|[|i]] Hi; [vm_compute; lia..|simpl in Hi; lia]. }
  destruct (Hresp _ _ Hreply) as (results' & _ & Hbody & _ & Hnames & _).
  exists results. split; [exact Hreply|].
  injection Hbody as ->. exact Hnames.
Defined.

(** Claim C2, amended.  In an accepted batch every [unlink] ever performed
    is the one of the performing unit's own input path, which is never an
    output path; a unit of work performs it at most once, and right after
    one that succeeded no file sits at that path; and once the batch has
    replied, each unit of work has attempted it exactly once, as its last
    operation, on every way out (failed write, failed spawn, failed encode,
    failed stat, success), and, when the environment has failed none of
    these removals, no file is left at any input path. *)
Theorem input_deleted_once_output_kept req files tf mime env sched fs :
  accepted req files tf mime →
  let o := convert_video req env sched fs in
  (∀ i path r, (i, ObsUnlink path r) ∈ trace o →
     (∃ file, files !! i = Some file ∧ path = inputPath (job_id (env i)) file) ∧
     (∀ j, path ≠ outputPath tf (job_id (env j)))) ∧
  (∀ i file, files !! i = Some file →
     unlinks (obs_of i (trace o)) = [] ∨
     unlinks (obs_of i (trace o)) = [inputPath (job_id (env i)) file]) ∧
  (∀ before i path, trace o = before ++ [(i, ObsUnlink path (inr ()))] →
     ¬ file_at (disk o) path) ∧
  (∀ status body, reply o = Responded status body →
     ∀ i file, files !! i = Some file →
       unlinks (obs_of i (trace o)) = [inputPath (job_id (env i)) file] ∧
       (∃ before r, obs_of i (trace o)
                    = before ++ [ObsUnlink (inputPath (job_id (env i)) file) r]) ∧
       ((∀ j, j < length files → unlink_fault (job_io (env j)) = None) →
        ¬ file_at (disk o) (inputPath (job_id (env i)) file))).
Proof.
  intros Hacc. cbv zeta.
  pose proof Hacc as (_ & _ & _ & Hlookup).
  split; [|split; [|split]].
  - rewrite (convert_video_accepted _ _ _ _ _ _ _ Hacc). simpl.
    intros i path r Hin.
    destruct (batch_trace_ops req files tf mime env sched fs i _ Hin)
      as (file & Hfile & Hop).
    simpl in Hop. subst path. split; [by exists file|].
    intros j. apply input_is_no_output. by eapply lower_slash_free.
  - rewrite (convert_video_accepted _ _ _ _ _ _ _ Hacc). simpl.
    intros i file Hi.
    destruct (batch_unit_run req files tf mime env sched fs i file Hi)
      as (p & _ & Hruns).
    destruct (unit_runs_ops _ _ _ _ _ _ _ Hruns) as [_ [Hnone|[out ->]]];
      [by left|right].
    apply unit_runs_complete in Hruns as (v & _ & Hrun).
    by eapply job_run_unlinks.
  - rewrite (convert_video_accepted _ _ _ _ _ _ _ Hacc). simpl.
    intros before i path Htrace. by eapply run_last_unlink.
  - intros status body Hreply i file Hi.
    destruct (accepted_responded _ _ _ _ _ _ _ _ _ Hacc Hreply)
      as (results & _ & _ & _ & Hres).
    destruct (Hres i file Hi) as (v & _ & Hrun).
    split; [by eapply job_run_unlinks|].
    split; [by eapply job_run_ends_with_unlink|].
    intros Hunlinks.
    rewrite (convert_video_accepted _ _ _ _ _ _ _ Hacc) in Hreply |- *.
    simpl in Hreply |- *.
    apply (batch_inputs_gone req files tf mime env Hlookup Hunlinks); [|done].
    by eapply conversion_reply_responded.
Qed.

Lemma input_deleted_once_output_kept_witness :
  accepted (sample_request (Some "WebM")) [clip_a; clip_b] "WebM" "video/webm" ∧
  unlinks (obs_of 1 (trace (convert_video (sample_request (Some "WebM")) sample_env
                              sample_schedule ∅)))
    = [inputPath (sample_id 1) clip_b] ∧
  ¬ file_at (disk (convert_video (sample_request (Some "WebM")) sample_env
                     sample_schedule ∅))
            (inputPath (sample_id 1) clip_b).
Proof.
  assert (accepted (sample_request (Some "WebM")) [clip_a; clip_b] "WebM" "video/webm")
    as Hacc by (by repeat split).
  split; [exact Hacc|].
  destruct (input_deleted_once_output_kept _ _ _ _ sample_env sample_schedule ∅ Hacc)
    as (_ & _ & _ & Hdone).
  destruct (Hdone 200 (conversion_body _) ltac:(vm_compute; reflexivity)
              1 clip_b ltac:(reflexivity)) as (Honce & _ & Hgone).
  split; [exact Honce|]. apply Hgone.
  intros [|[|j]] Hj; [reflexivity..|simpl in Hj; lia].
Defined.

(** Claim C2, as stated, where the environment fails the removal of the
    first input (the scratch root has lost its write permission, say): the
    error is caught and logged by the [finally] block, the unit of work has
    performed its one [unlink], the reply is the 200 reply with the success
    entry of the file, and the input artifact is still on the disk. *)
Lemma failed_unlink_leaves_the_input :
  let o := convert_video (sample_request (Some "webm")) locked_env sample_schedule ∅ in
  (∃ results, reply o = Responded 200 (conversion_body results) ∧
     results !! 0
       = Some (success_result (sample_request (Some "webm")) "webm" "video/webm"
                 (sample_id 0) clip_a 2)) ∧
  obs_of 0 (trace o) !! 3
    = Some (ObsUnlink (inputPath (sample_id 0) clip_a)
              (inl "EPERM: operation not permitted, unlink")) ∧
  unlinks (obs_of 0 (trace o)) = [inputPath (sample_id 0) clip_a] ∧
  disk o !! inputPath (sample_id 0) clip_a = Some (File (buffer clip_a)).
Proof.
  cbv zeta. split; [|split; [|split]].
  - eexists. split; vm_compute; reflexivity.
  - vm_compute. reflexivity.
  - vm_compute. reflexivity.
  - vm_compute. reflexivity.
Qed.



(** Claim C4, at a request with files and no [format] field.  Line 172
    calls [toLowerCase] on the missing format before the test of line 174
    can reject it: the handler's promise rejects with a [TypeError] and no
    400 reply is sent, where the guard of the sibling route [POST /convert]
    answers 400 on the same request. *)
Theorem missing_format_is_not_rejected file files protocol host env sched fs :
  let req := {| req_files := Some (file :: files); req_format := None;
                req_protocol := protocol; req_host := host |} in
  reply (convert_video req env sched fs)
    = Uncaught "TypeError: Cannot read properties of undefined (reading 'toLowerCase')" ∧
  (∀ message, reply (convert_video req env sched fs) ≠ bad_request message) ∧
  convert_image_guard req
    = Some (bad_request "Invalid or missing target image format. Supported formats: png, jpeg, webp.").
Proof. by repeat split. Qed.

(** Claim C5, at the format [WEBM].  The format passes the allow-list,
    which is consulted under the lower-case form, and the output path ends
    in [.webm]; but line 213 compares the format as sent with [webm], so the
    encoder is given [libx264]. *)
Theorem uppercase_webm_is_encoded_with_libx264 :
  allowedVideoFormats !! Str.toLowerCase "WEBM" = Some "video/webm" ∧
  (∀ id file,
     ffmpegArgs "WEBM" id file !! 3 = Some "libx264" ∧
     Str.ends_with (outputPath "WEBM" id) ".webm") ∧
  obs_of 0 (trace (convert_video (sample_request (Some "WEBM")) sample_env [0; 0] ∅))
    = [ ObsWrite "/tmp/1b9d6bcd-bbfd-4b2d-9b5d-ab8dfbbd4bed_input.mov"
          [Byte.x00; Byte.x01; Byte.x02] (inr ());
        ObsSpawn "ffmpeg"
          [ "-i"; "/tmp/1b9d6bcd-bbfd-4b2d-9b5d-ab8dfbbd4bed_input.mov";
            "-c:v"; "libx264"; "-preset"; "veryfast"; "-crf"; "28";
            "-threads"; "0"; "-y";
            "/tmp/1b9d6bcd-bbfd-4b2d-9b5d-ab8dfbbd4bed_output.webm" ]
          (Ran ["frame=1 "; "done"] (Closed (Some 0%Z))) ].
Proof.
  split; [done|]. split; [|by vm_compute].
  intros id file. split; [done|]. by apply (outputPath_extension "WEBM").
Qed.

(** Claim C6.  Every entry of the reply has exactly one of the two shapes:
    the five keys of a success, with the MIME type of the target format and
    the size read by [stat], or the five keys of a failure, with the generic
    MIME type, the download URL [#], an error message and no [size]. *)
Theorem result_has_exactly_one_shape req files tf mime env sched fs :
  accepted req files tf mime →
  let o := convert_video req env sched fs in
  ∀ status body, reply o = Responded status body →
    ∃ results, body = conversion_body results ∧
      length results = length files ∧
      ∀ i file, files !! i = Some file →
        ∃ v, results !! i = Some v ∧
          ((∃ size,
              success_shape mime size v ∧
              ObsStat (outputPath tf (job_id (env i))) (inr size) ∈ obs_of i (trace o) ∧
              keys v = ["originalName"; "newName"; "mimeType"; "downloadUrl"; "size"])
           ∨
           (failure_shape v ∧
            keys v = ["originalName"; "newName"; "mimeType"; "downloadUrl"; "error"] ∧
            field "size" v = None)) ∧
          ¬ ((∃ size, success_shape mime size v) ∧ failure_shape v).
Proof.
  intros Hacc. cbv zeta. intros status body Hreply.
  destruct (accepted_responded _ _ _ _ _ _ _ _ _ Hacc Hreply)
    as (results & _ & -> & Hlen & Hres).
  exists results. split; [done|]. split; [done|]. intros i file Hi.
  destruct (Hres i file Hi) as (v & Hv & Hrun). exists v. split; [done|].
  split.
  - destruct (job_run_shape _ _ _ _ _ _ _ Hrun) as [(size & -> & Hstat)|(e & ->)].
    + left. exists size. repeat split; try done. by eexists _, _, _.
    + right. repeat split; try done. by eexists _, _, _.
  - intros [[size Hs] Hf]. by eapply shapes_disjoint.
Qed.

Lemma result_has_exactly_one_shape_witness :
  accepted (sample_request (Some "WebM")) [clip_a; clip_b] "WebM" "video/webm" ∧
  ∃ results v,
    reply (convert_video (sample_request (Some "WebM")) sample_env sample_schedule ∅)
      = Responded 200 (conversion_body results) ∧
    results !! 0 = Some v ∧
    ¬ ((∃ size, success_shape "video/webm" size v) ∧ failure_shape v).
Proof.
  assert (accepted (sample_request (Some "WebM")) [clip_a; clip_b] "WebM" "video/webm")
    as Hacc by (by repeat split).
  split; [exact Hacc|].
  pose proof (result_has_exactly_one_shape _ _ _ _ sample_env sample_schedule ∅ Hacc)
    as Hshape.
  cbv zeta in Hshape.
  destruct (Hshape 200 (conversion_body _) ltac:(vm_compute; reflexivity))
    as (results & Hbody & _ & Hres).
  injection Hbody as <-.
  destruct (Hres 0 clip_a ltac:(reflexivity)) as (v & Hv & _ & Hone).
  eexists _, v. split; [vm_compute; reflexivity|]. split; [exact Hv|exact Hone].
Defined.

(** Claim C7.  A unit of work whose encoder closed with code 0 goes on to
    [stat] its output path, and the entry it returns is decided by that
    [stat]: a failure object carrying the error of a failed [stat], a
    success only with the size a successful [stat] has read. *)
Theorem exit_code_zero_is_not_enough req files tf mime env sched fs :
  accepted req files tf mime →
  let o := convert_video req env sched fs in
  ∀ status body, reply o = Responded status body →
    ∃ results, body = conversion_body results ∧
      ∀ i file cmd args chunks,
        files !! i = Some file →
        ObsSpawn cmd args (Ran chunks (Closed (Some 0%Z))) ∈ obs_of i (trace o) →
        ∃ v st,
          results !! i = Some v ∧
          ObsStat (outputPath tf (job_id (env i))) st ∈ obs_of i (trace o) ∧
          match st with
          | inl e => v = failure_result file e ∧ failure_shape v
          | inr size => v = success_result req tf mime (job_id (env i)) file size
          end.
Proof.
  intros Hacc. cbv zeta. intros status body Hreply.
  destruct (accepted_responded _ _ _ _ _ _ _ _ _ Hacc Hreply)
    as (results & _ & -> & _ & Hres).
  exists results. split; [done|]. intros i file cmd args chunks Hi Hin.
  destruct (Hres i file Hi) as (v & Hv & Hrun).
  destruct (job_run_encoder_done _ _ _ _ _ _ _ _ _ _ Hrun Hin) as [st Hst]; [done|].
  exists v, st. repeat split; try done. destruct st as [e|size].
  - rewrite (job_run_stat_failed _ _ _ _ _ _ _ _ _ Hrun Hst).
    split; [done|]. by eexists _, _, _.
  - by eapply job_run_stat_done.
Qed.

Lemma exit_code_zero_is_not_enough_witness :
  accepted (sample_request (Some "mp4")) [clip_a; clip_b] "mp4" "video/mp4" ∧
  ∃ results v st,
    reply (convert_video (sample_request (Some "mp4")) silent_env sample_schedule ∅)
      = Responded 200 (conversion_body results) ∧
    results !! 0 = Some v ∧
    ObsStat (outputPath "mp4" (sample_id 0)) st
      ∈ obs_of 0 (trace (convert_video (sample_request (Some "mp4")) silent_env
                           sample_schedule ∅)) ∧
    match st with
    | inl e => v = failure_result clip_a e ∧ failure_shape v
    | inr size => v = success_result (sample_request (Some "mp4")) "mp4" "video/mp4"
                        (sample_id 0) clip_a size
    end.
Proof.
  assert (accepted (sample_request (Some "mp4")) [clip_a; clip_b] "mp4" "video/mp4")
    as Hacc by (by repeat split).
  split; [exact Hacc|].
  pose proof (exit_code_zero_is_not_enough _ _ _ _ silent_env sample_schedule ∅ Hacc)
    as Hstat.
  cbv zeta in Hstat.
  destruct (Hstat 200 (conversion_body _) ltac:(vm_compute; reflexivity))
    as (results & Hbody & Hres).
  injection Hbody as <-.
  destruct (Hres 0 clip_a "ffmpeg" (ffmpegArgs "mp4" (sample_id 0) clip_a) []
              ltac:(reflexivity)
              ltac:(vm_compute; apply list_elem_of_further, list_elem_of_here))
    as (v & st & Hv & Hst & Hverdict).
  eexists _, v, st. split; [vm_compute; reflexivity|].
  split; [exact Hv|]. split; [exact Hst|exact Hverdict].
Defined.

(** Claim C8, amended.  The download route never leaves its promise
    rejected or pending; and when no regular file sits at the path it
    resolves, the scratch root joined with the requested name, it answers
    404 with one of its two plain messages and leaves the disk as it was.
    The resolved path is the normalised one: [..] segments of the name are
    followed, also out of the scratch root. *)
Theorem absent_download_is_not_found filename io fs :
  let o := serve_download filename io fs in
  (∀ e, reply o ≠ Uncaught e) ∧
  reply o ≠ Pending ∧
  (¬ file_at fs (Path.join "/tmp" filename) →
   disk o = fs ∧
   (reply o = Responded 404 (TextBody "File not found or not accessible.") ∨
    reply o = Responded 404 (TextBody
      "File not found or no longer available. It might have been automatically cleaned up by the OS."))).
Proof.
  cbv zeta. destruct (serve_download_cases filename io fs) as [Hdisk Hreply].
  destruct (fs !! Path.join "/tmp" filename) as [node|] eqn:Hnode.
  - destruct (headers_legal _);
      [destruct (hidden _ _);
         [|destruct node as [data|size]; [destruct (interrupted io)|]]|];
      rewrite Hreply; (split; [done|]); (split; [done|]); intros Habsent;
      first [ by (destruct Habsent; eexists)
            | split; [done|]; first [by left|by right] ].
  - rewrite Hreply. split; [done|]. split; [done|]. intros _. split; [done|by left].
Qed.

Lemma absent_download_is_not_found_witness :
  ¬ file_at (∅ : FS) (Path.join "/tmp" "abc_output.mp4") ∧
  (reply (serve_download "abc_output.mp4" io_converts ∅)
     = Responded 404 (TextBody "File not found or not accessible.") ∨
   reply (serve_download "abc_output.mp4" io_converts ∅)
     = Responded 404 (TextBody
         "File not found or no longer available. It might have been automatically cleaned up by the OS.")).
Proof.
  assert (¬ file_at (∅ : FS) (Path.join "/tmp" "abc_output.mp4")) as Habsent.
  { intros [data Hdata]. vm_compute in Hdata. discriminate Hdata. }
  split; [exact Habsent|].
  destruct (absent_download_is_not_found "abc_output.mp4" io_converts ∅)
    as (_ & _ & Hmissing).
  destruct (Hmissing Habsent) as [_ Hreply]. exact Hreply.
Defined.

(** Claim C8, as stated, at the name [../etc/passwd] on a disk with nothing
    under the scratch root: the name is resolved to [/etc/passwd], a file
    outside the scratch root, and the route answers 200 with its bytes. *)
Lemma traversal_is_served :
  (∀ name, outside_disk !! ("/tmp/" +:+ name) = None) ∧
  Path.join "/tmp" "../etc/passwd" = "/etc/passwd" ∧
  reply (serve_download "../etc/passwd" io_converts outside_disk)
    = Responded 200
        (FileBody (download_headers "../etc/passwd")
           [Byte.x72; Byte.x6f; Byte.x6f; Byte.x74]).
Proof.
  split; [|split].
  - intros name. apply lookup_singleton_ne. discriminate.
  - reflexivity.
  - vm_compute. reflexivity.
Qed.

(** Claim C9.  The download route performs no operation that changes the
    disk and leaves the disk as it was, whatever the name; so two fetches in
    a row of a file that exists, under a name the route delivers, neither
    transfer being interrupted, both answer 200 with the same headers and
    the bytes of the file.  A name is delivered when the header made of it
    is one [res.setHeader] accepts and the dot-file policy does not hide the
    resolved path; the name of every artifact the conversion route
    generates is. *)
Theorem download_is_an_idempotent_read filename io1 io2 fs :
  let o1 := serve_download filename io1 fs in
  let o2 := serve_download filename io2 (disk o1) in
  disk o1 = fs ∧ disk o2 = fs ∧
  Forall (λ e, is_mutation e.2 = false) (trace o1 ++ trace o2) ∧
  (∀ data,
     fs !! Path.join "/tmp" filename = Some (File data) →
     headers_legal (download_headers filename) = true →
     hidden io1 (Path.join "/tmp" filename) = false →
     hidden io2 (Path.join "/tmp" filename) = false →
     interrupted io1 = None → interrupted io2 = None →
     reply o1 = Responded 200 (FileBody (download_headers filename) data) ∧
     reply o2 = reply o1) ∧
  (∀ tf mime id,
     allowedVideoFormats !! Str.toLowerCase tf = Some mime →
     filename = outputFileName tf id →
     headers_legal (download_headers filename) = true ∧
     hidden io1 (Path.join "/tmp" filename) = false ∧
     hidden io2 (Path.join "/tmp" filename) = false).
Proof.
  cbv zeta. destruct (serve_download_cases filename io1 fs) as [Hdisk1 Hreply1].
  rewrite Hdisk1.
  destruct (serve_download_cases filename io2 fs) as [Hdisk2 Hreply2].
  split; [done|]. split; [done|]. split; [|split].
  - unfold serve_download, download_video.
    generalize (download_headers filename) as headers.
    generalize (Path.join "/tmp" filename) as path. intros path headers. simpl.
    destruct (fs_access path fs); simpl; [by repeat constructor|].
    destruct (headers_legal headers); simpl; [|by repeat constructor].
    destruct (send_file io1 _ _) as [|? []]; destruct (send_file io2 _ _) as [|? []];
      simpl; by repeat constructor.
  - intros data Hnode Hlegal Hshown1 Hshown2 Hio1 Hio2.
    rewrite Hnode, Hlegal, Hshown1, Hio1 in Hreply1.
    rewrite Hnode, Hlegal, Hshown2, Hio2 in Hreply2. split; congruence.
  - intros tf mime id Hallowed ->.
    destruct (outputFileName_delivered io1 tf mime id Hallowed) as [Hlegal Hshown1].
    destruct (outputFileName_delivered io2 tf mime id Hallowed) as [_ Hshown2].
    done.
Qed.

Lemma download_is_an_idempotent_read_witness :
  sample_disk !! Path.join "/tmp" "abc_output.mp4" = Some (File [Byte.x1a; Byte.x45]) ∧
  reply (serve_download "abc_output.mp4" io_converts sample_disk)
    = Responded 200 (FileBody (download_headers "abc_output.mp4") [Byte.x1a; Byte.x45]) ∧
  reply (serve_download "abc_output.mp4" io_no_output
           (disk (serve_download "abc_output.mp4" io_converts sample_disk)))
    = reply (serve_download "abc_output.mp4" io_converts sample_disk).
Proof.
  assert (sample_disk !! Path.join "/tmp" "abc_output.mp4"
          = Some (File [Byte.x1a; Byte.x45])) as Hfile by (vm_compute; reflexivity).
  split; [exact Hfile|].
  destruct (download_is_an_idempotent_read "abc_output.mp4" io_converts io_no_output
              sample_disk) as (_ & _ & _ & Hsame & _).
  exact (Hsame _ Hfile eq_refl eq_refl eq_refl eq_refl eq_refl).
Defined.



(* ===================================================================== *)
(** ** Further properties of the conversion route *)
(* ===================================================================== *)

(** Extra X1.  A request with files whose format is present but, in lower
    case, no key of the allow-list is answered 400 with the message listing
    the supported formats, before any work: nothing is written, spawned or
    deleted. *)
Theorem unsupported_format_is_rejected req files tf env sched fs :
  req_files req = Some files → files ≠ [] → req_format req = Some (Text tf) →
  allowedVideoFormats !! Str.toLowerCase tf = None →
  convert_video req env sched fs =
    {| reply := bad_request "Invalid or missing target video format. Supported formats: mp4, webm.";
       disk := fs; trace := [] |}.
Proof.
  intros Hfiles Hne Hformat Hlookup. unfold convert_video.
  rewrite Hfiles, Hformat, Hlookup. by destruct files.
Qed.

Lemma unsupported_format_is_rejected_witness :
  allowedVideoFormats !! Str.toLowerCase "exe" = None ∧
  convert_video (sample_request (Some "exe")) sample_env sample_schedule sample_disk =
    {| reply := bad_request "Invalid or missing target video format. Supported formats: mp4, webm.";
       disk := sample_disk; trace := [] |}.
Proof.
  assert (allowedVideoFormats !! Str.toLowerCase "exe" = None) as Hnone
    by (vm_compute; reflexivity).
  split; [exact Hnone|].
  exact (unsupported_format_is_rejected (sample_request (Some "exe")) [clip_a; clip_b]
           "exe" sample_env sample_schedule sample_disk
           eq_refl ltac:(discriminate) eq_refl Hnone).
Defined.

(** Extra X2.  In an accepted batch every encoder is started as [ffmpeg]
    with the input path of its unit of work, the codec [libvpx] when the
    format as sent is exactly [webm] and [libx264] otherwise, the preset
    [veryfast], CRF 28, all cores, the overwrite flag, and the output path
    last. *)
Theorem encoder_arguments req files tf mime env sched fs :
  accepted req files tf mime →
  ∀ i cmd args r, (i, ObsSpawn cmd args r) ∈ trace (convert_video req env sched fs) →
    ∃ file, files !! i = Some file ∧ cmd = "ffmpeg" ∧
      args = [ "-i"; inputPath (job_id (env i)) file;
               "-c:v"; if decide (tf = "webm") then "libvpx" else "libx264";
               "-preset"; "veryfast"; "-crf"; "28"; "-threads"; "0"; "-y";
               outputPath tf (job_id (env i)) ].
Proof.
  intros Hacc i cmd args r.
  rewrite (convert_video_accepted _ _ _ _ _ _ _ Hacc). simpl. intros Hin.
  destruct Hacc as (_ & _ & _ & Hlookup).
  destruct (batch_trace_ops req files tf mime env sched fs i _ Hin)
    as (file & Hfile & -> & ->).
  by exists file.
Qed.

Lemma encoder_arguments_witness :
  accepted (sample_request (Some "webm")) [clip_a; clip_b] "webm" "video/webm" ∧
  ∃ file, [clip_a; clip_b] !! 1 = Some file ∧
    ffmpegArgs "webm" (sample_id 1) clip_b
      = [ "-i"; inputPath (job_id (sample_env 1)) file;
          "-c:v"; if decide ("webm" = "webm") then "libvpx" else "libx264";
          "-preset"; "veryfast"; "-crf"; "28"; "-threads"; "0"; "-y";
          outputPath "webm" (job_id (sample_env 1)) ].
Proof.
  assert (accepted (sample_request (Some "webm")) [clip_a; clip_b] "webm" "video/webm")
    as Hacc by (by repeat split).
  split; [exact Hacc|].
  destruct (encoder_arguments _ _ _ _ sample_env sample_schedule ∅ Hacc
              1 "ffmpeg" (ffmpegArgs "webm" (sample_id 1) clip_b) (proc io_encoder_fails))
    as (file & Hfile & _ & Hargs).
  { vm_compute. do 2 apply list_elem_of_further. apply list_elem_of_here. }
  exists file. split; [exact Hfile|exact Hargs].
Defined.


(* ===================================================================== *)
(** ** Further properties: the image route, names, order and disk *)
(* ===================================================================== *)

Import NameFacts OrderFacts DiskFacts.

(** The keys of the image allow-list. *)
Lemma allowed_image (k : string) :
  (∃ mime, allowedImageFormats !! k = Some mime) ↔ k ∈ ["png"; "jpeg"; "jpg"; "webp"].
Proof.
  split.
  - intros [mime Hmime]. revert Hmime. unfold allowedImageFormats. simpl.
    repeat (rewrite lookup_insert; case_decide;
            [intros _; subst; by repeat constructor|]).
    by rewrite lookup_empty.
  - intros Hin. repeat (apply elem_of_cons in Hin as [->|Hin]; [by eexists|]).
    by apply elem_of_nil in Hin.
Qed.

(** Extra X4.  An accepted request to the image route is answered 200 with
    [success] and the array [convertedFiles]: one object per file, in the
    order of the files.  The object of a file the codec has converted has
    the four keys [originalName], [newName], [mimeType] (the entry of the
    lower-case format in the allow-list) and [data] (the base64 form of the
    codec's output); the object of a file the codec has rejected has the
    failure keys, with empty [data] and the codec's message, and does not
    fail the request. *)
Theorem image_results_follow_input_order sharp req files tf mime :
  req_files req = Some files → files ≠ [] → req_format req = Some (Text tf) →
  allowedImageFormats !! Str.toLowerCase tf = Some mime →
  ∃ results,
    convert_images sharp req
      = Responded 200 (JsonBody (JObj [ ("success", JBool true);
                                       ("convertedFiles", JArr results) ])) ∧
    length results = length files ∧
    ∀ i file, files !! i = Some file →
      results !! i = Some
        match sharp (buffer file) (Str.toLowerCase tf) with
        | inr outputBuffer =>
            JObj [ ("originalName", JStr (originalname file));
                   ("newName", JStr (originalBaseName file +:+ "." +:+ Str.toLowerCase tf));
                   ("mimeType", JStr mime);
                   ("data", JStr (base64 outputBuffer)) ]
        | inl message =>
            JObj [ ("originalName", JStr (originalname file));
                   ("newName", JStr (originalname file +:+ ".error"));
                   ("mimeType", JStr "application/octet-stream");
                   ("data", JStr "");
                   ("error", JStr ("Failed to convert: " +:+
                                   Str.or_else message "Unknown error")) ]
        end.
Proof.
  intros Hfiles Hne Hformat Hmime. unfold convert_images.
  rewrite Hfiles, Hformat. destruct files as [|file0 files0]; [done|].
  rewrite decide_False.
  2: { intros [->|Hnone]; [done|]. by rewrite Hnone in Hmime. }
  eexists. split; [done|]. split; [by rewrite length_fmap|].
  intros i file Hi. rewrite list_lookup_fmap, Hi. simpl. f_equal.
  unfold convert_image_one, image_success, newFileName.
  destruct (sharp _ _); [done|]. by rewrite Hmime.
Qed.

Lemma image_results_follow_input_order_witness :
  allowedImageFormats !! Str.toLowerCase "JPG" = Some "image/jpeg" ∧
  ∃ results,
    convert_images sample_sharp (image_request (Some "JPG"))
      = Responded 200 (JsonBody (JObj [ ("success", JBool true);
                                       ("convertedFiles", JArr results) ])) ∧
    results !! 0 = Some (JObj [ ("originalName", JStr "holiday.mov");
                                ("newName", JStr "holiday.jpg");
                                ("mimeType", JStr "image/jpeg");
                                ("data", JStr "AAEC") ]) ∧
    results !! 1 = Some (JObj [ ("originalName", JStr "blank.png");
                                ("newName", JStr "blank.png.error");
                                ("mimeType", JStr "application/octet-stream");
                                ("data", JStr "");
                                ("error", JStr "Failed to convert: Input buffer is empty") ]).
Proof.
  assert (allowedImageFormats !! Str.toLowerCase "JPG" = Some "image/jpeg") as Hmime
    by (vm_compute; reflexivity).
  split; [exact Hmime|].
  destruct (image_results_follow_input_order sample_sharp
              (image_request (Some "JPG")) [clip_a; empty_image] "JPG" "image/jpeg"
              eq_refl ltac:(discriminate) eq_refl Hmime)
    as (results & Hreply & _ & Hres).
  exists results. split; [exact Hreply|].
  split; [exact (Hres 0 clip_a eq_refl)|exact (Hres 1 empty_image eq_refl)].
Defined.

(** Extra X5.  The new name of a converted image replaces what follows the
    last dot of the original name by the lower-case format, and keeps what
    precedes that dot, earlier dots included. *)
Theorem image_name_replaces_last_extension tf file base ext :
  originalname file = base +:+ "." +:+ ext → dot_free ext →
  newFileName tf file = base +:+ "." +:+ Str.toLowerCase tf.
Proof.
  intros Hname Hext. unfold newFileName, originalBaseName.
  rewrite Hname, split_char_app, removelast_last by done.
  by rewrite (join_split_char "." base).
Qed.

Lemma image_name_replaces_last_extension_witness :
  dot_free "gz" ∧
  newFileName "PNG" {| originalname := "archive.tar.gz"; mimetype := "image/gif";
                       buffer := [] |} = "archive.tar.png".
Proof.
  assert (dot_free "gz") as Hext by (by simpl).
  split; [exact Hext|].
  exact (image_name_replaces_last_extension "PNG"
           {| originalname := "archive.tar.gz"; mimetype := "image/gif"; buffer := [] |}
           "archive.tar" "gz" eq_refl Hext).
Defined.

(** Extra X6.  An original name without a dot is not kept at all: the new
    name of the converted image is a dot followed by the lower-case
    format. *)
Theorem image_name_without_dot_is_dropped tf file :
  dot_free (originalname file) →
  newFileName tf file = "." +:+ Str.toLowerCase tf.
Proof.
  intros Hname. unfold newFileName, originalBaseName.
  by rewrite split_char_dot_free.
Qed.

Lemma image_name_without_dot_is_dropped_witness :
  dot_free "photo" ∧
  newFileName "webp" {| originalname := "photo"; mimetype := "image/png"; buffer := [] |}
    = ".webp".
Proof.
  assert (dot_free "photo") as Hname by (by simpl).
  split; [exact Hname|].
  exact (image_name_without_dot_is_dropped "webp"
           {| originalname := "photo"; mimetype := "image/png"; buffer := [] |} Hname).
Defined.

(** Extra X7.  On a request with files the image route decides by the
    format field alone.  A field sent once whose text is, in lower case,
    one of [png], [jpeg], [jpg], [webp] goes on to the conversion and is
    answered 200; a field that is absent, or sent once with any other text,
    the empty one included, is answered 400 with the message on formats;
    and a field that arrives as an array or an object, having been sent
    more than once or named with brackets, makes [toLowerCase] throw: the
    handler's promise rejects with a [TypeError] and no 400 is sent. *)
Theorem image_format_is_checked_first sharp req file files :
  req_files req = Some (file :: files) →
  match req_format req with
  | Some (Text tf) =>
      if decide (Str.toLowerCase tf ∈ ["png"; "jpeg"; "jpg"; "webp"]) then
        ∃ results,
          convert_images sharp req
            = Responded 200 (JsonBody (JObj [ ("success", JBool true);
                                             ("convertedFiles", JArr results) ]))
      else
        convert_images sharp req
          = bad_request "Invalid or missing target image format. Supported formats: png, jpeg, webp."
  | None =>
      convert_images sharp req
        = bad_request "Invalid or missing target image format. Supported formats: png, jpeg, webp."
  | Some Compound =>
      convert_images sharp req
        = Uncaught "TypeError: targetFormat.toLowerCase is not a function"
  end ∧
  convert_image_guard req
    = match convert_images sharp req with
      | Responded 200 _ => None
      | other => Some other
      end.
Proof.
  intros Hfiles. unfold convert_images, convert_image_guard. rewrite Hfiles.
  destruct (req_format req) as [[tf|]|]; [|by split..].
  split; [|by case_decide].
  destruct (decide (Str.toLowerCase tf ∈ _)) as [Hin|Hout].
  - apply allowed_image in Hin as [mime Hmime].
    rewrite decide_False; [by eexists|].
    intros [->|Hnone]; [done|]. by rewrite Hnone in Hmime.
  - rewrite decide_True; [done|]. right.
    destruct (allowedImageFormats !! Str.toLowerCase tf) as [mime|] eqn:Hmime; [|done].
    destruct Hout. apply allowed_image. by exists mime.
Qed.

Lemma image_format_is_checked_first_witness :
  convert_images sample_sharp (image_request (Some "gif"))
    = bad_request "Invalid or missing target image format. Supported formats: png, jpeg, webp." ∧
  convert_images sample_sharp (image_request None)
    = bad_request "Invalid or missing target image format. Supported formats: png, jpeg, webp." ∧
  convert_images sample_sharp repeated_format_request
    = Uncaught "TypeError: targetFormat.toLowerCase is not a function".
Proof.
  split; [|split].
  - destruct (image_format_is_checked_first sample_sharp (image_request (Some "gif"))
                clip_a [empty_image] eq_refl) as [Hcase _].
    exact Hcase.
  - destruct (image_format_is_checked_first sample_sharp (image_request None)
                clip_a [empty_image] eq_refl) as [Hcase _].
    exact Hcase.
  - destruct (image_format_is_checked_first sample_sharp repeated_format_request
                clip_a [empty_image] eq_refl) as [Hcase _].
    exact Hcase.
Defined.

(** Extra X8.  The name the conversion route gives a converted video is
    served by the download route with the MIME type of the conversion: the
    extension of the name is the lower-case format, and the type chosen for
    that extension is the allow-list's. *)
Theorem download_type_matches_conversion tf mime id :
  allowedVideoFormats !! Str.toLowerCase tf = Some mime →
  Path.basename (outputPath tf id) = outputFileName tf id ∧
  Path.extname (outputFileName tf id) = "." +:+ Str.toLowerCase tf ∧
  download_headers (outputFileName tf id)
    = [ ("Content-Type", mime);
        ("Content-Disposition",
         "attachment; filename=" +:+ Str.dquote +:+ outputFileName tf id +:+ Str.dquote) ].
Proof.
  intros Hallowed.
  pose proof (lower_slash_free tf mime Hallowed) as Hfree.
  split; [by apply outputPath_basename|].
  pose proof (outputFileName_extname tf mime id Hallowed) as Hext.
  split; [exact Hext|].
  unfold download_headers. cbv zeta. rewrite Hext.
  destruct (allowed_video _ _ Hallowed) as [[-> ->]|[-> ->]].
  - by rewrite decide_True by done.
  - rewrite decide_False by done. by rewrite decide_True by done.
Qed.

Lemma download_type_matches_conversion_witness :
  allowedVideoFormats !! Str.toLowerCase "WebM" = Some "video/webm" ∧
  download_headers "1b9d6bcd-bbfd-4b2d-9b5d-ab8dfbbd4bed_output.webm"
    = [ ("Content-Type", "video/webm");
        ("Content-Disposition",
         "attachment; filename=" +:+ Str.dquote +:+
         "1b9d6bcd-bbfd-4b2d-9b5d-ab8dfbbd4bed_output.webm" +:+ Str.dquote) ].
Proof.
  assert (allowedVideoFormats !! Str.toLowerCase "WebM" = Some "video/webm") as Hallowed
    by (vm_compute; reflexivity).
  split; [exact Hallowed|].
  destruct (download_type_matches_conversion "WebM" "video/webm" (sample_id 0) Hallowed)
    as (_ & _ & Hheaders).
  exact Hheaders.
Defined.

(** Extra X9.  What the conversion route reports as converted can be
    fetched.  When the identifiers of the batch print differently and no
    directory sits at an output path beforehand, every entry of the reply
    that carries a [size] names, as [newName] and at the end of its
    [downloadUrl], a regular file of that many bytes left under the scratch
    root, and the download route, given that name and an uninterrupted
    transfer, answers 200 with those bytes. *)
Theorem converted_file_can_be_downloaded req files tf mime env sched fs :
  accepted req files tf mime →
  distinct_ids env (length files) →
  (∀ i size, i < length files →
     fs !! outputPath tf (job_id (env i)) ≠ Some (Dir size)) →
  let o := convert_video req env sched fs in
  ∀ status body, reply o = Responded status body →
    ∃ results, body = conversion_body results ∧
      ∀ i r size, results !! i = Some r → field "size" r = Some (JNum size) →
        ∃ data,
          field "newName" r = Some (JStr (outputFileName tf (job_id (env i)))) ∧
          field "downloadUrl" r
            = Some (JStr (req_protocol req +:+ "://" +:+
                          default "undefined" (req_host req) +:+
                          "/download-video/" +:+ outputFileName tf (job_id (env i)))) ∧
          disk o !! ("/tmp/" +:+ outputFileName tf (job_id (env i))) = Some (File data) ∧
          N.of_nat (length data) = size ∧
          ∀ io, interrupted io = None →
            reply (serve_download (outputFileName tf (job_id (env i))) io (disk o))
              = Responded 200
                  (FileBody (download_headers (outputFileName tf (job_id (env i)))) data).
Proof.
  intros Hacc Hids Hdirs. cbv zeta. intros status body Hreply.
  destruct (accepted_responded _ _ _ _ _ _ _ _ _ Hacc Hreply)
    as (results & _ & -> & Hlen & Hres).
  exists results. split; [done|]. intros i r size Hr Hsize.
  assert (is_Some (files !! i)) as [file Hfile].
  { apply lookup_lt_is_Some. rewrite <- Hlen. by eapply lookup_lt_Some. }
  destruct (Hres i file Hfile) as (v & Hv & Hrun).
  assert (v = r) as -> by congruence.
  pose proof Hacc as (_ & _ & _ & Hallowed).
  pose proof (lower_slash_free tf mime Hallowed) as Hfree.
  destruct (job_run_shape _ _ _ _ _ _ _ Hrun) as [(size' & -> & Hstat)|(e & ->)];
    [|discriminate Hsize].
  injection Hsize as <-.
  rewrite (convert_video_accepted _ _ _ _ _ _ _ Hacc) in Hstat |- *.
  cbn [reply disk trace] in Hstat |- *.
  destruct (batch_outputs req files tf mime env Hallowed sched fs Hids Hdirs)
    as [_ Hkept].
  destruct (Hkept i size' (lookup_lt_Some _ _ _ Hfile) Hstat) as (data & Hdata & Hsize).
  exists data.
  split. { cbn [field success_result assoc]. simpl. by rewrite outputPath_basename. }
  split.
  { cbn [field success_result assoc]. simpl. unfold downloadUrl.
    by rewrite outputPath_basename. }
  split. { by rewrite <- outputPath_eq. }
  split; [done|].
  intros io Hio.
  destruct (serve_download_cases (outputFileName tf (job_id (env i))) io
              (sys_fs (run (λ i, job_io (env i)) sched
                         (start (batch_tasks req tf mime env files) fs))))
    as [_ Hcase].
  destruct (outputFileName_delivered io tf mime (job_id (env i)) Hallowed)
    as [Hlegal Hshown].
  rewrite Hlegal, Hshown in Hcase.
  change (Path.join "/tmp" (outputFileName tf (job_id (env i))))
    with (outputPath tf (job_id (env i))) in Hcase.
  rewrite Hdata, Hio in Hcase. exact Hcase.
Qed.

Lemma converted_file_can_be_downloaded_witness :
  accepted (sample_request (Some "mp4")) [clip_a; clip_b] "mp4" "video/mp4" ∧
  distinct_ids converting_env 2 ∧
  ∃ data,
    N.of_nat (length data) = 2%N ∧
    reply (serve_download (outputFileName "mp4" (sample_id 1)) io_no_output
             (disk (convert_video (sample_request (Some "mp4")) converting_env
                      sample_schedule ∅)))
      = Responded 200
          (FileBody (download_headers (outputFileName "mp4" (sample_id 1))) data).
Proof.
  assert (accepted (sample_request (Some "mp4")) [clip_a; clip_b] "mp4" "video/mp4")
    as Hacc by (by repeat split).
  assert (distinct_ids converting_env 2) as Hids.
  { intros [|[|i]] [|[|j]] Hi Hj Heq; try lia; try done; vm_compute in Heq;
      discriminate Heq. }
  split; [exact Hacc|]. split; [exact Hids|].
  pose proof (converted_file_can_be_downloaded _ _ _ _ converting_env sample_schedule ∅
                Hacc Hids ltac:(intros i size _; by rewrite lookup_empty)) as Hfetch.
  cbv zeta in Hfetch.
  destruct (Hfetch 200 (conversion_body _) ltac:(vm_compute; reflexivity))
    as (results & Hbody & Hall).
  injection Hbody as <-.
  destruct (Hall 1
              (success_result (sample_request (Some "mp4")) "mp4" "video/mp4"
                 (sample_id 1) clip_b 2)
              2%N ltac:(vm_compute; reflexivity) ltac:(vm_compute; reflexivity))
    as (data & _ & _ & _ & Hsize & Hserved).
  exists data. split; [exact Hsize|]. exact (Hserved io_no_output eq_refl).
Defined.

(** Extra X10.  The conversion route changes nothing on the disk but the
    input and output paths of its own units of work: the node at any other
    path is, at every moment, what it was before the request. *)
Theorem other_paths_are_left_alone req files tf mime env sched fs path :
  accepted req files tf mime →
  (∀ i file, files !! i = Some file →
     path ≠ inputPath (job_id (env i)) file ∧ path ≠ outputPath tf (job_id (env i))) →
  disk (convert_video req env sched fs) !! path = fs !! path.
Proof.
  intros Hacc Hpath. rewrite (convert_video_accepted _ _ _ _ _ _ _ Hacc).
  cbn [disk]. destruct Hacc as (_ & _ & _ & Hallowed).
  by apply batch_frame.
Qed.

Lemma other_paths_are_left_alone_witness :
  accepted (sample_request (Some "webm")) [clip_a; clip_b] "webm" "video/webm" ∧
  disk (convert_video (sample_request (Some "webm")) sample_env sample_schedule
          outside_disk) !! "/etc/passwd"
    = outside_disk !! "/etc/passwd".
Proof.
  assert (accepted (sample_request (Some "webm")) [clip_a; clip_b] "webm" "video/webm")
    as Hacc by (by repeat split).
  split; [exact Hacc|].
  apply (other_paths_are_left_alone _ _ _ _ sample_env sample_schedule outside_disk
           "/etc/passwd" Hacc).
  intros [|[|i]] file Hi; [injection Hi as <-..|discriminate Hi];
    (split; intros Heq; vm_compute in Heq; discriminate Heq).
Defined.

(** Extra X11.  Whatever the names of the uploaded files, the conversion
    route writes, encodes to and deletes only files placed directly in the
    scratch root whose names begin with the identifier of the unit of work:
    an upload name cannot direct an operation elsewhere. *)
Theorem work_stays_in_the_scratch_root req files tf mime env sched fs :
  accepted req files tf mime →
  ∀ i ob path, (i, ob) ∈ trace (convert_video req env sched fs) → touches ob path →
    ∃ rest, path = "/tmp/" +:+ uuid_string (job_id (env i)) +:+ rest ∧
            Str.slash_free rest.
Proof.
  intros Hacc i ob path. rewrite (convert_video_accepted _ _ _ _ _ _ _ Hacc).
  cbn [trace]. intros Hin Ht.
  destruct Hacc as (_ & _ & _ & Hallowed).
  pose proof (lower_slash_free tf mime Hallowed) as Hfree.
  destruct (batch_trace_ops req files tf mime env sched fs i ob Hin)
    as (file & Hfile & Hop).
  destruct (touches_job_op tf _ _ _ _ Hop Ht) as [->| ->].
  - rewrite inputPath_eq. unfold inputFileName. eexists. split; [done|].
    apply slash_free_app. split; [done|apply extname_slash_free].
  - rewrite outputPath_eq by done. unfold outputFileName. eexists. split; [done|].
    by apply slash_free_app.
Qed.

Lemma work_stays_in_the_scratch_root_witness :
  accepted (sample_request (Some "webm")) [clip_a; clip_b] "webm" "video/webm" ∧
  ∃ rest, inputPath (sample_id 1) clip_b
          = "/tmp/" +:+ uuid_string (job_id (sample_env 1)) +:+ rest ∧
          Str.slash_free rest.
Proof.
  assert (accepted (sample_request (Some "webm")) [clip_a; clip_b] "webm" "video/webm")
    as Hacc by (by repeat split).
  split; [exact Hacc|].
  apply (work_stays_in_the_scratch_root _ _ _ _ sample_env sample_schedule ∅ Hacc 1
           (ObsWrite (inputPath (sample_id 1) clip_b) (buffer clip_b) (inr ()))).
  - vm_compute. apply list_elem_of_here.
  - reflexivity.
Defined.

(** Extra X12.  At every moment the operations a unit of work has performed
    are in the order write, encoder, stat, unlink, each at most once, so
    they are four at most and nothing is retried; the encoder has been
    started only after the write of the input succeeded, and the output has
    been examined only after the write succeeded and the encoder closed with
    code 0. *)
Theorem unit_operations_are_ordered req files tf mime env sched fs :
  accepted req files tf mime →
  ∀ i file, files !! i = Some file →
    let obs := obs_of i (trace (convert_video req env sched fs)) in
    ranked obs ∧ length obs ≤ 4 ∧ length (spawns obs) ≤ 1 ∧
    ∀ before ob after, obs = before ++ ob :: after → preceded before ob.
Proof.
  intros Hacc i file Hfile. cbv zeta.
  rewrite (convert_video_accepted _ _ _ _ _ _ _ Hacc). cbn [trace].
  destruct (batch_unit_run req files tf mime env sched fs i file Hfile)
    as (p & _ & Hruns).
  destruct (unit_runs_ordered _ _ _ _ _ _ _ Hruns) as [Hranked _].
  split; [done|]. split.
  { apply (ranked_length _ 0 Hranked).
    destruct (unit_runs_ops _ _ _ _ _ _ _ Hruns) as [Hops _].
    eapply Forall_impl; [exact Hops|]. intros ob Hop.
    apply job_op_rank in Hop. lia. }
  split; [by apply ranked_spawns|].
  intros before ob after Heq. rewrite Heq in Hruns.
  change (before ++ ob :: after) with (before ++ [ob] ++ after) in Hruns.
  rewrite (assoc_L (++)) in Hruns.
  apply runs_split in Hruns as (q & Hfirst & _).
  destruct (unit_runs_ordered _ _ _ _ _ _ _ Hfirst) as [_ Hcaused].
  by apply Hcaused.
Qed.

Lemma unit_operations_are_ordered_witness :
  accepted (sample_request (Some "webm")) [clip_a; clip_b] "webm" "video/webm" ∧
  ranked (obs_of 0 (trace (convert_video (sample_request (Some "webm")) sample_env
                             sample_schedule ∅))) ∧
  length (spawns (obs_of 0 (trace (convert_video (sample_request (Some "webm"))
                                     sample_env sample_schedule ∅)))) ≤ 1.
Proof.
  assert (accepted (sample_request (Some "webm")) [clip_a; clip_b] "webm" "video/webm")
    as Hacc by (by repeat split).
  split; [exact Hacc|].
  destruct (unit_operations_are_ordered _ _ _ _ sample_env sample_schedule ∅ Hacc
              0 clip_a eq_refl) as (Hranked & _ & Hspawns & _).
  split; [exact Hranked|exact Hspawns].
Defined.

(** Extra X13.  The MIME type declared for an upload decides nothing: the
    upload filter keeps every file, whatever its type, and two requests to
    the conversion route whose files differ in their declared types at most
    get the same reply, the same operations and the same disk. *)
Theorem declared_type_is_ignored files files' format protocol host env sched fs :
  Forall2 same_content files files' →
  (∀ file, fileFilter file = true) ∧
  convert_video {| req_files := Some files'; req_format := format;
                   req_protocol := protocol; req_host := host |} env sched fs
  = convert_video {| req_files := Some files; req_format := format;
                     req_protocol := protocol; req_host := host |} env sched fs.
Proof.
  intros Hsame. split.
  { intros file. unfold fileFilter. by destruct (_ || _). }
  unfold convert_video. cbn [req_files req_format].
  destruct Hsame as [|file file' files0 files0' Hfile Hrest]; [done|].
  destruct format as [[tf|]|]; [|done..].
  destruct (allowedVideoFormats !! Str.toLowerCase tf) as [mime|]; [|done].
  case_decide; [done|].
  set (req := {| req_files := Some (file :: files0) |}).
  set (req' := {| req_files := Some (file' :: files0') |}).
  assert (batch_tasks req' tf mime env (file' :: files0')
          = batch_tasks req tf mime env (file :: files0)) as ->; [|done].
  assert (Forall2 same_content (file :: files0) (file' :: files0')) as Hall
    by (by constructor).
  clear Hfile Hrest. unfold batch_tasks. symmetry.
  apply list_eq. intros i. rewrite !list_lookup_imap.
  destruct (Forall2_lookup same_content (file :: files0) (file' :: files0')) as [Hlookup _].
  specialize (Hlookup Hall i).
  destruct Hlookup as [f f' [Hname Hbuffer]|]; [|done]. simpl. f_equal.
  destruct f as [name type data], f' as [name' type' data'].
  simpl in Hname, Hbuffer. subst name' data'. reflexivity.
Qed.

Lemma declared_type_is_ignored_witness :
  convert_video
    {| req_files := Some [ {| originalname := "holiday.mov"; mimetype := "text/plain";
                              buffer := [Byte.x00; Byte.x01; Byte.x02] |} ];
       req_format := Some (Text "mp4"); req_protocol := "http";
       req_host := Some "localhost:3001" |} sample_env [0; 0; 0; 0] ∅
  = convert_video
      {| req_files := Some [clip_a];
         req_format := Some (Text "mp4"); req_protocol := "http";
         req_host := Some "localhost:3001" |} sample_env [0; 0; 0; 0] ∅.
Proof.
  apply (declared_type_is_ignored [clip_a]).
  repeat constructor.
Defined.

Import IsolationFacts.

(** The reply to an accepted request, once sent, lists the values
    [Promise.all] has gathered. *)
Lemma accepted_reply_values req files tf mime env sched fs status body :
  accepted req files tf mime →
  reply (convert_video req env sched fs) = Responded status body →
  let s := run (λ i, job_io (env i)) sched
             (start (batch_tasks req tf mime env files) fs) in
  sys_remaining s = 0 ∧ status = 200 ∧
  body = conversion_body (default JNull <$> sys_values s).
Proof.
  intros Hacc. rewrite (convert_video_accepted _ _ _ _ _ _ _ Hacc).
  cbn [reply]. cbv zeta. intros Hreply.
  pose proof (conversion_reply_responded _ _ _ Hreply) as Hrem.
  split; [done|]. unfold conversion_reply in Hreply.
  rewrite batch_never_rejects, decide_True in Hreply by done.
  by injection Hreply as <- <-.
Qed.

(** Extra X14.  The files of a batch do not interfere.  When the
    identifiers of an accepted batch print differently then, whatever the
    order in which the operations of its units of work complete, each unit
    performs the operations, with the results, and returns the object it
    would were it run for its file alone from the initial disk; and the disk
    the batch leaves is, at the input and output paths of the unit, the disk
    that run leaves. *)
Theorem units_do_not_interfere req files tf mime env sched fs :
  accepted req files tf mime →
  distinct_ids env (length files) →
  let o := convert_video req env sched fs in
  ∀ status body, reply o = Responded status body →
    ∃ results, body = conversion_body results ∧
      ∀ i file, files !! i = Some file →
        ∃ v alone,
          results !! i = Some v ∧
          exec (job_io (env i)) (unit_of_work req tf mime (job_id (env i)) file) fs
            = (inr v, alone, obs_of i (trace o)) ∧
          disk o !! inputPath (job_id (env i)) file
            = alone !! inputPath (job_id (env i)) file ∧
          disk o !! outputPath tf (job_id (env i))
            = alone !! outputPath tf (job_id (env i)).
Proof.
  intros Hacc Hids. cbv zeta. intros status body Hreply.
  destruct (accepted_reply_values _ _ _ _ _ _ _ _ _ Hacc Hreply) as (Hrem & _ & ->).
  eexists. split; [done|]. intros i file Hi.
  rewrite (convert_video_accepted _ _ _ _ _ _ _ Hacc). cbn [disk trace].
  destruct Hacc as (_ & _ & _ & Hallowed).
  exact (batch_settled_alone req files tf mime env Hallowed Hids sched fs i file Hrem Hi).
Qed.

Lemma units_do_not_interfere_witness :
  accepted (sample_request (Some "webm")) [clip_a; clip_b] "webm" "video/webm" ∧
  distinct_ids sample_env 2 ∧
  ∃ v alone,
    exec io_encoder_fails
      (unit_of_work (sample_request (Some "webm")) "webm" "video/webm" (sample_id 1) clip_b)
      ∅
    = (inr v, alone,
       obs_of 1 (trace (convert_video (sample_request (Some "webm")) sample_env
                          sample_schedule ∅))).
Proof.
  assert (accepted (sample_request (Some "webm")) [clip_a; clip_b] "webm" "video/webm")
    as Hacc by (by repeat split).
  assert (distinct_ids sample_env 2) as Hids.
  { intros [|[|i]] [|[|j]] Hi Hj Heq; try lia; try done; vm_compute in Heq;
      discriminate Heq. }
  split; [exact Hacc|]. split; [exact Hids|].
  pose proof (units_do_not_interfere _ _ _ _ sample_env sample_schedule ∅ Hacc Hids)
    as Halone.
  cbv zeta in Halone.
  destruct (Halone 200 (conversion_body _) ltac:(vm_compute; reflexivity))
    as (results & _ & Hunits).
  destruct (Hunits 1 clip_b eq_refl) as (v & alone & _ & Hexec & _).
  exists v, alone. exact Hexec.
Defined.

(** Extra X15.  With identifiers that print differently the outcome of an
    accepted batch does not depend on the order in which the operations
    complete: any two schedules after which the reply is sent give the same
    reply and leave the same disk. *)
Theorem outcome_does_not_depend_on_the_schedule req files tf mime env sched sched' fs :
  accepted req files tf mime →
  distinct_ids env (length files) →
  ∀ status body status' body',
    reply (convert_video req env sched fs) = Responded status body →
    reply (convert_video req env sched' fs) = Responded status' body' →
    status' = status ∧ body' = body ∧
    disk (convert_video req env sched' fs) = disk (convert_video req env sched fs).
Proof.
  intros Hacc Hids status body status' body' Hreply Hreply'.
  destruct (accepted_reply_values _ _ _ _ _ _ _ _ _ Hacc Hreply) as (Hrem & -> & ->).
  destruct (accepted_reply_values _ _ _ _ _ _ _ _ _ Hacc Hreply') as (Hrem' & -> & ->).
  rewrite !(convert_video_accepted _ _ _ _ _ _ _ Hacc). cbn [disk].
  pose proof Hacc as (_ & _ & _ & Hallowed).
  destruct (batch_settled_agree req files tf mime env Hallowed Hids sched sched' fs
              Hrem Hrem') as [Hvalues Hdisk].
  split; [done|]. split; [by rewrite Hvalues|exact Hdisk].
Qed.

Lemma outcome_does_not_depend_on_the_schedule_witness :
  accepted (sample_request (Some "webm")) [clip_a; clip_b] "webm" "video/webm" ∧
  distinct_ids sample_env 2 ∧
  disk (convert_video (sample_request (Some "webm")) sample_env [0; 0; 0; 0; 1; 1; 1] ∅)
    = disk (convert_video (sample_request (Some "webm")) sample_env sample_schedule ∅).
Proof.
  assert (accepted (sample_request (Some "webm")) [clip_a; clip_b] "webm" "video/webm")
    as Hacc by (by repeat split).
  assert (distinct_ids sample_env 2) as Hids.
  { intros [|[|i]] [|[|j]] Hi Hj Heq; try lia; try done; vm_compute in Heq;
      discriminate Heq. }
  split; [exact Hacc|]. split; [exact Hids|].
  assert (∃ results,
            reply (convert_video (sample_request (Some "webm")) sample_env
                     sample_schedule ∅)
            = Responded 200 (conversion_body results)) as [results Hreply]
    by (eexists; vm_compute; reflexivity).
  assert (∃ results,
            reply (convert_video (sample_request (Some "webm")) sample_env
                     [0; 0; 0; 0; 1; 1; 1] ∅)
            = Responded 200 (conversion_body results)) as [results' Hreply']
    by (eexists; vm_compute; reflexivity).
  destruct (outcome_does_not_depend_on_the_schedule _ _ _ _ sample_env sample_schedule
              [0; 0; 0; 0; 1; 1; 1] ∅ Hacc Hids _ _ _ _ Hreply Hreply')
    as (_ & _ & Hdisk).
  exact Hdisk.
Defined.

(** Extra X16.  A conversion that nothing hinders succeeds.  In an accepted
    batch whose identifiers print differently, take a file for which the
    write is not failed, the encoder closes with code 0 leaving its output,
    and no directory sits at its input or output path.  Whatever happens to
    the other files, its entry in the reply is the success object with the
    size of the encoder's output, and that output is the file left at the
    output path.  Nothing is left at the input path when the removal of the
    input is not failed; a failed removal, which the [finally] block only
    logs, leaves the input there and changes nothing else. *)
Theorem unhindered_conversion_succeeds req files tf mime env sched fs i file chunks data :
  accepted req files tf mime →
  distinct_ids env (length files) →
  files !! i = Some file →
  write_fault (job_io (env i)) = None →
  proc (job_io (env i)) = Ran chunks (Closed (Some 0%Z)) →
  encoded (job_io (env i)) = Some data →
  (∀ size, fs !! inputPath (job_id (env i)) file ≠ Some (Dir size)) →
  (∀ size, fs !! outputPath tf (job_id (env i)) ≠ Some (Dir size)) →
  let o := convert_video req env sched fs in
  ∀ status body, reply o = Responded status body →
    ∃ results, body = conversion_body results ∧
      results !! i
        = Some (success_result req tf mime (job_id (env i)) file (N.of_nat (length data))) ∧
      disk o !! outputPath tf (job_id (env i)) = Some (File data) ∧
      disk o !! inputPath (job_id (env i)) file
        = match unlink_fault (job_io (env i)) with
          | None => None
          | Some _ => Some (File (buffer file))
          end.
Proof.
  intros Hacc Hids Hi Hwrite Hproc Henc Hin Hout. cbv zeta. intros status body Hreply.
  destruct (accepted_reply_values _ _ _ _ _ _ _ _ _ Hacc Hreply) as (Hrem & _ & ->).
  eexists. split; [done|].
  rewrite (convert_video_accepted _ _ _ _ _ _ _ Hacc). cbn [disk].
  pose proof Hacc as (_ & _ & _ & Hallowed).
  pose proof (lower_slash_free tf mime Hallowed) as Hfree.
  destruct (batch_settled_alone req files tf mime env Hallowed Hids sched fs i file Hrem Hi)
    as (v & alone & Hv & Hexec & Hdisk_in & Hdisk_out).
  rewrite (unit_exec_converts req tf mime (job_id (env i)) file (job_io (env i)) fs
             chunks data Hfree Hwrite Hproc Henc Hin Hout) in Hexec.
  pose proof (f_equal (λ x, x.1.1) Hexec) as Hvalue.
  pose proof (f_equal (λ x, x.1.2) Hexec) as Halone.
  cbn [fst snd] in Hvalue, Halone. clear Hexec.
  apply (inj inr) in Hvalue. rewrite <- Hvalue in Hv. rewrite <- Halone in *.
  pose proof (input_is_no_output tf (job_id (env i)) (job_id (env i)) file Hfree)
    as Hapart.
  split; [exact Hv|]. rewrite Hdisk_out, Hdisk_in.
  destruct (unlink_fault (job_io (env i))) as [msg|]; split.
  - by rewrite lookup_insert_eq.
  - rewrite lookup_insert_ne by (by apply not_eq_sym). by rewrite lookup_insert_eq.
  - rewrite lookup_delete_ne by done. by rewrite lookup_insert_eq.
  - by rewrite lookup_delete_eq.
Qed.

Lemma unhindered_conversion_succeeds_witness :
  accepted (sample_request (Some "webm")) [clip_a; clip_b] "webm" "video/webm" ∧
  distinct_ids locked_env 2 ∧
  ∃ results,
    reply (convert_video (sample_request (Some "webm")) locked_env sample_schedule ∅)
      = Responded 200 (conversion_body results) ∧
    results !! 0
      = Some (success_result (sample_request (Some "webm")) "webm" "video/webm"
                (sample_id 0) clip_a 2) ∧
    disk (convert_video (sample_request (Some "webm")) locked_env sample_schedule ∅)
      !! inputPath (sample_id 0) clip_a
      = Some (File (buffer clip_a)).
Proof.
  assert (accepted (sample_request (Some "webm")) [clip_a; clip_b] "webm" "video/webm")
    as Hacc by (by repeat split).
  assert (distinct_ids locked_env 2) as Hids.
  { intros [|[|i]] [|[|j]] Hi Hj Heq; try lia; try done; vm_compute in Heq;
      discriminate Heq. }
  split; [exact Hacc|]. split; [exact Hids|].
  assert (∃ results,
            reply (convert_video (sample_request (Some "webm")) locked_env
                     sample_schedule ∅)
            = Responded 200 (conversion_body results)) as [results Hreply]
    by (eexists; vm_compute; reflexivity).
  pose proof (unhindered_conversion_succeeds _ _ _ _ locked_env sample_schedule ∅
                0 clip_a ["frame=1 "; "done"] [Byte.x1a; Byte.x45] Hacc Hids
                eq_refl eq_refl eq_refl eq_refl
                ltac:(intros size; by rewrite lookup_empty)
                ltac:(intros size; by rewrite lookup_empty)) as Hok.
  cbv zeta in Hok.
  destruct (Hok _ _ Hreply) as (results' & Hbody & Hentry & _ & Hinput).
  apply conversion_body_inj in Hbody. rewrite <- Hbody in Hentry.
  exists results. split; [exact Hreply|]. split; [exact Hentry|exact Hinput].
Defined.

(** Extra X17.  Once the reply is sent the handler is done: whatever is
    resumed afterwards, the reply, the disk and the operations performed
    stay as they are. *)
Theorem nothing_happens_after_the_reply req files tf mime env sched more fs status body :
  accepted req files tf mime →
  reply (convert_video req env sched fs) = Responded status body →
  convert_video req env (sched ++ more) fs = convert_video req env sched fs.
Proof.
  intros Hacc Hreply.
  destruct (accepted_reply_values _ _ _ _ _ _ _ _ _ Hacc Hreply) as (Hrem & _ & _).
  rewrite !(convert_video_accepted _ _ _ _ _ _ _ Hacc). cbv zeta.
  rewrite run_app.
  by rewrite (settled_run _ (batch_tasks req tf mime env files) more _
                (batch_run_inv req files tf mime env sched fs) Hrem).
Qed.

Lemma nothing_happens_after_the_reply_witness :
  accepted (sample_request (Some "webm")) [clip_a; clip_b] "webm" "video/webm" ∧
  convert_video (sample_request (Some "webm")) sample_env (sample_schedule ++ [1; 0; 1]) ∅
    = convert_video (sample_request (Some "webm")) sample_env sample_schedule ∅.
Proof.
  assert (accepted (sample_request (Some "webm")) [clip_a; clip_b] "webm" "video/webm")
    as Hacc by (by repeat split).
  split; [exact Hacc|].
  assert (∃ results,
            reply (convert_video (sample_request (Some "webm")) sample_env
                     sample_schedule ∅)
            = Responded 200 (conversion_body results)) as [results Hreply]
    by (eexists; vm_compute; reflexivity).
  exact (nothing_happens_after_the_reply _ _ _ _ sample_env sample_schedule [1; 0; 1] ∅
           _ _ Hacc Hreply).
Defined.

Lemma unfulfilled_some (tasks : list (Prog (Exn + Json))) :
  unfulfilled tasks ≠ 0 → ∃ i p, tasks !! i = Some p ∧ value_of p = None.
Proof.
  induction tasks as [|q tasks IH]; simpl; [done|].
  destruct (value_of q) eqn:Hq.
  - intros Hrest. destruct (IH Hrest) as (i & p & Hp & Hnone). by exists (S i), p.
  - intros _. by exists 0, q.
Qed.

(** Extra X18.  The reply waits for every file.  An accepted request is
    still unanswered exactly when some unit of work has not yet run the
    unlink of its [finally] block: one file whose write or encoder never
    completes keeps the whole batch waiting, whatever the other files have
    achieved, and nothing in the handler ends the wait. *)
Theorem reply_waits_for_every_file req files tf mime env sched fs :
  accepted req files tf mime →
  let o := convert_video req env sched fs in
  reply o = Pending ↔
  ∃ i file, files !! i = Some file ∧ unlinks (obs_of i (trace o)) = [].
Proof.
  intros Hacc. cbv zeta. split.
  - rewrite (convert_video_accepted _ _ _ _ _ _ _ Hacc). cbn [reply trace].
    unfold conversion_reply. rewrite batch_never_rejects.
    case_decide as Hrem; [done|]. intros _.
    pose proof (batch_run_inv req files tf mime env sched fs) as Hinv.
    rewrite (inv_remaining _ _ Hinv) in Hrem.
    destruct (unfulfilled_some _ Hrem) as (i & p & Hp & Hnone).
    assert (is_Some (files !! i)) as [file Hfile].
    { apply lookup_lt_is_Some. rewrite <- (batch_tasks_length req files tf mime env).
      rewrite <- (inv_length _ _ Hinv). by eapply lookup_lt_Some. }
    exists i, file. split; [done|].
    destruct (batch_unit_run req files tf mime env sched fs i file Hfile)
      as (p' & Hp' & Hruns).
    rewrite Hp in Hp'. injection Hp' as <-.
    destruct (unit_runs_ops _ _ _ _ _ _ _ Hruns) as [_ [Hnot|[out ->]]]; [done|].
    apply unit_runs_complete in Hruns as (v & -> & _). done.
  - intros (i & file & Hfile & Hnot).
    destruct (accepted_reply_cases _ _ _ _ env sched fs Hacc)
      as [Hpending|(results & _ & _ & Hres)]; [done|].
    destruct (Hres i file Hfile) as (v & _ & Hrun).
    apply job_run_unlinks in Hrun. rewrite Hnot in Hrun. done.
Qed.

Lemma reply_waits_for_every_file_witness :
  accepted (sample_request (Some "webm")) [clip_a; clip_b] "webm" "video/webm" ∧
  reply (convert_video (sample_request (Some "webm")) sample_env [0; 0; 0; 0; 1; 1] ∅)
    = Pending.
Proof.
  assert (accepted (sample_request (Some "webm")) [clip_a; clip_b] "webm" "video/webm")
    as Hacc by (by repeat split).
  split; [exact Hacc|].
  pose proof (reply_waits_for_every_file _ _ _ _ sample_env [0; 0; 0; 0; 1; 1] ∅ Hacc)
    as Hwaits.
  cbv zeta in Hwaits. apply Hwaits.
  exists 1, clip_b. split; [reflexivity|vm_compute; reflexivity].
Defined.


